(** * Relay coordination service: a shallow embedding of the request plane,
    the MCP tool adapter, the activity log and the graph builder.

  Sources embedded here:
  - [app/api/check_status/route.ts]         (module [CheckStatus])
  - [app/api/post_status/route.ts]          (module [PostStatus])
  - [app/api/clear_agent_and_feed/route.ts] (module [ClearAgentAndFeed])
  - [app/mcp/route.ts]                      (modules [Mcp] and [McpRoute])
  - [lib/activity.ts]                       (modules [Activity], [ActivityEvents]
                                             and [ActivityAdmin])
  - [lib/graph-service.ts]                  (module [GraphService])

  JavaScript strings are modelled by [string] (sequences of 8-bit
  characters): [trim], [toLowerCase] and [includes] below are the
  JavaScript functions restricted to ASCII text. *)

From Stdlib Require Import ZArith QArith Qround String Ascii List Sorted Lia.
From Stdlib Require OrderedTypeEx.
From stdpp Require Import base option gmap strings list fin_maps pretty.

Set Warnings "-register-all".

Open Scope string_scope.

(* ===================================================================== *)
(** ** JavaScript values and string primitives *)
(* ===================================================================== *)

Module Js.

(** A parsed JSON value, or [undefined] for an absent property. *)
Inductive JsValue : Type :=
| JUndefined
| JNull
| JBool (b : bool)
| JNumber (n : Z)
| JString (s : string)
| JArray (items : list JsValue)
| JObject (fields : list (string * JsValue)).

(** [payload[key]] on a parsed object: the property if present. *)
Fixpoint get_field (fields : list (string * JsValue)) (key : string) : JsValue :=
  match fields with
  | [] => JUndefined
  | (k, v) :: rest => if decide (k = key) then v else get_field rest key
  end.

(** [a || b] on header values: [null] and the empty string are falsy. *)
Definition or_else (a : option string) (b : string) : string :=
  match a with
  | Some s => if decide (s = "") then b else s
  | None => b
  end.

(** White space of [String.prototype.trim] in the ASCII range:
    TAB, LF, VT, FF, CR and SPACE. *)
Definition is_space (c : ascii) : bool :=
  let n := nat_of_ascii c in
  (((9 <=? n) && (n <=? 13)) || (n =? 32))%nat.

Fixpoint trimStart (s : string) : string :=
  match s with
  | EmptyString => EmptyString
  | String c rest => if is_space c then trimStart rest else s
  end.

Definition trim (s : string) : string :=
  String.rev (trimStart (String.rev (trimStart s))).

Definition lower_char (c : ascii) : ascii :=
  let n := nat_of_ascii c in
  if ((65 <=? n) && (n <=? 90))%nat then ascii_of_nat (n + 32) else c.

Fixpoint toLowerCase (s : string) : string :=
  match s with
  | EmptyString => EmptyString
  | String c rest => String (lower_char c) (toLowerCase rest)
  end.

(** [s.includes(sub)] *)
Fixpoint includes (s sub : string) : bool :=
  String.prefix sub s ||
  match s with
  | EmptyString => false
  | String _ rest => includes rest sub
  end.

(** [s.startsWith(p)] and [s.endsWith(p)] *)
Definition startsWith (s p : string) : bool := String.prefix p s.
Definition endsWith (s p : string) : bool :=
  String.prefix (String.rev p) (String.rev s).

(** *** Plain objects used as dictionaries with string keys.

    Properties are kept in insertion order; [Object.entries] lists the
    canonical array-index keys first, in ascending numeric order, and
    then the other keys in insertion order. *)

Definition Obj (V : Type) : Type := list (string * V).

Fixpoint obj_get {V} (o : Obj V) (key : string) : option V :=
  match o with
  | [] => None
  | (k, v) :: rest => if decide (k = key) then Some v else obj_get rest key
  end.

(** [o[key] = v]: an existing property keeps its position. *)
Fixpoint obj_set {V} (o : Obj V) (key : string) (v : V) : Obj V :=
  match o with
  | [] => [(key, v)]
  | (k, w) :: rest =>
      if decide (k = key) then (k, v) :: rest else (k, w) :: obj_set rest key v
  end.

Definition is_digit (c : ascii) : bool :=
  let n := nat_of_ascii c in ((48 <=? n) && (n <=? 57))%nat.

Fixpoint all_digits (s : string) : bool :=
  match s with
  | EmptyString => true
  | String c rest => is_digit c && all_digits rest
  end.

Fixpoint digits_value (acc : N) (s : string) : N :=
  match s with
  | EmptyString => acc
  | String c rest => digits_value (acc * 10 + (N.of_nat (nat_of_ascii c) - 48)) rest
  end.

(** A canonical numeric string below [2^32 - 1]. *)
Definition array_index (key : string) : option N :=
  match key with
  | EmptyString => None
  | String c rest =>
      if all_digits key && (negb (nat_of_ascii c =? 48)%nat || bool_decide (rest = ""))
      then let n := digits_value 0 key in
           if (n <? 4294967295)%N then Some n else None
      else None
  end.

Fixpoint insert_index {V} (n : N) (e : string * V) (l : list (N * (string * V)))
  : list (N * (string * V)) :=
  match l with
  | [] => [(n, e)]
  | (m, e') :: rest =>
      if (n <? m)%N then (n, e) :: l else (m, e') :: insert_index n e rest
  end.

Definition indexed_entries {V} (o : Obj V) : list (N * (string * V)) :=
  fold_right
    (fun e acc => match array_index (fst e) with
                  | Some n => insert_index n e acc
                  | None => acc
                  end) [] o.

Definition entries {V} (o : Obj V) : list (string * V) :=
  map snd (indexed_entries o)
  ++ List.filter (fun e => match array_index (fst e) with
                           | Some _ => false
                           | None => true
                           end) o.

(** [Set.prototype.add] on a set iterated in insertion order. *)
Definition set_add (s : list string) (x : string) : list string :=
  if bool_decide (x ∈ s) then s else s ++ [x].

End Js.

Import Js.

(* ===================================================================== *)
(** ** Data model *)
(* ===================================================================== *)

(** Lock records, as exchanged with [lib/locks]. *)
Module Locks.

Inductive LockStatus : Type := READING | WRITING.

Record LockEntry : Type := {
  file_path : string;
  user_id : string;
  user_name : string;
  status : LockStatus;
  agent_head : string;
  message : string;
  timestamp : Z;
  expiry : Z;
}.

Record AcquireInput : Type := {
  repoUrl : string;
  branch : string;
  filePaths : list string;
  userId : string;
  userName : string;
  lockStatus : LockStatus;
  lockMessage : string;
  agentHead : string;
}.

Inductive AcquireResult : Type :=
| Acquired (locks : list LockEntry)
| NotAcquired (reason : string) (conflictingFile conflictingUser : option string).

Record ReleaseResult : Type := { success : bool }.

End Locks.

(** The dependency graph of [lib/graph-service.ts]. The constant fields
    [type: 'file'] and [type: 'import'] carry no information and are left
    implicit. *)
Module Graph.

Record GraphNode : Type := {
  id : string;
  size : option Z;
  language : option string;
}.

Record GraphEdge : Type := {
  source : string;
  target : string;
}.

Record Metadata : Type := {
  generated_at : Z;
  files_processed : nat;
  edges_found : nat;
}.

Record DependencyGraph : Type := {
  nodes : list GraphNode;
  edges : list GraphEdge;
  locks : gmap string Locks.LockEntry;
  version : string;
  metadata : Metadata;
}.

(** An entry of the recursive tree listing of the repository host. *)
Record TreeItem : Type := {
  itemType : string;
  itemPath : option string;
  itemSha : string;
  itemSize : option Z;
}.

Record RepoFile : Type := {
  path : string;
  sha : string;
  fileSize : option Z;
}.

#[export] Instance GraphNode_eq_dec : EqDecision GraphNode.
Proof. solve_decision. Defined.

#[export] Instance GraphEdge_eq_dec : EqDecision GraphEdge.
Proof. solve_decision. Defined.

End Graph.

(** Activity events of [lib/activity.ts]. *)
Module Event.

Inductive CoordinationActivityStatus : Type := OPEN | READING | WRITING.

Record CoordinationActivityEvent : Type := {
  id : string;
  file_path : string;
  user_id : string;
  user_name : string;
  status : CoordinationActivityStatus;
  message : string;
  timestamp : Z;
}.

End Event.

(* ===================================================================== *)
(** ** The key/value store *)
(* ===================================================================== *)

(** The store holds string values, hashes and lists. A string value under
    a graph key is either the serialisation of a [DependencyGraph] (what
    [generate] writes, and what [JSON.parse] reads back) or some other
    text, on which [JSON.parse] throws. A list item is either a serialised
    activity event or some other text. The list primitives follow Redis:
    LPUSH puts each value in turn at the head, LTRIM and LRANGE take
    inclusive index ranges, negative indices counting from the tail. *)
Module Kv.

Inductive KvString : Type :=
| Text (s : string)
| GraphJson (g : Graph.DependencyGraph).

Inductive ListItem : Type :=
| EventJson (e : Event.CoordinationActivityEvent)
| Raw (s : string).

Record Store : Type := {
  strings : gmap string KvString;
  hashes : gmap string (gmap string string);
  lists : gmap string (list ListItem);
}.

(** A stored value read [as string | null]. *)
Definition text_of (v : option KvString) : option string :=
  match v with
  | Some (Text s) => Some s
  | _ => None
  end.

Definition empty : Store :=
  {| strings := ∅; hashes := ∅; lists := ∅ |}.

Definition set (key : string) (v : KvString) (s : Store) : Store :=
  {| strings := <[key := v]> (strings s); hashes := hashes s; lists := lists s |}.

Definition hash_at (key : string) (s : Store) : gmap string string :=
  default ∅ (hashes s !! key).

Definition put_hash (key : string) (h : gmap string string) (s : Store) : Store :=
  {| strings := strings s;
     hashes := if decide (h = ∅) then delete key (hashes s) else <[key := h]> (hashes s);
     lists := lists s |}.

(** [HDEL key f1 .. fn] *)
Definition hdel (key : string) (fields : list string) (s : Store) : Store :=
  put_hash key (fold_right (fun f h => delete f h) (hash_at key s) fields) s.

(** [HSET key {f1: v1, ..}] *)
Definition hset (key : string) (values : gmap string string) (s : Store) : Store :=
  put_hash key (values ∪ hash_at key s) s.

Definition list_at (key : string) (s : Store) : list ListItem :=
  default [] (lists s !! key).

Definition put_list (key : string) (l : list ListItem) (s : Store) : Store :=
  {| strings := strings s;
     hashes := hashes s;
     lists := match l with [] => delete key (lists s) | _ => <[key := l]> (lists s) end |}.

(** [LPUSH key v1 .. vn] *)
Definition lpush (key : string) (values : list ListItem) (s : Store) : Store :=
  put_list key (fold_left (fun l v => v :: l) values (list_at key s)) s.

(** The sub-list of [l] between the inclusive indices [start] and [stop]. *)
Definition range (l : list ListItem) (start stop : Z) : list ListItem :=
  let len := Z.of_nat (length l) in
  let lo := if (start <? 0)%Z then Z.max 0 (len + start) else start in
  let hi := if (stop <? 0)%Z then (len + stop)%Z else Z.min stop (len - 1) in
  if (hi <? lo)%Z then []
  else take (Z.to_nat (hi - lo + 1)) (drop (Z.to_nat lo) l).

(** [LTRIM key start stop] *)
Definition ltrim (key : string) (start stop : Z) (s : Store) : Store :=
  put_list key (range (list_at key s) start stop) s.

(** [LRANGE key start stop] *)
Definition lrange (key : string) (start stop : Z) (s : Store) : list ListItem :=
  range (list_at key s) start stop.

End Kv.

(* ===================================================================== *)
(** ** Effects: the world outside a request handler *)
(* ===================================================================== *)

Module Eff.

(** What a handler can catch. *)
Inductive Exn : Type :=
| GitHubQuotaError (message : string) (resetMs : option Z)
| JsError (message : string)
| NonError.

Inductive Outcome (A : Type) : Type :=
| Ret (a : A)
| Throw (e : Exn).
Arguments Ret {A} a.
Arguments Throw {A} e.

(** One record per call that leaves the handler. *)
Inductive Call : Type :=
| CGetRepoHeadCached (owner repo branch : string)
| CGetRepoHead (owner repo branch : string)
| CGetLocks (repoUrl branch : string)
| CAcquireLocks (input : Locks.AcquireInput)
| CReleaseLocks (repoUrl branch : string) (filePaths : list string) (userId : string)
| CKvGet (key : string)
| CKvHgetall (key : string)
| CKvPipeline (graphKey metaKey shaKey : string)
| CKvLpush (key : string) (count : nat)
| CKvLtrim (key : string) (start stop : Z)
| CKvLrange (key : string) (start stop : Z)
| CGetTree (owner repo treeSha : string)
| CGetContent (owner repo path ref : string)
| CInternalApi (path : string) (body : list (string * JsValue)) (username : string).

(** The world: the key/value store and the log of the calls made so far. *)
Record World : Type := {
  store : Kv.Store;
  log : list Call;
}.

Definition logged (c : Call) (w : World) : World :=
  {| store := store w; log := log w ++ [c] |}.

Definition with_store (f : Kv.Store -> Kv.Store) (w : World) : World :=
  {| store := f (store w); log := log w |}.

(** What the file [content] of a repository entry looks like to
    [generate]: no textual content, or the module references found in it
    by [parseImports], each resolved by [ImportResolver.resolve]. *)
Inductive Content : Type :=
| NoContent
| Imports (resolved : list (option string)).

(** The collaborators that are not part of the embedded sources. Each one
    answers from the world as it is at the time of the call, so an answer
    may change from one call to the next. *)
Class Env : Type := {
  (** [lib/github] *)
  parseRepoUrl : string -> Outcome (string * string);
  normalizeRepoUrl : string -> string;
  repoHead : World -> string -> string -> string -> Outcome string;
  getTree : World -> string -> string -> string -> Outcome (list Graph.TreeItem);
  getContent : World -> string -> string -> string -> string -> Outcome Content;
  (** [lib/parser] *)
  getFileLanguage : string -> option string;
  (** [lib/locks] *)
  currentLocks : World -> string -> string -> Outcome (gmap string Locks.LockEntry);
  acquire : World -> Locks.AcquireInput -> Outcome Locks.AcquireResult;
  release : World -> string -> string -> list string -> string -> Outcome Locks.ReleaseResult;
  (** [lib/kv]: whether the client has a method of that name, and the
      transport fault, if any, of the next store command *)
  kvHas : string -> bool;
  kvFault : World -> option Exn;
  (** [Date.now()] *)
  clock : World -> Z;
  (** [fetch] of an internal endpoint: status and parsed payload *)
  internalApi : World -> string -> list (string * JsValue) -> string -> Outcome (Z * JsValue);
}.

(** Handlers are state-passing computations that return or throw. *)
Definition M (A : Type) : Type := World -> Outcome A * World.

#[export] Instance M_ret : MRet M := fun A a w => (Ret a, w).

#[export] Instance M_bind : MBind M := fun A B f m w =>
  match m w with
  | (Ret a, w') => f a w'
  | (Throw e, w') => (Throw e, w')
  end.

Definition throw {A} (e : Exn) : M A := fun w => (Throw e, w).

(** [try { m } catch (e) { handler e }] *)
Definition try_catch {A} (m : M A) (handler : Exn -> M A) : M A := fun w =>
  match m w with
  | (Ret a, w') => (Ret a, w')
  | (Throw e, w') => handler e w'
  end.

Definition lift {A} (o : Outcome A) : M A := fun w => (o, w).

Definition call {A} (c : Call) (answer : World -> Outcome A) : M A :=
  fun w => (answer w, logged c w).

(** [for (const x of l) { b = f b x }] *)
Fixpoint foldM {A B} (f : B -> A -> M B) (l : list A) (b : B) : M B :=
  match l with
  | [] => mret b
  | x :: rest => b' ← f b x; foldM f rest b'
  end.

Section Primitives.
Context `{Env}.

Definition getRepoHeadCached (owner repo branch : string) : M string :=
  call (CGetRepoHeadCached owner repo branch) (fun w => repoHead w owner repo branch).

Definition getRepoHead (owner repo branch : string) : M string :=
  call (CGetRepoHead owner repo branch) (fun w => repoHead w owner repo branch).

Definition getLocks (repoUrl branch : string) : M (gmap string Locks.LockEntry) :=
  call (CGetLocks repoUrl branch) (fun w => currentLocks w repoUrl branch).

Definition acquireLocks (input : Locks.AcquireInput) : M Locks.AcquireResult :=
  call (CAcquireLocks input) (fun w => acquire w input).

Definition releaseLocks (repoUrl branch : string) (filePaths : list string) (userId : string)
  : M Locks.ReleaseResult :=
  call (CReleaseLocks repoUrl branch filePaths userId)
       (fun w => release w repoUrl branch filePaths userId).

(** A store command: it fails on a transport fault and otherwise reads
    and updates the store. *)
Definition kv_command {A} (c : Call) (run : Kv.Store -> A * Kv.Store) : M A := fun w =>
  match kvFault w with
  | Some e => (Throw e, logged c w)
  | None => let '(a, s) := run (store w) in (Ret a, logged c (with_store (fun _ => s) w))
  end.

Definition kv_get (key : string) : M (option Kv.KvString) :=
  kv_command (CKvGet key) (fun s => (Kv.strings s !! key, s)).

Definition kv_hgetall (key : string) : M (option (gmap string string)) :=
  kv_command (CKvHgetall key) (fun s => (Kv.hashes s !! key, s)).

Definition now : M Z := fun w => (Ret (clock w), w).

Definition octokit_getTree (owner repo treeSha : string) : M (list Graph.TreeItem) :=
  call (CGetTree owner repo treeSha) (fun w => getTree w owner repo treeSha).

Definition octokit_getContent (owner repo path ref : string) : M Content :=
  call (CGetContent owner repo path ref) (fun w => getContent w owner repo path ref).

Definition callInternalApi (path : string) (body : list (string * JsValue)) (username : string)
  : M (Z * JsValue) :=
  call (CInternalApi path body username) (fun w => internalApi w path body username).

End Primitives.

End Eff.

Import Eff.

(* ===================================================================== *)
(** ** lib/graph-service.ts *)
(* ===================================================================== *)

(** [String.prototype.localeCompare] together with what [Array.prototype.sort]
    requires of a comparator to give a defined result: opposite signs on
    swapped arguments and transitivity. *)
Class Collation : Type := {
  localeCompare : string -> string -> Z;
  localeCompare_swap : forall a b, Z.sgn (localeCompare b a) = (- Z.sgn (localeCompare a b))%Z;
  localeCompare_trans : forall a b c,
    (localeCompare a b <= 0)%Z -> (localeCompare b c <= 0)%Z -> (localeCompare a c <= 0)%Z;
}.

Module GraphService.
Import Graph.

Section WithEnv.
Context `{Env} `{Collation}.

Record Keys : Type := { graph : string; meta : string; fileShas : string }.

Definition getKeys (repoUrl branch : string) : Keys :=
  {| graph := "graph:" +:+ repoUrl +:+ ":" +:+ branch;
     meta := "graph:meta:" +:+ repoUrl +:+ ":" +:+ branch;
     fileShas := "graph:file_shas:" +:+ repoUrl +:+ ":" +:+ branch |}.

Definition with_locks (g : DependencyGraph) (l : gmap string Locks.LockEntry) : DependencyGraph :=
  {| nodes := nodes g; edges := edges g; locks := l;
     version := version g; metadata := metadata g |}.

Definition getCached (repoUrl branch : string) : M (option DependencyGraph) :=
  let keys := getKeys repoUrl branch in
  cached ← kv_get (graph keys);
  match cached with
  | None => mret None
  | Some (Kv.Text _) => mret None
  | Some (Kv.GraphJson g) =>
      try_catch
        (l ← getLocks repoUrl branch; mret (Some (with_locks g l)))
        (fun _ => mret None)
  end.

Definition needsUpdate (owner repo repoUrl branch : string) : M (bool * string) :=
  let keys := getKeys repoUrl branch in
  currentHead ← getRepoHead owner repo branch;
  storedHead ← kv_get (meta keys);
  mret (negb (bool_decide (Kv.text_of storedHead = Some currentHead)), currentHead).

(** [Array.prototype.sort] with a comparator: a stable sort. *)
Fixpoint insert_sorted {A} (cmp : A -> A -> Z) (x : A) (l : list A) : list A :=
  match l with
  | [] => [x]
  | y :: rest => if (cmp x y <=? 0)%Z then x :: l else y :: insert_sorted cmp x rest
  end.

Fixpoint sort {A} (cmp : A -> A -> Z) (l : list A) : list A :=
  match l with
  | [] => []
  | x :: rest => insert_sorted cmp x (sort cmp rest)
  end.

Definition compareNodes (a b : GraphNode) : Z := localeCompare (id a) (id b).

Definition compareEdges (a b : GraphEdge) : Z :=
  let sourceCompare := localeCompare (source a) (source b) in
  if negb (sourceCompare =? 0)%Z then sourceCompare
  else localeCompare (target a) (target b).

Definition supportedExtensions : list string := [".ts"; ".tsx"; ".js"; ".jsx"; ".py"].

Definition treeFiles (tree : list TreeItem) : list RepoFile :=
  omap (fun item =>
          match itemPath item with
          | Some p =>
              if bool_decide (itemType item = "blob")
                 && existsb (fun ext => endsWith p ext) supportedExtensions
              then Some {| path := p; sha := itemSha item; fileSize := itemSize item |}
              else None
          | None => None
          end) tree.

(** [storedShas[path]] is truthy *)
Definition knownSha (storedShas : gmap string string) (p : string) : option string :=
  match storedShas !! p with
  | Some s => if decide (s = "") then None else Some s
  | None => None
  end.

Definition edgeKey (e : GraphEdge) : string := source e +:+ "=>" +:+ target e.

(** The state of the loop over [filesToProcess]. *)
Record Progress : Type := {
  pNodes : list GraphNode;
  pEdges : list GraphEdge;
  edgeSet : gset string;
  processedCount : nat;
}.

Definition addNode (file : RepoFile) (ns : list GraphNode) : list GraphNode :=
  if existsb (fun n => bool_decide (id n = path file)) ns then ns
  else ns ++ [{| id := path file; size := fileSize file; language := getFileLanguage (path file) |}].

Definition addImport (filePath : string) (st : Progress) (resolved : option string) : Progress :=
  match resolved with
  | None => st
  | Some r =>
      if decide (r = "") then st
      else
        let e := {| source := filePath; target := r |} in
        if bool_decide (edgeKey e ∈ edgeSet st) then st
        else {| pNodes := pNodes st; pEdges := pEdges st ++ [e];
                edgeSet := {[ edgeKey e ]} ∪ edgeSet st;
                processedCount := processedCount st |}
  end.

Definition processFile (owner repo currentHead : string) (st : Progress) (file : RepoFile)
  : M Progress :=
  let st := {| pNodes := addNode file (pNodes st); pEdges := pEdges st;
               edgeSet := edgeSet st; processedCount := processedCount st |} in
  try_catch
    (contentData ← octokit_getContent owner repo (path file) currentHead;
     match contentData with
     | NoContent => mret st
     | Imports resolved =>
         match getFileLanguage (path file) with
         | None => mret st
         | Some _ =>
             let st' := fold_left (addImport (path file)) resolved st in
             mret {| pNodes := pNodes st'; pEdges := pEdges st';
                     edgeSet := edgeSet st'; processedCount := S (processedCount st') |}
         end
     end)
    (fun _ => mret st).

(** The commands of the pipeline of [generate], applied by [exec]; a
    transport fault leaves the store as it was. *)
Definition commit (keys : Keys) (g : DependencyGraph) (currentHead : string)
    (deletedFiles : list string) (newShas : gmap string string) (s : Kv.Store) : Kv.Store :=
  let s := Kv.set (graph keys) (Kv.GraphJson g) s in
  let s := Kv.set (meta keys) (Kv.Text currentHead) s in
  let s := match deletedFiles with [] => s | _ => Kv.hdel (fileShas keys) deletedFiles s end in
  if decide (newShas = ∅) then s else Kv.hset (fileShas keys) newShas s.

(** What [generate] decides between the listing of the tree and the loop
    over the files: the diff against the stored SHA map, the nodes and
    edges kept from the existing graph, and the files to process. *)
Record Plan : Type := {
  deletedFiles : list string;
  keptNodes : list GraphNode;
  keptEdges : list GraphEdge;
  filesToProcess : list RepoFile;
}.

(** The diff of the tree against the stored SHA map. *)
Definition newFilesOf (files : list RepoFile) (storedShas : gmap string string) : list RepoFile :=
  List.filter (fun f => negb (bool_decide (is_Some (knownSha storedShas (path f))))) files.

Definition changedFilesOf (files : list RepoFile) (storedShas : gmap string string)
  : list RepoFile :=
  List.filter (fun f => match knownSha storedShas (path f) with
                        | Some s => negb (bool_decide (s = sha f))
                        | None => false
                        end) files.

Definition deletedFilesOf (files : list RepoFile) (storedShas : gmap string string)
  : list string :=
  let allFilePaths : gset string := list_to_set (map path files) in
  List.filter (fun p => negb (bool_decide (p ∈ allFilePaths))) (map fst (map_to_list storedShas)).

(** The nodes and edges taken over from the existing graph, and whether
    there is one: the block under [if (existing)]. *)
Definition existingGraph (existing : option Kv.KvString) (deletedFiles : list string)
    (changedFiles : list RepoFile) : list GraphNode * list GraphEdge * bool :=
  match existing with
  | None | Some (Kv.Text "") => ([], [], false)
  | Some e =>
      let '(ns, es, parsed) :=
        match e with
        | Kv.GraphJson g => (nodes g, edges g, true)
        | Kv.Text _ => ([], [], false)
        end in
      let '(ns, es) :=
        match deletedFiles with
        | [] => (ns, es)
        | _ => (List.filter (fun n => negb (bool_decide (id n ∈ deletedFiles))) ns,
                List.filter (fun e => negb (bool_decide (source e ∈ deletedFiles))
                                      && negb (bool_decide (target e ∈ deletedFiles))) es)
        end in
      let es :=
        match changedFiles with
        | [] => es
        | _ => let changedSet : gset string := list_to_set (map path changedFiles) in
               List.filter (fun e => negb (bool_decide (source e ∈ changedSet))) es
        end in
      (ns, es, parsed)
  end.

Definition plan (files : list RepoFile) (storedShas : gmap string string)
    (existing : option Kv.KvString) : Plan :=
  let newFiles := newFilesOf files storedShas in
  let changedFiles := changedFilesOf files storedShas in
  let deletedFiles := deletedFilesOf files storedShas in
  let '(ns, es, hasExistingGraph) := existingGraph existing deletedFiles changedFiles in
  let incrementalFiles := (newFiles ++ changedFiles)%list in
  let needsFullRebuild :=
    negb hasExistingGraph
    || (negb (length files =? 0)%nat && (length ns =? 0)%nat && (length incrementalFiles =? 0)%nat) in
  let '(ns, es) := if needsFullRebuild then ([], []) else (ns, es) in
  {| deletedFiles := deletedFiles; keptNodes := ns; keptEdges := es;
     filesToProcess := if needsFullRebuild then files else incrementalFiles |}.

(** [newShas]: the SHA of every file of the tree, a later entry of the
    listing overwriting an earlier one on the same path. *)
Definition shasOf (files : list RepoFile) : gmap string string :=
  list_to_map (rev (map (fun f => (path f, sha f)) files)).

(** The graph that is stored and returned at the end of a build. *)
Definition graphOf (st : Progress) (currentHead : string) (generatedAt : Z) : DependencyGraph :=
  let ns := sort compareNodes (pNodes st) in
  let es := sort compareEdges (pEdges st) in
  {| nodes := ns; edges := es; locks := ∅; version := currentHead;
     metadata := {| generated_at := generatedAt;
                    files_processed := processedCount st;
                    edges_found := length es |} |}.

(** [generate] from the listing of the tree on. *)
Definition rebuild (owner repo repoUrl branch currentHead : string) : M DependencyGraph :=
  let keys := getKeys repoUrl branch in
  tree ← octokit_getTree owner repo currentHead;
  let files := treeFiles tree in
  stored ← kv_hgetall (fileShas keys);
  let storedShas := default ∅ stored in
  existing ← kv_get (graph keys);
  let p := plan files storedShas existing in
  st ← foldM (processFile owner repo currentHead) (filesToProcess p)
         {| pNodes := keptNodes p; pEdges := keptEdges p;
            edgeSet := list_to_set (map edgeKey (keptEdges p)); processedCount := 0 |};
  let newShas := shasOf files in
  generatedAt ← now;
  let g := graphOf st currentHead generatedAt in
  _ ← kv_command (CKvPipeline (graph keys) (meta keys) (fileShas keys))
        (fun s => (tt, commit keys g currentHead (deletedFiles p) newShas s));
  l ← getLocks repoUrl branch;
  mret (with_locks g l).

Definition generate (owner repo repoUrl branch : string) (force : bool) : M DependencyGraph :=
  let keys := getKeys repoUrl branch in
  currentHead ← getRepoHead owner repo branch;
  cached ←
    (if force then mret None
     else
       storedHead ← kv_get (meta keys);
       if bool_decide (Kv.text_of storedHead = Some currentHead)
       then getCached repoUrl branch
       else mret None);
  match cached with
  | Some g => mret g
  | None => rebuild owner repo repoUrl branch currentHead
  end.

Definition get (owner repo repoUrl branch : string) (forceRegenerate : bool) : M DependencyGraph :=
  if forceRegenerate then generate owner repo repoUrl branch true
  else
    cached ← getCached repoUrl branch;
    fresh ←
      (match cached with
       | Some g =>
           update ← needsUpdate owner repo repoUrl branch;
           let stale : bool := fst update in
           mret (if stale then None else Some g)
       | None => mret None
       end : M (option DependencyGraph));
    match fresh with
    | Some g => mret g
    | None => generate owner repo repoUrl branch false
    end.

End WithEnv.
End GraphService.

(* ===================================================================== *)
(** ** The request plane *)
(* ===================================================================== *)

(** What the two routes share. *)
Module Route.

Inductive CoordinationStatus : Type := OPEN | READING | WRITING.

(** The helpers of [lib/validation], which the routes import.
    [isNonEmptyString] is a type guard: when it holds, the value is
    narrowed to the string it returns. *)
Class Validation : Type := {
  toBodyRecord : JsValue -> list (string * JsValue);
  getMissingFields : list (string * JsValue) -> list string -> list string;
  isNonEmptyString : JsValue -> option string;
  normalizeFilePaths : JsValue -> option (list string);
  parseCoordinationStatus : JsValue -> option CoordinationStatus;
  isNonEmptyString_narrows : forall v s, isNonEmptyString v = Some s -> v = JString s;
}.

Record Request : Type := {
  headers : gmap string string;
  json : Outcome JsValue;
}.

Inductive Action : Type := PROCEED | PULL | PUSH | WAIT | SWITCH_TASK | STOP.

(** An [orchestration_command]; [metadata] is the pair
    [(remote_head, your_head)]. *)
Record Orchestration : Type := {
  action : Action;
  command : option string;
  reason : string;
  metadata : option (string * string);
}.

(** [isGitHubQuotaError], [getGitHubQuotaErrorMessage] and
    [getGitHubQuotaResetMs] of [lib/github], and [error.message]. *)
Definition quotaError (e : Exn) : option (string * option Z) :=
  match e with
  | GitHubQuotaError m r => Some (m, r)
  | _ => None
  end.

Definition errorDetails (e : Exn) : string :=
  match e with
  | GitHubQuotaError m _ => m
  | JsError m => m
  | NonError => "Unknown error"
  end.

End Route.

(** *** app/api/check_status/route.ts *)
Module CheckStatus.
Import Route.

Inductive LockType : Type := DIRECT | NEIGHBOR.

Definition lockTypeName (t : LockType) : string :=
  match t with DIRECT => "DIRECT" | NEIGHBOR => "NEIGHBOR" end.

Record EnrichedLockEntry : Type := {
  lock : Locks.LockEntry;
  user : string;
  lock_type : LockType;
}.

Inductive Status : Type := OK | STALE | CONFLICT.

Inductive Payload : Type :=
| ErrorPayload (error : string)
| RateLimited (error details : string) (retry_after_ms : option Z)
| InternalError (error details : string)
| StatusPayload (status : Status) (repo_head : string) (locks : Obj EnrichedLockEntry)
                (warnings : list string) (orchestration : Orchestration).

Record Response : Type := { http_status : Z; payload : Payload }.

(** [NextResponse.json(body)] and [NextResponse.json(body, { status })] *)
Definition respond (p : Payload) : Response := {| http_status := 200; payload := p |}.
Definition respond_with (code : Z) (p : Payload) : Response :=
  {| http_status := code; payload := p |}.

Definition enrich (l : Locks.LockEntry) (t : LockType) : EnrichedLockEntry :=
  {| lock := l; user := Locks.user_id l; lock_type := t |}.

Definition requestingUser (request : Request) : string :=
  or_else (headers request !! "x-github-user")
          (or_else (headers request !! "x-github-username") "").

(** The first loop: the locks on the requested files. *)
Definition directLocks (allLocks : gmap string Locks.LockEntry) (filePaths : list string)
  : Obj EnrichedLockEntry :=
  fold_left
    (fun enrichedLocks filePath =>
       match allLocks !! filePath with
       | None => enrichedLocks
       | Some l => obj_set enrichedLocks filePath (enrich l DIRECT)
       end) filePaths [].

(** The loop over the edges of the cached graph. *)
Definition neighborPathsOf (requestedFilePaths : gset string) (edges : list Graph.GraphEdge)
  : list string :=
  fold_left
    (fun neighborPaths edge =>
       let neighborPaths :=
         if bool_decide (Graph.source edge ∈ requestedFilePaths)
            && negb (bool_decide (Graph.target edge ∈ requestedFilePaths))
         then set_add neighborPaths (Graph.target edge) else neighborPaths in
       if bool_decide (Graph.target edge ∈ requestedFilePaths)
          && negb (bool_decide (Graph.source edge ∈ requestedFilePaths))
       then set_add neighborPaths (Graph.source edge) else neighborPaths)
    edges [].

(** The loop over the neighbour paths. *)
Definition neighborLocks (allLocks : gmap string Locks.LockEntry) (neighborPaths : list string)
    (enrichedLocks : Obj EnrichedLockEntry) : Obj EnrichedLockEntry :=
  fold_left
    (fun enrichedLocks neighborPath =>
       match allLocks !! neighborPath with
       | None => enrichedLocks
       | Some l =>
           if bool_decide (is_Some (obj_get enrichedLocks neighborPath)) then enrichedLocks
           else obj_set enrichedLocks neighborPath (enrich l NEIGHBOR)
       end) neighborPaths enrichedLocks.

Definition conflictingLocksOf (requestingUser : string) (enrichedLocks : Obj EnrichedLockEntry)
  : list (string * EnrichedLockEntry) :=
  List.filter (fun e => negb (bool_decide (Locks.user_id (lock (snd e)) = requestingUser)))
              (entries enrichedLocks).

(** [let status = 'OK'; if (isStale) status = 'STALE';
     if (conflictingLocks.length > 0) status = 'CONFLICT';] *)
Definition statusOf (isStale : bool) (conflictingLocks : list (string * EnrichedLockEntry))
  : Status :=
  let status := OK in
  let status := if isStale then STALE else status in
  let status := if negb (length conflictingLocks =? 0)%nat then CONFLICT else status in
  status.

(** The orchestration: [PROCEED], replaced by [PULL] on a stale head and
    else by [SWITCH_TASK] on a conflicting lock. *)
Definition orchestrationOf (isStale : bool) (repoHead : string)
    (conflictingLocks : list (string * EnrichedLockEntry)) : Orchestration :=
  if isStale then
    {| action := PULL; command := Some "git pull --rebase";
       reason := "Your local repo is behind. Current HEAD: " +:+ repoHead;
       metadata := None |}
  else
    match conflictingLocks with
    | (filePath, firstLock) :: _ =>
        {| action := SWITCH_TASK; command := None;
           reason := "File '" +:+ filePath +:+ "' is locked by "
                     +:+ Locks.user_name (lock firstLock)
                     +:+ " (" +:+ lockTypeName (lock_type firstLock) +:+ ")";
           metadata := None |}
    | [] => {| action := PROCEED; command := None; reason := ""; metadata := None |}
    end.

Definition onError (e : Exn) : Response :=
  match quotaError e with
  | Some (details, retryAtMs) =>
      respond_with 429 (RateLimited "GitHub API rate limit exceeded" details retryAtMs)
  | None => respond_with 500 (InternalError "Internal server error" (errorDetails e))
  end.

Section WithEnv.
Context `{Env} `{Validation}.

Definition POST (request : Request) : M Response :=
  try_catch
    (raw ← lift (json request);
     let body := toBodyRecord raw in
     let missing := getMissingFields body ["repo_url"; "branch"; "file_paths"; "agent_head"] in
     if negb (length missing =? 0)%nat
     then mret (respond_with 400 (ErrorPayload "Missing required fields"))
     else
       match isNonEmptyString (get_field body "repo_url"),
             isNonEmptyString (get_field body "branch"),
             isNonEmptyString (get_field body "agent_head"),
             normalizeFilePaths (get_field body "file_paths") with
       | Some repoUrl, Some branch, Some agentHead, Some ((_ :: _) as filePaths) =>
           let requestingUser := requestingUser request in
           '(owner, repo) ← lift (parseRepoUrl repoUrl);
           repoHead ← getRepoHeadCached owner repo branch;
           let isStale := negb (bool_decide (agentHead = repoHead)) in
           allLocks ← getLocks repoUrl branch;
           let requestedFilePaths : gset string := list_to_set filePaths in
           let enrichedLocks := directLocks allLocks filePaths in
           enrichedLocks ←
             try_catch
               (_ ← lift (parseRepoUrl repoUrl);
                cachedGraph ← GraphService.getCached repoUrl branch;
                match cachedGraph with
                | Some g =>
                    let neighborPaths := neighborPathsOf requestedFilePaths (Graph.edges g) in
                    mret (neighborLocks allLocks neighborPaths enrichedLocks)
                | None => mret enrichedLocks
                end)
               (fun _ => mret enrichedLocks);
           let conflictingLocks := conflictingLocksOf requestingUser enrichedLocks in
           let status := statusOf isStale conflictingLocks in
           let orchestration := orchestrationOf isStale repoHead conflictingLocks in
           mret (respond (StatusPayload status repoHead enrichedLocks
                            (if isStale
                             then ["STALE_BRANCH: Your branch is behind origin/" +:+ branch]
                             else [])
                            orchestration))
       | _, _, _, _ => mret (respond_with 400 (ErrorPayload "Missing required fields"))
       end)
    (fun error => mret (onError error)).

End WithEnv.
End CheckStatus.

(** *** app/api/post_status/route.ts *)
Module PostStatus.
Import Route.

(** [{ success, locks?, orphaned_dependencies?, orchestration }] *)
Record Reply : Type := {
  success : bool;
  locks : option (list Locks.LockEntry);
  orphaned_dependencies : option (list string);
  orchestration : Orchestration;
}.

Inductive Payload : Type :=
| ErrorPayload (error : string)
| RateLimited (error details : string) (retry_after_ms : option Z)
| InternalError (error details : string)
| ReplyPayload (r : Reply).

Record Response : Type := { http_status : Z; payload : Payload }.

Definition respond (p : Payload) : Response := {| http_status := 200; payload := p |}.
Definition respond_with (code : Z) (p : Payload) : Response :=
  {| http_status := code; payload := p |}.

Definition userId (request : Request) : string :=
  or_else (headers request !! "x-github-user")
          (or_else (headers request !! "x-github-username") "anonymous").

Definition userName (request : Request) : string :=
  or_else (headers request !! "x-github-username")
          (or_else (headers request !! "x-github-user") "Anonymous").

(** The loop over the edges of the cached graph on release. *)
Definition dependencyPathsOf (releasedPaths : gset string) (edges : list Graph.GraphEdge)
  : list string :=
  fold_left
    (fun dependencyPaths edge =>
       if bool_decide (Graph.target edge ∈ releasedPaths)
          && negb (bool_decide (Graph.source edge ∈ releasedPaths))
       then set_add dependencyPaths (Graph.source edge) else dependencyPaths)
    edges [].

(** A template literal prints an absent value as [undefined]. *)
Definition shown (v : option string) : string := default "undefined" v.

Definition onError (e : Exn) : Response :=
  match quotaError e with
  | Some (details, retryAtMs) =>
      respond_with 429 (RateLimited "GitHub API rate limit exceeded" details retryAtMs)
  | None => respond_with 500 (InternalError "Internal server error" (errorDetails e))
  end.

Section WithEnv.
Context `{Env} `{Validation}.

(** [isNonEmptyString(newRepoHead) && isNonEmptyString(agentHead)
     && newRepoHead === agentHead] *)
Definition pushNeeded (newRepoHead agentHead : JsValue) : bool :=
  match isNonEmptyString newRepoHead, isNonEmptyString agentHead with
  | Some newHead, Some head => bool_decide (newHead = head)
  | _, _ => false
  end.

Definition POST (request : Request) : M Response :=
  try_catch
    (raw ← lift (json request);
     let body := toBodyRecord raw in
     let missing :=
       getMissingFields body ["repo_url"; "branch"; "file_paths"; "status"; "message"] in
     if negb (length missing =? 0)%nat
     then mret (respond_with 400 (ErrorPayload "Missing required fields"))
     else
       let agentHead := get_field body "agent_head" in
       let newRepoHead := get_field body "new_repo_head" in
       match isNonEmptyString (get_field body "repo_url"),
             isNonEmptyString (get_field body "branch"),
             isNonEmptyString (get_field body "message"),
             parseCoordinationStatus (get_field body "status"),
             normalizeFilePaths (get_field body "file_paths") with
       | Some repoUrl, Some branch, Some message, Some status, Some ((_ :: _) as filePaths) =>
           let userId := userId request in
           let userName := userName request in
           '(owner, repo) ← lift (parseRepoUrl repoUrl);
           repoHead ← getRepoHeadCached owner repo branch;
           match status with
           | OPEN =>
               if pushNeeded newRepoHead agentHead then
                 mret (respond_with 400 (ReplyPayload
                   {| success := false; locks := None; orphaned_dependencies := None;
                      orchestration :=
                        {| action := PUSH; command := Some "git push";
                           reason := "You need to push your changes to advance the repo";
                           metadata := None |} |}))
               else
                 _ ← releaseLocks repoUrl branch filePaths userId;
                 orphanedDependencies ←
                   try_catch
                     (_ ← lift (parseRepoUrl repoUrl);
                      cachedGraph ← GraphService.getCached repoUrl branch;
                      match cachedGraph with
                      | Some g =>
                          let releasedPaths : gset string := list_to_set filePaths in
                          mret (dependencyPathsOf releasedPaths (Graph.edges g))
                      | None => mret []
                      end)
                     (fun _ => mret []);
                 mret (respond (ReplyPayload
                   {| success := true; locks := None;
                      orphaned_dependencies := Some orphanedDependencies;
                      orchestration :=
                        {| action := PROCEED; command := None;
                           reason := "Locks released successfully"; metadata := None |} |}))
           | WRITING =>
               match isNonEmptyString agentHead with
               | None => mret (respond_with 400 (ErrorPayload "Missing required fields"))
               | Some agentHead =>
                   if negb (bool_decide (agentHead = repoHead)) then
                     mret (respond (ReplyPayload
                       {| success := false; locks := None; orphaned_dependencies := None;
                          orchestration :=
                            {| action := PULL; command := Some "git pull --rebase";
                               reason := "Your local repo is behind remote";
                               metadata := Some (repoHead, agentHead) |} |}))
                   else
                     lockResult ← acquireLocks
                       {| Locks.repoUrl := repoUrl; Locks.branch := branch;
                          Locks.filePaths := filePaths; Locks.userId := userId;
                          Locks.userName := userName; Locks.lockStatus := Locks.WRITING;
                          Locks.lockMessage := message; Locks.agentHead := agentHead |};
                     match lockResult with
                     | Locks.NotAcquired why conflictingFile conflictingUser =>
                         mret (respond (ReplyPayload
                           {| success := false; locks := None; orphaned_dependencies := None;
                              orchestration :=
                                {| action := SWITCH_TASK; command := None;
                                   reason := why +:+ ": " +:+ shown conflictingFile
                                             +:+ " locked by " +:+ shown conflictingUser;
                                   metadata := None |} |}))
                     | Locks.Acquired acquired =>
                         mret (respond (ReplyPayload
                           {| success := true; locks := Some acquired;
                              orphaned_dependencies := None;
                              orchestration :=
                                {| action := PROCEED; command := None;
                                   reason := "Locks acquired successfully";
                                   metadata := None |} |}))
                     end
               end
           | READING =>
               mret (respond (ReplyPayload
                 {| success := true; locks := None; orphaned_dependencies := None;
                    orchestration :=
                      {| action := PROCEED; command := None;
                         reason := "Reading status recorded"; metadata := None |} |}))
           end
       | _, _, _, _, _ => mret (respond_with 400 (ErrorPayload "Missing required fields"))
       end)
    (fun error => mret (onError error)).

End WithEnv.
End PostStatus.

(* ===================================================================== *)
(** ** app/mcp/route.ts: the tool-call adapter *)
(* ===================================================================== *)

Module Mcp.

Definition DEFAULT_MCP_BRANCH : string := "master".
Definition FALLBACK_MCP_BRANCH : string := "main".
Definition STANDARDIZED_REPO_URL : string := "https://github.com/luljaj/RelayDevFest".

Definition isRecord (value : JsValue) : option (list (string * JsValue)) :=
  match value with
  | JObject fields => Some fields
  | _ => None
  end.

Definition ensureRecord (value : JsValue) : list (string * JsValue) :=
  default [] (isRecord value).

Fixpoint firstMessage (fields : list (string * JsValue)) (keys : list string) : option string :=
  match keys with
  | [] => None
  | key :: rest =>
      match get_field fields key with
      | JString value =>
          if decide (trim value = "") then firstMessage fields rest else Some value
      | _ => firstMessage fields rest
      end
  end.

Definition extractErrorMessage (payload : JsValue) (fallback : string) : string :=
  match isRecord payload with
  | Some fields => default fallback (firstMessage fields ["details"; "error"; "reason"])
  | None => fallback
  end.

Definition shouldRetryOnMissingBranchReference (response : Z * JsValue) : bool :=
  if negb (fst response =? 404)%Z && negb (fst response =? 500)%Z then false
  else
    let details := toLowerCase (extractErrorMessage (snd response) "") in
    includes details "git/refs#get-a-reference"
    || includes details "reference does not exist"
    || includes details "not found".

Definition normalizeUsername (value : JsValue) : string :=
  match value with
  | JString v => let trimmed := trim v in if decide (trimmed = "") then "anonymous" else trimmed
  | _ => "anonymous"
  end.

Definition getStandardizedRepoUrl : string := STANDARDIZED_REPO_URL.

Record BranchResolution : Type := { branch : string; wasProvided : bool }.

Definition resolveBranch (value : JsValue) : BranchResolution :=
  match value with
  | JString v =>
      let trimmed := trim v in
      if decide (trimmed = "")
      then {| branch := DEFAULT_MCP_BRANCH; wasProvided := false |}
      else {| branch := trimmed; wasProvided := true |}
  | _ => {| branch := DEFAULT_MCP_BRANCH; wasProvided := false |}
  end.

Definition orchestrationCommand (action reason : string) : JsValue :=
  JObject [("type", JString "orchestration_command"); ("action", JString action);
           ("command", JNull); ("reason", JString reason)].

Definition offlineStatus (warning action reason : string) : list (string * JsValue) :=
  [("status", JString "OFFLINE"); ("repo_head", JString "unknown"); ("locks", JObject []);
   ("warnings", JArray [JString warning]);
   ("orchestration", orchestrationCommand action reason)].

Definition failure (action reason : string) : list (string * JsValue) :=
  [("success", JBool false); ("orchestration", orchestrationCommand action reason)].

(** What [callCheckStatusTool] makes of the response it ends up with. *)
Definition checkStatusResult (response : Z * JsValue) : list (string * JsValue) :=
  let '(status, payload) := response in
  if (status =? 429)%Z then
    let details := extractErrorMessage payload "Rate limited" in
    offlineStatus "RATE_LIMITED: GitHub API quota exhausted on Vercel" "STOP" details
  else if (status =? 400)%Z then
    let details := extractErrorMessage payload "Validation error" in
    offlineStatus ("REQUEST_REJECTED: " +:+ details) "STOP" ("Validation error: " +:+ details)
  else if (400 <=? status)%Z then
    let details := extractErrorMessage payload ("HTTP " +:+ pretty status) in
    offlineStatus ("HTTP_ERROR: " +:+ details) "STOP"
                  ("check_status failed (" +:+ pretty status +:+ "): " +:+ details)
  else ensureRecord payload.

(** What [callPostStatusTool] makes of the response it ends up with. *)
Definition postStatusResult (response : Z * JsValue) : list (string * JsValue) :=
  let '(status, payload) := response in
  if (status =? 429)%Z then failure "STOP" "Rate limited - retry later"
  else if (status =? 400)%Z then
    match isRecord payload with
    | Some fields =>
        match isRecord (get_field fields "orchestration") with
        | Some _ => ensureRecord payload
        | None =>
            failure "STOP" ("Validation error: " +:+ extractErrorMessage payload "Validation error")
        end
    | None =>
        failure "STOP" ("Validation error: " +:+ extractErrorMessage payload "Validation error")
    end
  else if (status =? 409)%Z then failure "WAIT" "Conflict: File locked by another user"
  else if (400 <=? status)%Z then
    let details := extractErrorMessage payload ("HTTP " +:+ pretty status) in
    failure "STOP" ("post_status failed (" +:+ pretty status +:+ "): " +:+ details)
  else ensureRecord payload.

Definition checkStatusBody (args : list (string * JsValue)) (repoUrl branch : string)
  : list (string * JsValue) :=
  [("file_paths", get_field args "file_paths"); ("agent_head", get_field args "agent_head");
   ("repo_url", JString repoUrl); ("branch", JString branch)].

(** [args.new_repo_head ?? null] *)
Definition orNull (v : JsValue) : JsValue :=
  match v with
  | JUndefined => JNull
  | _ => v
  end.

Definition postStatusBody (args : list (string * JsValue)) (repoUrl branch : string)
  : list (string * JsValue) :=
  [("file_paths", get_field args "file_paths"); ("status", get_field args "status");
   ("message", get_field args "message"); ("agent_head", get_field args "agent_head");
   ("repo_url", JString repoUrl); ("branch", JString branch);
   ("new_repo_head", orNull (get_field args "new_repo_head"))].

Section WithEnv.
Context `{Env}.

Definition callCheckStatusTool (args : list (string * JsValue)) : M (list (string * JsValue)) :=
  let username := normalizeUsername (get_field args "username") in
  let repoUrl := getStandardizedRepoUrl in
  let branchResolution := resolveBranch (get_field args "branch") in
  let branch := branch branchResolution in
  try_catch
    (response ← callInternalApi "/api/check_status" (checkStatusBody args repoUrl branch) username;
     response ←
       (if negb (wasProvided branchResolution)
           && shouldRetryOnMissingBranchReference response
           && negb (bool_decide (branch = FALLBACK_MCP_BRANCH))
        then
          let branch := FALLBACK_MCP_BRANCH in
          callInternalApi "/api/check_status" (checkStatusBody args repoUrl branch) username
        else mret response);
     mret (checkStatusResult response))
    (fun _ => mret (offlineStatus "OFFLINE_MODE: Vercel Unreachable" "SWITCH_TASK" "System Offline")).

Definition callPostStatusTool (args : list (string * JsValue)) : M (list (string * JsValue)) :=
  let username := normalizeUsername (get_field args "username") in
  let repoUrl := getStandardizedRepoUrl in
  let branchResolution := resolveBranch (get_field args "branch") in
  let branch := branch branchResolution in
  try_catch
    (response ← callInternalApi "/api/post_status" (postStatusBody args repoUrl branch) username;
     response ←
       (if negb (wasProvided branchResolution)
           && shouldRetryOnMissingBranchReference response
           && negb (bool_decide (branch = FALLBACK_MCP_BRANCH))
        then
          let branch := FALLBACK_MCP_BRANCH in
          callInternalApi "/api/post_status" (postStatusBody args repoUrl branch) username
        else mret response);
     mret (postStatusResult response))
    (fun _ => mret (failure "STOP" "Vercel Offline - Cannot Acquire Lock")).

End WithEnv.
End Mcp.

(* ===================================================================== *)
(** ** lib/activity.ts *)
(* ===================================================================== *)

Module Activity.
Import Event.

Record PublishActivityInput : Type := {
  repoUrl : string;
  branch : string;
  filePaths : list string;
  userId : string;
  userName : string;
  inputStatus : CoordinationActivityStatus;
  inputMessage : string;
  inputTimestamp : option Z;
}.

(** A JavaScript number as [Number.isFinite] and [Math.floor] see it. *)
Inductive JsNumber : Type :=
| Finite (q : Q)
| NotFinite.

Definition DEFAULT_ACTIVITY_LIMIT : Z := 120.
Definition MAX_ACTIVITY_RETENTION : Z := 500.

Definition statusName (s : CoordinationActivityStatus) : string :=
  match s with OPEN => "OPEN" | READING => "READING" | WRITING => "WRITING" end.

Definition parseActivityEvent (raw : Kv.ListItem) : option CoordinationActivityEvent :=
  match raw with
  | Kv.EventJson e => Some e
  | Kv.Raw _ => None
  end.

(** The event built for [filePath] at position [index] of the input. *)
Definition eventFor (input : PublishActivityInput) (timestamp : Z) (index : nat) (filePath : string)
  : CoordinationActivityEvent :=
  {| id := pretty timestamp +:+ ":" +:+ userId input +:+ ":" +:+ statusName (inputStatus input)
           +:+ ":" +:+ filePath +:+ ":" +:+ pretty index;
     file_path := filePath;
     user_id := userId input;
     user_name := userName input;
     status := inputStatus input;
     message := inputMessage input;
     timestamp := timestamp |}.

Definition safeLimitOf (limit : JsNumber) : Z :=
  match limit with
  | Finite q => Z.max 1 (Qfloor q)
  | NotFinite => DEFAULT_ACTIVITY_LIMIT
  end.

Section WithEnv.
Context `{Env}.

Definition getActivityKey (repoUrl branch : string) : string :=
  let normalizedRepoUrl := normalizeRepoUrl repoUrl in
  let normalizedBranch := or_else (Some (trim branch)) "main" in
  "activity:" +:+ normalizedRepoUrl +:+ ":" +:+ normalizedBranch.

Definition publishActivityEvents (input : PublishActivityInput) : M unit :=
  if (length (filePaths input) =? 0)%nat then mret tt
  else
    let key := getActivityKey (repoUrl input) (branch input) in
    timestamp ← match inputTimestamp input with
                | Some t => mret t
                | None => now
                end;
    if negb (kvHas "lpush") || negb (kvHas "ltrim") then mret tt
    else
      let payloads :=
        imap (fun index filePath => Kv.EventJson (eventFor input timestamp index filePath))
             (filePaths input) in
      _ ← kv_command (CKvLpush key (length payloads)) (fun s => (tt, Kv.lpush key payloads s));
      kv_command (CKvLtrim key 0 (MAX_ACTIVITY_RETENTION - 1))
                 (fun s => (tt, Kv.ltrim key 0 (MAX_ACTIVITY_RETENTION - 1) s)).

(** [limit] is [None] when the caller leaves the parameter out. *)
Definition getRecentActivityEvents (repoUrl branch : string) (limit : option JsNumber)
  : M (list CoordinationActivityEvent) :=
  let limit := default (Finite (inject_Z DEFAULT_ACTIVITY_LIMIT)) limit in
  let key := getActivityKey repoUrl branch in
  if negb (kvHas "lrange") then mret []
  else
    let safeLimit := safeLimitOf limit in
    rawValues ← kv_command (CKvLrange key 0 (safeLimit - 1))
                  (fun s => (Kv.lrange key 0 (safeLimit - 1) s, s));
    let parsed := omap parseActivityEvent rawValues in
    mret (rev parsed).

End WithEnv.
End Activity.

(* ===================================================================== *)
(** ** Vocabulary of the statements *)
(* ===================================================================== *)

(** A concrete setting in which the handlers can be run. *)
Module Sample.

(** A stand-in for [lib/validation]: a field is missing when it is absent
    or [null], file paths are the strings of an array, and the status is
    one of the three names. *)
Definition nonEmptyString (v : JsValue) : option string :=
  match v with
  | JString s => if decide (s = "") then None else Some s
  | _ => None
  end.

Lemma nonEmptyString_narrows v s : nonEmptyString v = Some s -> v = JString s.
Proof.
  destruct v; simpl; try discriminate.
  destruct (decide (s0 = "")); [discriminate | congruence].
Qed.

#[export] Instance validation : Route.Validation := {|
  Route.toBodyRecord := Mcp.ensureRecord;
  Route.getMissingFields body keys :=
    List.filter (fun k => match get_field body k with
                          | JUndefined | JNull => true
                          | _ => false
                          end) keys;
  Route.isNonEmptyString := nonEmptyString;
  Route.normalizeFilePaths v :=
    match v with
    | JArray items => Some (omap nonEmptyString items)
    | _ => None
    end;
  Route.parseCoordinationStatus v :=
    match v with
    | JString "OPEN" => Some Route.OPEN
    | JString "READING" => Some Route.READING
    | JString "WRITING" => Some Route.WRITING
    | _ => None
    end;
  Route.isNonEmptyString_narrows := nonEmptyString_narrows;
|}.

(** Comparison of strings character by character. *)
Definition compareStrings (a b : string) : Z :=
  match String.compare a b with
  | Lt => (-1)%Z
  | Eq => 0%Z
  | Gt => 1%Z
  end.

Lemma compareStrings_swap a b :
  Z.sgn (compareStrings b a) = (- Z.sgn (compareStrings a b))%Z.
Proof.
  unfold compareStrings. rewrite (String.compare_antisym a b).
  destruct (String.compare b a); reflexivity.
Qed.

Lemma compareStrings_trans a b c :
  (compareStrings a b <= 0)%Z -> (compareStrings b c <= 0)%Z -> (compareStrings a c <= 0)%Z.
Proof.
  unfold compareStrings.
  destruct (String.compare a b) eqn:Hab; [| |lia];
    destruct (String.compare b c) eqn:Hbc; try lia; intros _ _.
  - apply String.compare_eq_iff in Hab, Hbc. subst.
    replace (String.compare c c) with Eq; [lia|].
    symmetry. apply OrderedTypeEx.String_as_OT.cmp_eq. reflexivity.
  - apply String.compare_eq_iff in Hab. subst. rewrite Hbc. lia.
  - apply String.compare_eq_iff in Hbc. subst. rewrite Hab. lia.
  - apply OrderedTypeEx.String_as_OT.cmp_lt in Hab, Hbc.
    pose proof (OrderedTypeEx.String_as_OT.lt_trans _ _ _ Hab Hbc) as Hac.
    apply OrderedTypeEx.String_as_OT.cmp_lt in Hac.
    unfold OrderedTypeEx.String_as_OT.cmp in Hac. rewrite Hac. lia.
Qed.

#[export] Instance collation : Collation := {|
  localeCompare := compareStrings;
  localeCompare_swap := compareStrings_swap;
  localeCompare_trans := compareStrings_trans;
|}.

(** The collaborators of a scenario: what the repository host, the lock
    registry and the internal endpoints answer, and when the store fails. *)
Record Scenario : Type := {
  remoteHead : Outcome string;
  heldLocks : Outcome (gmap string Locks.LockEntry);
  acquireAnswer : Outcome Locks.AcquireResult;
  storeFault : World -> option Exn;
  tree : list Graph.TreeItem;
  contentOf : string -> Outcome Content;
  apiAnswer : World -> string -> list (string * JsValue) -> Outcome (Z * JsValue);
}.

Definition language (p : string) : option string :=
  if endsWith p ".py" then Some "python"
  else if existsb (fun ext => endsWith p ext) [".ts"; ".tsx"; ".js"; ".jsx"]
       then Some "typescript" else None.

Definition env (sc : Scenario) : Env := {|
  parseRepoUrl _ := Ret ("test", "repo");
  normalizeRepoUrl u := u;
  repoHead _ _ _ _ := remoteHead sc;
  getTree _ _ _ _ := Ret (tree sc);
  getContent _ _ _ p _ := contentOf sc p;
  getFileLanguage := language;
  currentLocks _ _ _ := heldLocks sc;
  acquire _ _ := acquireAnswer sc;
  release _ _ _ _ _ := Ret {| Locks.success := true |};
  kvHas _ := true;
  kvFault := storeFault sc;
  clock w := Z.of_nat (length (log w));
  internalApi w path body _ := apiAnswer sc w path body;
|}.

Definition quiet : Scenario := {|
  remoteHead := Ret "remote-head";
  heldLocks := Ret ∅;
  acquireAnswer := Ret (Locks.Acquired []);
  storeFault _ := None;
  tree := [];
  contentOf _ := Ret NoContent;
  apiAnswer _ _ _ := Ret (200%Z, JObject []);
|}.

Definition start : World := {| store := Kv.empty; log := [] |}.

Definition lockOf (p u : string) : Locks.LockEntry :=
  {| Locks.file_path := p; Locks.user_id := u; Locks.user_name := u;
     Locks.status := Locks.WRITING; Locks.agent_head := "remote-head";
     Locks.message := "work"; Locks.timestamp := 100; Locks.expiry := 200 |}.

Definition graphOf (es : list (string * string)) : Graph.DependencyGraph :=
  {| Graph.nodes := []; Graph.edges := map (fun e => {| Graph.source := fst e; Graph.target := snd e |}) es;
     Graph.locks := ∅; Graph.version := "v1";
     Graph.metadata := {| Graph.generated_at := 1; Graph.files_processed := 0;
                          Graph.edges_found := length es |} |}.

Definition withGraph (repoUrl branch : string) (g : Graph.DependencyGraph) (w : World) : World :=
  with_store (Kv.set (GraphService.graph (GraphService.getKeys repoUrl branch)) (Kv.GraphJson g)) w.

Definition request (hs : list (string * string)) (body : list (string * JsValue)) : Route.Request :=
  {| Route.headers := list_to_map hs; Route.json := Ret (JObject body) |}.

End Sample.

(** The read of the graph cache by the two routes. *)
Module GraphCacheSpec.

Section WithEnv.
Context `{Env}.

(** The edges of the cached graph, when the read of the cache gives one. *)
Definition cachedEdges (repoUrl branch : string) (w : World) : option (list Graph.GraphEdge) :=
  match fst (GraphService.getCached repoUrl branch w) with
  | Ret (Some g) => Some (Graph.edges g)
  | _ => None
  end.


End WithEnv.

End GraphCacheSpec.

(** What the statements about [check_status] are conditioned on. *)
Module CheckStatusSpec.
Import Route CheckStatus.

Section WithEnv.
Context `{Env} `{Validation}.

(** The request passes validation with the given fields, the repository
    host answers [head] and the lock registry answers [allLocks]; [w'] is
    the world in which the graph cache is then read. *)
Record Served (request : Request) (w : World) (repoUrl branch agentHead : string)
    (filePaths : list string) (head : string) (allLocks : gmap string Locks.LockEntry)
    (w' : World) : Prop := {
  served_body : exists raw,
    json request = Ret raw
    /\ getMissingFields (toBodyRecord raw) ["repo_url"; "branch"; "file_paths"; "agent_head"] = []
    /\ isNonEmptyString (get_field (toBodyRecord raw) "repo_url") = Some repoUrl
    /\ isNonEmptyString (get_field (toBodyRecord raw) "branch") = Some branch
    /\ isNonEmptyString (get_field (toBodyRecord raw) "agent_head") = Some agentHead
    /\ normalizeFilePaths (get_field (toBodyRecord raw) "file_paths") = Some filePaths;
  served_paths : filePaths <> [];
  served_host : exists owner repo,
    parseRepoUrl repoUrl = Ret (owner, repo)
    /\ repoHead w owner repo branch = Ret head
    /\ currentLocks (logged (CGetRepoHeadCached owner repo branch) w) repoUrl branch = Ret allLocks
    /\ w' = logged (CGetLocks repoUrl branch) (logged (CGetRepoHeadCached owner repo branch) w);
}.

End WithEnv.


(** The locks of the response, given the edges the cache gave. *)
Definition returnedLocks (allLocks : gmap string Locks.LockEntry) (filePaths : list string)
    (cached : option (list Graph.GraphEdge)) : Obj EnrichedLockEntry :=
  match cached with
  | Some es =>
      neighborLocks allLocks (neighborPathsOf (list_to_set filePaths) es)
                    (directLocks allLocks filePaths)
  | None => directLocks allLocks filePaths
  end.


End CheckStatusSpec.

(** Scenarios for the routes. *)
Module Scenarios.

Definition repoUrl : string := "https://github.com/a/b".

Definition checkBody (agentHead : string) (paths : list string) : list (string * JsValue) :=
  [("repo_url", JString repoUrl); ("branch", JString "main");
   ("file_paths", JArray (map JString paths)); ("agent_head", JString agentHead)].

(** The locks [(path, holder)] are held; the remote head is [remote-head]. *)
Definition locked (held : list (string * string)) : Sample.Scenario :=
  {| Sample.remoteHead := Ret "remote-head";
     Sample.heldLocks := Ret (list_to_map (map (fun e => (fst e, Sample.lockOf (fst e) (snd e))) held));
     Sample.acquireAnswer := Ret (Locks.Acquired []);
     Sample.storeFault _ := None;
     Sample.tree := [];
     Sample.contentOf _ := Ret NoContent;
     Sample.apiAnswer _ _ _ := Ret (200%Z, JObject []) |}.


(** A stale caller asks for [src/a.ts], which [user-1] holds. *)
Definition staleAndLocked : Route.Request :=
  Sample.request [("x-github-user", "user-2")] (checkBody "local-head" ["src/a.ts"]).

(** A caller that sends no identity header. *)
Definition unnamed : Route.Request :=
  Sample.request [] (checkBody "remote-head" ["src/a.ts"]).

(** A caller asks for [src/a.ts], which imports the locked [src/dep.ts]. *)
Definition withNeighbour : Route.Request :=
  Sample.request [("x-github-user", "agent-user")] (checkBody "remote-head" ["src/a.ts"]).

Definition cachedWorld : World :=
  Sample.withGraph repoUrl "main" (Sample.graphOf [("src/a.ts", "src/dep.ts")]) Sample.start.

Definition postBody (status : string) (paths : list string) (heads : list (string * JsValue))
  : list (string * JsValue) :=
  [("repo_url", JString repoUrl); ("branch", JString "main");
   ("file_paths", JArray (map JString paths)); ("status", JString status);
   ("message", JString "work")] ++ heads.

(** The lock holder is done, but has not pushed: both heads are [abc123]. *)
Definition openUnpushed : Route.Request :=
  Sample.request [("x-github-user", "agent-user")]
    (postBody "OPEN" ["src/auth.ts"]
       [("agent_head", JString "abc123"); ("new_repo_head", JString "abc123")]).

(** The lock holder releases [src/auth.ts]. *)
Definition openAuth : Route.Request :=
  Sample.request [("x-github-user", "agent-user")] (postBody "OPEN" ["src/auth.ts"] []).

Definition authWorld : World :=
  Sample.withGraph repoUrl "main"
    (Sample.graphOf [("src/app.ts", "src/auth.ts"); ("src/auth.ts", "src/util.ts")]) Sample.start.

(** [reader] announces that it reads [src/a.ts]. *)
Definition reading : Route.Request :=
  Sample.request [("x-github-user", "reader")]
    (postBody "READING" ["src/a.ts"] [("agent_head", JString "remote-head")]).

(** [fallback-user], known by its second header only, writes [src/a.ts]. *)
Definition writing : Route.Request :=
  Sample.request [("x-github-username", "fallback-user")]
    (postBody "WRITING" ["src/a.ts"] [("agent_head", JString "remote-head")]).

(** The lock registry refuses every acquisition: [user2] holds [src/a.ts]. *)
Definition contended : Sample.Scenario :=
  {| Sample.remoteHead := Ret "remote-head";
     Sample.heldLocks := Ret {[ "src/a.ts" := Sample.lockOf "src/a.ts" "user2" ]};
     Sample.acquireAnswer :=
       Ret (Locks.NotAcquired "FILE_CONFLICT" (Some "src/a.ts") (Some "user2"));
     Sample.storeFault _ := None;
     Sample.tree := [];
     Sample.contentOf _ := Ret NoContent;
     Sample.apiAnswer _ _ _ := Ret (200%Z, JObject []) |}.

End Scenarios.

(** What the statements about [post_status] are conditioned on. *)
Module PostStatusSpec.
Import Route PostStatus.

Section WithEnv.
Context `{Env} `{Validation}.

(** The request passes validation with the given fields, [agentHead] and
    [newRepoHead] being the values of [agent_head] and [new_repo_head] in
    the body, and the repository host answers [head]; [w'] is the world
    after that answer. *)
Record Served (request : Request) (w : World) (repoUrl branch message : string)
    (status : CoordinationStatus) (filePaths : list string)
    (agentHead newRepoHead : JsValue) (head : string) (w' : World) : Prop := {
  served_body : exists raw,
    json request = Ret raw
    /\ getMissingFields (toBodyRecord raw)
         ["repo_url"; "branch"; "file_paths"; "status"; "message"] = []
    /\ isNonEmptyString (get_field (toBodyRecord raw) "repo_url") = Some repoUrl
    /\ isNonEmptyString (get_field (toBodyRecord raw) "branch") = Some branch
    /\ isNonEmptyString (get_field (toBodyRecord raw) "message") = Some message
    /\ parseCoordinationStatus (get_field (toBodyRecord raw) "status") = Some status
    /\ normalizeFilePaths (get_field (toBodyRecord raw) "file_paths") = Some filePaths
    /\ get_field (toBodyRecord raw) "agent_head" = agentHead
    /\ get_field (toBodyRecord raw) "new_repo_head" = newRepoHead;
  served_paths : filePaths <> [];
  served_host : exists owner repo,
    parseRepoUrl repoUrl = Ret (owner, repo)
    /\ repoHead w owner repo branch = Ret head
    /\ w' = logged (CGetRepoHeadCached owner repo branch) w;
}.

End WithEnv.

(** The reply of a release. *)
Definition released (orphaned : list string) : Reply :=
  {| success := true; locks := None; orphaned_dependencies := Some orphaned;
     orchestration := {| action := PROCEED; command := None;
                         reason := "Locks released successfully"; metadata := None |} |}.

(** The reply that asks for a push. *)
Definition pushFirst : Reply :=
  {| success := false; locks := None; orphaned_dependencies := None;
     orchestration := {| action := PUSH; command := Some "git push";
                         reason := "You need to push your changes to advance the repo";
                         metadata := None |} |}.

(** A call to [releaseLocks]. *)
Definition isRelease (c : Call) : Prop :=
  match c with
  | CReleaseLocks _ _ _ _ => True
  | _ => False
  end.

End PostStatusSpec.

(** How a header is seen by [a || b]: present with a non-empty value, or
    not. *)
Module Header.

Definition present (h : option string) (s : string) : Prop := h = Some s /\ s <> "".

Definition absent (h : option string) : Prop := h = None \/ h = Some "".

End Header.

(** Vocabulary and scenarios for the tool-call adapter. *)
Module McpSpec.
Import Mcp.

(** The internal call of a tool for the arguments [args] on [branch]. *)
Definition checkCall (args : list (string * JsValue)) (branch : string) : Call :=
  CInternalApi "/api/check_status" (checkStatusBody args STANDARDIZED_REPO_URL branch)
               (normalizeUsername (get_field args "username")).

Definition postCall (args : list (string * JsValue)) (branch : string) : Call :=
  CInternalApi "/api/post_status" (postStatusBody args STANDARDIZED_REPO_URL branch)
               (normalizeUsername (get_field args "username")).

(** The answer of the internal endpoint to such a call in world [w]. *)
Definition checkAnswer `{Env} (args : list (string * JsValue)) (branch : string) (w : World)
  : Outcome (Z * JsValue) :=
  internalApi w "/api/check_status" (checkStatusBody args STANDARDIZED_REPO_URL branch)
              (normalizeUsername (get_field args "username")).

Definition postAnswer `{Env} (args : list (string * JsValue)) (branch : string) (w : World)
  : Outcome (Z * JsValue) :=
  internalApi w "/api/post_status" (postStatusBody args STANDARDIZED_REPO_URL branch)
              (normalizeUsername (get_field args "username")).


Definition checkOffline : list (string * JsValue) :=
  offlineStatus "OFFLINE_MODE: Vercel Unreachable" "SWITCH_TASK" "System Offline".

Definition postOffline : list (string * JsValue) :=
  failure "STOP" "Vercel Offline - Cannot Acquire Lock".

(** What a tool returns on the last answer it got. *)
Definition outcomeOf (resultOf : Z * JsValue -> list (string * JsValue))
    (offline : list (string * JsValue)) (answer : Outcome (Z * JsValue))
  : Outcome (list (string * JsValue)) :=
  match answer with
  | Ret response => Ret (resultOf response)
  | Throw _ => Ret offline
  end.

(** The repository has no [master] branch: the internal endpoints fail on
    it the way they do when the host finds no such reference, and answer
    on [main]. *)
Definition missingMaster : Sample.Scenario :=
  {| Sample.remoteHead := Ret "def456";
     Sample.heldLocks := Ret ∅;
     Sample.acquireAnswer := Ret (Locks.Acquired []);
     Sample.storeFault _ := None;
     Sample.tree := [];
     Sample.contentOf _ := Ret NoContent;
     Sample.apiAnswer _ _ body :=
       match get_field body "branch" with
       | JString "master" =>
           Ret (500%Z, JObject
                  [("error", JString "Internal server error");
                   ("details", JString "Not Found - https://docs.github.com/rest/git/refs#get-a-reference")])
       | _ => Ret (200%Z, JObject [("status", JString "OK"); ("repo_head", JString "def456")])
       end |}.

Definition toolArgs : list (string * JsValue) :=
  [("username", JString "luka"); ("file_paths", JArray [JString "README.md"]);
   ("agent_head", JString "def456"); ("repo_url", JString "https://github.com/lukauljaj/DevFest")].

End McpSpec.

(** Vocabulary and scenarios for the activity log. *)
Module ActivitySpec.
Import Event Activity.

(** The timestamp of the events of a publication in world [w]. *)
Definition timestampOf `{Env} (input : PublishActivityInput) (w : World) : Z :=
  default (clock w) (inputTimestamp input).

(** The serialised events of a publication, in the order of the paths. *)
Definition payloadsOf (input : PublishActivityInput) (timestamp : Z) : list Kv.ListItem :=
  imap (fun index filePath => Kv.EventJson (eventFor input timestamp index filePath))
       (filePaths input).

(** The number of items a read with [limit] asks of the store. *)
Definition askedFor (limit : option JsNumber) : nat :=
  Z.to_nat (safeLimitOf (default (Finite (inject_Z DEFAULT_ACTIVITY_LIMIT)) limit)).

(** [agent-user] starts to write two files. *)
Definition twoFiles : PublishActivityInput :=
  {| repoUrl := "https://github.com/a/b"; branch := "main";
     filePaths := ["src/a.ts"; "src/b.ts"];
     userId := "agent-user"; userName := "Agent User";
     inputStatus := WRITING; inputMessage := "editing"; inputTimestamp := Some 12345%Z |}.

End ActivitySpec.

(** Vocabulary and scenarios for the graph builder. *)
Module GraphSpec.
Import Graph GraphService.

Section WithCollation.
Context `{Collation}.

(** Sorted by [id]; sorted by [source], then [target]. *)
Definition nodesSorted (ns : list GraphNode) : Prop :=
  StronglySorted (fun a b => (compareNodes a b <= 0)%Z) ns.

Definition edgesSorted (es : list GraphEdge) : Prop :=
  StronglySorted (fun a b => (compareEdges a b <= 0)%Z) es.

(** The store holds, for the namespace, the graph [g] of a build on
    commit [c] of a repository whose tree lists [tree]. *)
Record Built (repoUrl branch c : string) (tree : list TreeItem) (s : Kv.Store)
    (g : DependencyGraph) : Prop := {
  built_version : version g = c;
  built_nodes : nodesSorted (nodes g);
  built_edges : edgesSorted (edges g);
  built_count : edges_found (metadata g) = length (edges g);
  built_shas : Kv.hash_at (fileShas (getKeys repoUrl branch)) s = shasOf (treeFiles tree);
  built_nonempty : treeFiles tree <> [] -> nodes g <> [];
}.

(** The invariant of the store: when it records a build on commit [c],
    the graph it holds, if it parses, is the graph of such a build. *)
Definition Coherent (repoUrl branch c : string) (tree : list TreeItem) (s : Kv.Store) : Prop :=
  forall g,
    Kv.text_of (Kv.strings s !! meta (getKeys repoUrl branch)) = Some c ->
    Kv.strings s !! graph (getKeys repoUrl branch) = Some (Kv.GraphJson g) ->
    Built repoUrl branch c tree s g.

End WithCollation.

(** The files of a tree have distinct paths and non-empty SHAs. *)
Definition WellFormed (tree : list TreeItem) : Prop :=
  NoDup (map path (treeFiles tree)) /\ forall f, f ∈ treeFiles tree -> sha f <> "".

(** Equal up to [metadata.generated_at] and [metadata.files_processed]. *)
Definition sameGraph (g1 g2 : DependencyGraph) : Prop :=
  nodes g1 = nodes g2 /\ edges g1 = edges g2 /\ locks g1 = locks g2
  /\ version g1 = version g2
  /\ edges_found (metadata g1) = edges_found (metadata g2).

(** The repository host and the store answer: the head of the branch is
    [c], the tree of [c] lists [tree], and the locks are [l]. *)
Record Steady `{Env} (owner repo repoUrl branch c : string) (tree : list TreeItem)
    (l : gmap string Locks.LockEntry) : Prop := {
  steady_store : forall w, kvFault w = None;
  steady_head : forall w, repoHead w owner repo branch = Ret c;
  steady_tree : forall w, getTree w owner repo c = Ret tree;
  steady_locks : forall w, currentLocks w repoUrl branch = Ret l;
}.

(** A repository of two files, the first importing the second. *)
Definition twoFiles : Sample.Scenario :=
  {| Sample.remoteHead := Ret "c1";
     Sample.heldLocks := Ret ∅;
     Sample.acquireAnswer := Ret (Locks.Acquired []);
     Sample.storeFault _ := None;
     Sample.tree :=
       [ {| itemType := "blob"; itemPath := Some "src/b.ts"; itemSha := "sha-b"; itemSize := Some 10%Z |};
         {| itemType := "blob"; itemPath := Some "src/a.ts"; itemSha := "sha-a"; itemSize := Some 20%Z |};
         {| itemType := "tree"; itemPath := Some "src"; itemSha := "sha-src"; itemSize := None |};
         {| itemType := "blob"; itemPath := Some "README.md"; itemSha := "sha-r"; itemSize := Some 5%Z |} ];
     Sample.contentOf p :=
       if decide (p = "src/a.ts") then Ret (Imports [Some "src/b.ts"; None; Some "src/b.ts"])
       else Ret (Imports []);
     Sample.apiAnswer _ _ _ := Ret (200%Z, JObject []) |}.

End GraphSpec.

(** What the statements about every request to [check_status] use. *)
Module CheckStatusAnswers.
Import Route CheckStatus.

(** The body passes none of the two validations of the route. *)
Definition Rejected `{Validation} (raw : JsValue) : Prop :=
  let body := toBodyRecord raw in
  getMissingFields body ["repo_url"; "branch"; "file_paths"; "agent_head"] <> []
  \/ isNonEmptyString (get_field body "repo_url") = None
  \/ isNonEmptyString (get_field body "branch") = None
  \/ isNonEmptyString (get_field body "agent_head") = None
  \/ normalizeFilePaths (get_field body "file_paths") = None
  \/ normalizeFilePaths (get_field body "file_paths") = Some [].

(** A call that reads: the head of the branch, the locks, a stored value. *)
Definition isRead (c : Call) : Prop :=
  match c with
  | CGetRepoHeadCached _ _ _ | CGetLocks _ _ | CKvGet _ => True
  | _ => False
  end.

(** The status code goes with the shape of the payload. *)
Definition wellFormed (r : Response) : Prop :=
  match payload r with
  | StatusPayload _ _ _ _ _ => http_status r = 200%Z
  | ErrorPayload e => http_status r = 400%Z /\ e = "Missing required fields"
  | RateLimited e _ _ => http_status r = 429%Z /\ e = "GitHub API rate limit exceeded"
  | InternalError e _ => http_status r = 500%Z /\ e = "Internal server error"
  end.

End CheckStatusAnswers.

(** What the statements about every request to [post_status] use. *)
Module PostStatusAnswers.
Import Route PostStatus.

(** The body passes none of the two validations of the route. *)
Definition Rejected `{Validation} (raw : JsValue) : Prop :=
  let body := toBodyRecord raw in
  getMissingFields body ["repo_url"; "branch"; "file_paths"; "status"; "message"] <> []
  \/ isNonEmptyString (get_field body "repo_url") = None
  \/ isNonEmptyString (get_field body "branch") = None
  \/ isNonEmptyString (get_field body "message") = None
  \/ parseCoordinationStatus (get_field body "status") = None
  \/ normalizeFilePaths (get_field body "file_paths") = None
  \/ normalizeFilePaths (get_field body "file_paths") = Some [].

(** The status code goes with the shape of the payload: a reply is sent
    with 200, but for the request to push, which is sent with 400. *)
Definition wellFormed (r : Response) : Prop :=
  match payload r with
  | ReplyPayload reply =>
      match action (orchestration reply) with
      | PUSH => http_status r = 400%Z /\ success reply = false
      | _ => http_status r = 200%Z
      end
  | ErrorPayload e => http_status r = 400%Z /\ e = "Missing required fields"
  | RateLimited e _ _ => http_status r = 429%Z /\ e = "GitHub API rate limit exceeded"
  | InternalError e _ => http_status r = 500%Z /\ e = "Internal server error"
  end.

(** The input of the acquisition made for a [WRITING] request. *)
Definition acquisition (request : Request) (repoUrl branch message : string)
    (filePaths : list string) (head : string) : Locks.AcquireInput :=
  {| Locks.repoUrl := repoUrl; Locks.branch := branch; Locks.filePaths := filePaths;
     Locks.userId := userId request; Locks.userName := userName request;
     Locks.lockStatus := Locks.WRITING; Locks.lockMessage := message;
     Locks.agentHead := head |}.

(** A reply without locks and orphans. *)
Definition verdict (ok : bool) (o : Orchestration) : Reply :=
  {| success := ok; locks := None; orphaned_dependencies := None; orchestration := o |}.

End PostStatusAnswers.

(** Vocabulary for the loop of the graph builder. *)
Module BuilderSpec.
Import Graph GraphService.

(** The node that the loop of [generate] makes for a file. *)
Definition nodeOf `{Env} (f : RepoFile) : GraphNode :=
  {| id := path f; size := fileSize f; language := getFileLanguage (path f) |}.

(** The set of keys mirrors the edges, which have distinct keys. *)
Definition EdgesIndexed (st : Progress) : Prop :=
  NoDup (map edgeKey (pEdges st))
  /\ forall k, k ∈ edgeSet st <-> k ∈ map edgeKey (pEdges st).

(** No graph can be read from the store under the key of the namespace. *)
Definition NoGraph (repoUrl branch : string) (s : Kv.Store) : Prop :=
  forall g, Kv.strings s !! graph (getKeys repoUrl branch) <> Some (Kv.GraphJson g).

End BuilderSpec.

(** Texts without a colon, as decimal numerals are. *)
Module Numeral.

Definition colon : ascii := ascii_of_nat 58.

Fixpoint colonFree (s : string) : Prop :=
  match s with
  | EmptyString => True
  | String c rest => c <> colon /\ colonFree rest
  end.

End Numeral.

(* ===================================================================== *)
(** ** app/mcp/route.ts: the JSON-RPC endpoint *)
(* ===================================================================== *)

(** [JSON.stringify], which is applied to records only, and [JSON.parse],
    which gives no value on a text that is no JSON. *)
Class Json : Type := {
  stringify : JsValue -> string;
  parse : string -> option JsValue;
}.

Module McpRoute.
Import Mcp.

Definition quote : string := String (ascii_of_nat 34) "".
Definition newline : string := String (ascii_of_nat 10) "".

Definition MCP_PROTOCOL_VERSION : string := "2024-11-05".

Definition MCP_SERVER_INFO : JsValue :=
  JObject [("name", JString "relay-mcp"); ("version", JString "1.0.0")].

Definition MCP_CAPABILITIES : JsValue :=
  JObject [("experimental", JObject []);
           ("logging", JObject []);
           ("prompts", JObject [("listChanged", JBool false)]);
           ("resources", JObject [("subscribe", JBool true); ("listChanged", JBool false)]);
           ("tools", JObject [("listChanged", JBool false)]);
           ("completions", JObject [])].

Definition usernameSchema : JsValue :=
  JObject [("type", JString "string");
           ("description", JString
              ("Stable agent identity used for lock attribution. Choose once as " +:+ quote
               +:+ "(model)-(random word)-(agent owner github username)" +:+ quote
               +:+ " (e.g., " +:+ quote +:+ "gpt5-orchid-lukauljaj" +:+ quote
               +:+ ") and keep it unchanged across calls."));
           ("pattern", JString "^[a-z0-9]+-[a-z0-9]+-[a-z0-9-]+$")].

Definition stringSchema (description : string) : JsValue :=
  JObject [("type", JString "string"); ("description", JString description)].

Definition filePathsSchema (description : string) : JsValue :=
  JObject [("type", JString "array");
           ("items", JObject [("type", JString "string")]);
           ("description", JString description)].

Definition branchSchema : JsValue :=
  JObject [("type", JString "string");
           ("description", JString ("Git branch name (default: " +:+ quote +:+ DEFAULT_MCP_BRANCH
                                    +:+ quote +:+ ")"));
           ("default", JString DEFAULT_MCP_BRANCH)].

Definition outputSchema : JsValue :=
  JObject [("type", JString "object"); ("additionalProperties", JBool true)].

Definition TOOL_DEFINITIONS : list JsValue :=
  [ JObject
      [("name", JString "check_status");
       ("description",
        JString "Check status of files before editing. Returns orchestration commands.");
       ("inputSchema", JObject
          [("type", JString "object");
           ("additionalProperties", JBool false);
           ("required", JArray [JString "username"; JString "file_paths";
                                JString "agent_head"; JString "repo_url"]);
           ("properties", JObject
              [("username", usernameSchema);
               ("file_paths",
                filePathsSchema
                  ("List of file paths (e.g., [" +:+ quote +:+ "src/auth.ts" +:+ quote +:+ ", "
                   +:+ quote +:+ "src/db.ts" +:+ quote +:+ "])"));
               ("agent_head", stringSchema "Current git HEAD SHA");
               ("repo_url", stringSchema "Repository URL");
               ("branch", branchSchema)])]);
       ("outputSchema", outputSchema)];
    JObject
      [("name", JString "post_status");
       ("description",
        JString "Update lock status for files. Supports atomic multi-file locking.");
       ("inputSchema", JObject
          [("type", JString "object");
           ("additionalProperties", JBool false);
           ("required", JArray [JString "username"; JString "file_paths"; JString "status";
                                JString "message"; JString "agent_head"; JString "repo_url"]);
           ("properties", JObject
              [("username", usernameSchema);
               ("file_paths",
                filePathsSchema
                  ("List of file paths (e.g., [" +:+ quote +:+ "src/auth.ts" +:+ quote +:+ "])"));
               ("status",
                stringSchema ("Lock status - " +:+ quote +:+ "READING" +:+ quote +:+ ", "
                              +:+ quote +:+ "WRITING" +:+ quote +:+ ", or "
                              +:+ quote +:+ "OPEN" +:+ quote));
               ("message", stringSchema "Context message about what you're doing");
               ("agent_head", stringSchema "Current git HEAD SHA");
               ("repo_url", stringSchema "Repository URL");
               ("branch", branchSchema);
               ("new_repo_head", JObject
                  [("anyOf", JArray [JObject [("type", JString "string")];
                                     JObject [("type", JString "null")]]);
                   ("description", JString "New HEAD SHA after push (required for OPEN status)");
                   ("default", JNull)])])]);
       ("outputSchema", outputSchema)] ].

(** The payload of the response of an internal endpoint, read from its
    text. *)
Definition readResponsePayload `{Json} (text : string) : JsValue :=
  if decide (text = "") then JObject []
  else match parse text with
       | Some value => value
       | None => JObject [("error", JString text)]
       end.

Inductive Body : Type :=
| NoBody
| JsonBody (v : JsValue)
| TextBody (s : string).

(** A response: its status, the headers that the handler sets, its body. *)
Record Response : Type := {
  http_status : Z;
  responseHeaders : list (string * string);
  body : Body;
}.

Definition eventStream : list (string * string) :=
  [("Content-Type", "text/event-stream");
   ("Cache-Control", "no-cache, no-transform");
   ("Connection", "keep-alive")].

(** The 406 of the two handlers. *)
Definition notAcceptable (message : string) : Response :=
  {| http_status := 406; responseHeaders := [];
     body := JsonBody (JObject
       [("jsonrpc", JString "2.0"); ("id", JString "server-error");
        ("error", JObject [("code", JNumber (-32600)); ("message", JString message)])]) |}.

Definition GET (request : Route.Request) : Response :=
  let accept := or_else (Route.headers request !! "accept") "" in
  if negb (includes accept "text/event-stream")
  then notAcceptable "Not Acceptable: Client must accept text/event-stream"
  else {| http_status := 200; responseHeaders := eventStream;
          body := TextBody (":" +:+ newline +:+ newline) |}.

Definition makeJsonRpcResult (id result : JsValue) : JsValue :=
  JObject [("jsonrpc", JString "2.0"); ("id", id); ("result", result)].

Definition makeJsonRpcError (id : JsValue) (code : Z) (message : string) (data : JsValue)
  : JsValue :=
  JObject [("jsonrpc", JString "2.0"); ("id", id);
           ("error", JObject ([("code", JNumber code); ("message", JString message)]
                              ++ match data with
                                 | JUndefined => []
                                 | _ => [("data", data)]
                                 end))].

Definition makeToolErrorResult (message : string) : JsValue :=
  JObject [("content", JArray [JObject [("type", JString "text"); ("text", JString message)]]);
           ("isError", JBool true)].

Definition safeParseJson (request : Route.Request) : JsValue :=
  match Route.json request with
  | Ret v => v
  | Throw _ => JNull
  end.

Definition parseJsonRpcId (id : JsValue) : JsValue :=
  match id with
  | JString _ | JNumber _ | JNull => id
  | _ => JNull
  end.

(** [v === s] for a string literal [s] *)
Definition strictEq (v : JsValue) (s : string) : bool :=
  match v with
  | JString x => bool_decide (x = s)
  | _ => false
  end.

(** [key in args], for a key that is not a property of every object *)
Definition has_key (args : list (string * JsValue)) (key : string) : bool :=
  bool_decide (key ∈ map fst args).

Fixpoint missingRequiredArg (args : list (string * JsValue)) (required : list string)
  : option string :=
  match required with
  | [] => None
  | key :: rest => if negb (has_key args key) then Some key else missingRequiredArg args rest
  end.

Section WithJson.
Context `{Json}.

Definition sseJsonRpcResponse (payload : JsValue) : Response :=
  {| http_status := 200; responseHeaders := eventStream;
     body := TextBody ("event: message" +:+ newline +:+ "data: " +:+ stringify payload
                       +:+ newline +:+ newline) |}.

Definition makeToolSuccessResult (content : JsValue) : JsValue :=
  JObject [("content", JArray [JObject [("type", JString "text");
                                        ("text", JString (stringify content))]]);
           ("structuredContent", content);
           ("isError", JBool false)].

Section WithEnv.
Context `{Env}.

Definition POST (request : Route.Request) : M Response :=
  let accept := or_else (Route.headers request !! "accept") "" in
  if negb (includes accept "application/json") || negb (includes accept "text/event-stream")
  then mret (notAcceptable
               "Not Acceptable: Client must accept both application/json and text/event-stream")
  else
    let payload := safeParseJson request in
    let invalid (id : JsValue) :=
      sseJsonRpcResponse (makeJsonRpcError id (-32600) "Invalid request parameters" (JString "")) in
    match isRecord payload with
    | None => mret (invalid JNull)
    | Some payload =>
        if negb (strictEq (get_field payload "jsonrpc") "2.0") then mret (invalid JNull)
        else
          match get_field payload "method" with
          | JString method =>
              let id := parseJsonRpcId (get_field payload "id") in
              let params := default [] (isRecord (get_field payload "params")) in
              if startsWith method "notifications/"
              then mret {| http_status := 202; responseHeaders := []; body := NoBody |}
              else if decide (method = "ping")
              then mret (sseJsonRpcResponse (makeJsonRpcResult id (JObject [])))
              else if decide (method = "initialize")
              then mret (sseJsonRpcResponse (makeJsonRpcResult id (JObject
                     [("protocolVersion", JString MCP_PROTOCOL_VERSION);
                      ("capabilities", MCP_CAPABILITIES);
                      ("serverInfo", MCP_SERVER_INFO)])))
              else if decide (method = "tools/list")
              then mret (sseJsonRpcResponse (makeJsonRpcResult id (JObject
                     [("tools", JArray TOOL_DEFINITIONS)])))
              else if decide (method = "tools/call")
              then
                let name := match get_field params "name" with
                            | JString s => s
                            | _ => ""
                            end in
                let args := default [] (isRecord (get_field params "arguments")) in
                if decide (name = "")
                then mret (sseJsonRpcResponse (makeJsonRpcResult id (makeToolErrorResult
                       ("Missing required parameter " +:+ quote +:+ "name" +:+ quote
                        +:+ " for tools/call"))))
                else if decide (name = "check_status")
                then
                  match missingRequiredArg args
                          ["username"; "file_paths"; "agent_head"; "repo_url"] with
                  | Some missing =>
                      mret (sseJsonRpcResponse (makeJsonRpcResult id (makeToolErrorResult
                        ("Missing required argument '" +:+ missing
                         +:+ "' for tool 'check_status'"))))
                  | None =>
                      result ← callCheckStatusTool args;
                      mret (sseJsonRpcResponse
                              (makeJsonRpcResult id (makeToolSuccessResult (JObject result))))
                  end
                else if decide (name = "post_status")
                then
                  match missingRequiredArg args
                          ["username"; "file_paths"; "status"; "message"; "agent_head";
                           "repo_url"] with
                  | Some missing =>
                      mret (sseJsonRpcResponse (makeJsonRpcResult id (makeToolErrorResult
                        ("Missing required argument '" +:+ missing
                         +:+ "' for tool 'post_status'"))))
                  | None =>
                      result ← callPostStatusTool args;
                      mret (sseJsonRpcResponse
                              (makeJsonRpcResult id (makeToolSuccessResult (JObject result))))
                  end
                else mret (sseJsonRpcResponse (makeJsonRpcResult id (makeToolErrorResult
                       ("Tool " +:+ quote +:+ name +:+ quote +:+ " is not available"))))
              else mret (invalid id)
          | _ => mret (invalid JNull)
          end
    end.

End WithEnv.
End WithJson.

End McpRoute.

(** Vocabulary for the JSON-RPC endpoint. *)
Module McpRouteSpec.
Import Mcp McpRoute.

(** The [Accept] header names both media types. *)
Definition acceptable (request : Route.Request) : bool :=
  let accept := or_else (Route.headers request !! "accept") "" in
  includes accept "application/json" && includes accept "text/event-stream".

(** The request is a JSON-RPC 2.0 call of [method], which is not a
    notification, with the parameters [params]; its identifier is read as
    [id]. *)
Definition Rpc (request : Route.Request) (id : JsValue) (method : string)
    (params : list (string * JsValue)) : Prop :=
  acceptable request = true
  /\ exists payload,
       Route.json request = Ret (JObject payload)
       /\ get_field payload "jsonrpc" = JString "2.0"
       /\ get_field payload "method" = JString method
       /\ startsWith method "notifications/" = false
       /\ parseJsonRpcId (get_field payload "id") = id
       /\ default [] (isRecord (get_field payload "params")) = params.

(** The request is a [tools/call] of the tool [name] with [args]. *)
Definition ToolCall (request : Route.Request) (id : JsValue) (name : string)
    (args : list (string * JsValue)) : Prop :=
  exists params,
    Rpc request id "tools/call" params
    /\ match get_field params "name" with
       | JString s => s
       | _ => ""
       end = name
    /\ default [] (isRecord (get_field params "arguments")) = args.

Definition strings_of (v : JsValue) : list string :=
  match v with
  | JArray items => omap (fun item => match item with JString s => Some s | _ => None end) items
  | _ => []
  end.

(** The arguments that [tools/list] advertises as required for a tool. *)
Definition advertisedRequired (name : string) : option (list string) :=
  match List.filter (fun tool => match get_field (ensureRecord tool) "name" with
                                 | JString n => bool_decide (n = name)
                                 | _ => false
                                 end) TOOL_DEFINITIONS with
  | tool :: _ =>
      Some (strings_of (get_field (ensureRecord (get_field (ensureRecord tool) "inputSchema"))
                                  "required"))
  | [] => None
  end.

(** The tool behind a name. *)
Definition toolOf `{Env} (name : string) : option (list (string * JsValue) -> M (list (string * JsValue))) :=
  if decide (name = "check_status") then Some callCheckStatusTool
  else if decide (name = "post_status") then Some callPostStatusTool
  else None.

(** A call of an internal endpoint as the tools make it for [args]: in
    the name of the normalised user, on the standard repository and a
    branch without surrounding white space, the other fields being those
    of [args]. *)
Definition Forwarded (path : string) (args : list (string * JsValue)) (c : Call) : Prop :=
  exists body branch,
    c = CInternalApi path body (normalizeUsername (get_field args "username"))
    /\ get_field body "repo_url" = JString STANDARDIZED_REPO_URL
    /\ get_field body "branch" = JString branch
    /\ branch <> "" /\ trim branch = branch
    /\ get_field body "file_paths" = get_field args "file_paths"
    /\ get_field body "agent_head" = get_field args "agent_head"
    /\ (path = "/api/post_status" ->
        get_field body "status" = get_field args "status"
        /\ get_field body "message" = get_field args "message"
        /\ get_field body "new_repo_head" = orNull (get_field args "new_repo_head")).

(** The [orchestration_command] of a degraded result. *)
Definition stops (result : list (string * JsValue)) (actions : list string) : Prop :=
  exists action reason,
    get_field result "orchestration" = orchestrationCommand action reason
    /\ action ∈ actions.

(** An endpoint that was reached with [args] answered [response]. *)
Definition Answered `{Env} (path : string) (response : Z * JsValue) : Prop :=
  exists w body username, internalApi w path body username = Ret response.

End McpRouteSpec.

(* ===================================================================== *)
(** ** lib/activity.ts: events as JSON values *)
(* ===================================================================== *)

Module ActivityEvents.
Import Event Activity.

(** The object that [publishActivityEvents] serialises for an event. *)
Definition eventJson (e : CoordinationActivityEvent) : JsValue :=
  JObject [("id", JString (id e));
           ("file_path", JString (file_path e));
           ("user_id", JString (user_id e));
           ("user_name", JString (user_name e));
           ("status", JString (statusName (status e)));
           ("message", JString (message e));
           ("timestamp", JNumber (timestamp e))].

Definition statusOfName (name : string) : option CoordinationActivityStatus :=
  if decide (name = "OPEN") then Some OPEN
  else if decide (name = "READING") then Some READING
  else if decide (name = "WRITING") then Some WRITING
  else None.

(** [parseActivityEvent] on an item as the store returns it: a text,
    which is parsed first, or a value. The event that is returned has
    the seven fields of the candidate. *)
Definition parseActivityEvent `{Json} (raw : JsValue) : option CoordinationActivityEvent :=
  let parsed := match raw with
                | JString text => parse text
                | _ => Some raw
                end in
  match parsed with
  | Some (JObject candidate) =>
      match get_field candidate "id", get_field candidate "file_path",
            get_field candidate "user_id", get_field candidate "user_name",
            get_field candidate "status", get_field candidate "message",
            get_field candidate "timestamp" with
      | JString id, JString file_path, JString user_id, JString user_name,
        JString status, JString message, JNumber timestamp =>
          match statusOfName status with
          | Some status =>
              Some {| id := id; file_path := file_path; user_id := user_id;
                      user_name := user_name; status := status; message := message;
                      timestamp := timestamp |}
          | None => None
          end
      | _, _, _, _, _, _, _ => None
      end
  | _ => None
  end.

End ActivityEvents.

(* ===================================================================== *)
(** ** Clearing the activity log and the locks *)
(* ===================================================================== *)

(** [releaseAllLocks] of [lib/locks]. *)
Module LocksAdmin.

Record ReleaseAllResult : Type := { success : bool; released : Z }.

End LocksAdmin.

(** The collaborators of the clearing: the lock registry, and the
    transport fault, if any, of the [llen] and of the [del] command of the
    store in a given world. These commands leave no record in the log. *)
Class AdminEnv : Type := {
  releaseAll : World -> string -> string -> Outcome LocksAdmin.ReleaseAllResult;
  llenFault : World -> option Exn;
  delFault : World -> option Exn;
}.

(** [clearActivityEvents] of [lib/activity.ts]. *)
Module ActivityAdmin.
Import Activity.

Record ClearResult : Type := { success : bool; cleared : Z }.

(** [DEL key]: the key goes, whatever it holds. *)
Definition del (key : string) (s : Kv.Store) : Kv.Store :=
  {| Kv.strings := delete key (Kv.strings s);
     Kv.hashes := delete key (Kv.hashes s);
     Kv.lists := delete key (Kv.lists s) |}.

(** [LLEN key] *)
Definition llen (key : string) (s : Kv.Store) : Z := Z.of_nat (length (Kv.list_at key s)).

Definition admin_command {A} (fault : World -> option Exn) (run : Kv.Store -> A * Kv.Store)
  : M A := fun w =>
  match fault w with
  | Some e => (Throw e, w)
  | None => let '(a, s) := run (store w) in (Ret a, with_store (fun _ => s) w)
  end.

Section WithEnv.
Context `{Env} `{AdminEnv}.

Definition clearActivityEvents (repoUrl branch : string) : M ClearResult :=
  let key := getActivityKey repoUrl branch in
  try_catch
    (cleared ←
       (if kvHas "llen"
        then admin_command llenFault (fun s => (llen key s, s))
        else mret 0%Z);
     _ ← admin_command delFault (fun s => (tt, del key s));
     mret {| success := true; cleared := cleared |})
    (fun _ => mret {| success := false; cleared := 0 |}).

End WithEnv.
End ActivityAdmin.

(** *** app/api/clear_agent_and_feed/route.ts *)
Module ClearAgentAndFeed.
Import Route.

Inductive Payload : Type :=
| ErrorPayload (error : string)
| ClearFailed (error : string) (locks_cleared feed_cleared : bool)
| InternalError (error details : string)
| Cleared (released cleared : Z) (repo_url branch : string).

Record Response : Type := { http_status : Z; payload : Payload }.

Definition respond (p : Payload) : Response := {| http_status := 200; payload := p |}.
Definition respond_with (code : Z) (p : Payload) : Response :=
  {| http_status := code; payload := p |}.

(** [Promise.all([a, b])] of two calls that touch different state: both
    run, and the rejection of the first, if any, is the one reported. *)
Definition all {A B} (a : M A) (b : M B) : M (A * B) := fun w =>
  let '(x, w1) := a w in
  let '(y, w2) := b w1 in
  (match x, y with
   | Ret x, Ret y => Ret (x, y)
   | Throw e, _ => Throw e
   | _, Throw e => Throw e
   end, w2).

Section WithEnv.
Context `{Env} `{AdminEnv} `{Validation}.

Definition releaseAllLocks (repoUrl branch : string) : M LocksAdmin.ReleaseAllResult :=
  fun w => (releaseAll w repoUrl branch, w).

Definition POST (request : Request) : M Response :=
  try_catch
    (raw ← lift (json request);
     let body := toBodyRecord raw in
     let missing := getMissingFields body ["repo_url"; "branch"] in
     if negb (length missing =? 0)%nat
     then mret (respond_with 400 (ErrorPayload "Missing required fields"))
     else
       match isNonEmptyString (get_field body "repo_url"),
             isNonEmptyString (get_field body "branch") with
       | Some repoUrl, Some branch =>
           let normalizedRepoUrl := normalizeRepoUrl repoUrl in
           let normalizedBranch := or_else (Some (trim branch)) "main" in
           results ← all (releaseAllLocks normalizedRepoUrl normalizedBranch)
                         (ActivityAdmin.clearActivityEvents normalizedRepoUrl normalizedBranch);
           let '(locksResult, activityResult) := results in
           if negb (LocksAdmin.success locksResult) || negb (ActivityAdmin.success activityResult)
           then mret (respond_with 500
                        (ClearFailed "Failed to clear agent tab and live feed"
                           (LocksAdmin.success locksResult)
                           (ActivityAdmin.success activityResult)))
           else mret (respond (Cleared (LocksAdmin.released locksResult)
                                       (ActivityAdmin.cleared activityResult)
                                       normalizedRepoUrl normalizedBranch))
       | _, _ => mret (respond_with 400 (ErrorPayload "Missing required fields"))
       end)
    (fun error => mret (respond_with 500 (InternalError "Internal server error"
                                            (errorDetails error)))).

End WithEnv.
End ClearAgentAndFeed.

(** Vocabulary for the clearing of the activity log. *)
Module ActivityAdminSpec.
Import ActivityAdmin.

(** A command of the store fails. *)
Definition fails (fault : option Exn) : bool :=
  match fault with
  | Some _ => true
  | None => false
  end.

(** The clearing of [key] fails in world [w]: at [llen], if the client
    has it, or at [del]. *)
Definition faulty `{Env} `{AdminEnv} (w : World) : bool :=
  (kvHas "llen" && fails (llenFault w)) || fails (delFault w).

(** The length that a successful clearing of [key] reports. *)
Definition counted `{Env} (key : string) (w : World) : Z :=
  if kvHas "llen" then llen key (store w) else 0%Z.

End ActivityAdminSpec.

(** Vocabulary for the clearing route. *)
Module ClearAgentAndFeedSpec.
Import Route ClearAgentAndFeed.

(** The request names a repository and a branch. *)
Definition Accepted `{Validation} (request : Request) (repoUrl branch : string) : Prop :=
  exists raw,
    json request = Ret raw
    /\ getMissingFields (toBodyRecord raw) ["repo_url"; "branch"] = []
    /\ isNonEmptyString (get_field (toBodyRecord raw) "repo_url") = Some repoUrl
    /\ isNonEmptyString (get_field (toBodyRecord raw) "branch") = Some branch.

End ClearAgentAndFeedSpec.

(** Further scenarios, for the routes, the builder and the endpoint. *)
Module MoreScenarios.

(** A request without a body worth the name. *)
Definition emptyBody : Route.Request := Sample.request [] [].

(** [writer], whose head is behind, wants to write [src/a.ts]. *)
Definition staleWriting : Route.Request :=
  Sample.request [("x-github-user", "writer")]
    (Scenarios.postBody "WRITING" ["src/a.ts"] [("agent_head", JString "local-head")]).

(** [writer] wants to write [src/a.ts] and does not say where it stands. *)
Definition blindWriting : Route.Request :=
  Sample.request [("x-github-user", "writer")] (Scenarios.postBody "WRITING" ["src/a.ts"] []).

(** The collaborators of [sc], with a lock registry that reports every
    release as failed. *)
Definition refusingRelease (sc : Sample.Scenario) : Env := {|
  parseRepoUrl := @parseRepoUrl (Sample.env sc);
  normalizeRepoUrl := @normalizeRepoUrl (Sample.env sc);
  repoHead := @repoHead (Sample.env sc);
  getTree := @getTree (Sample.env sc);
  getContent := @getContent (Sample.env sc);
  getFileLanguage := @getFileLanguage (Sample.env sc);
  currentLocks := @currentLocks (Sample.env sc);
  acquire := @acquire (Sample.env sc);
  release _ _ _ _ _ := Ret {| Locks.success := false |};
  kvHas := @kvHas (Sample.env sc);
  kvFault := @kvFault (Sample.env sc);
  clock := @clock (Sample.env sc);
  internalApi := @internalApi (Sample.env sc);
|}.

(** The collaborators of [sc], with a store client without list commands. *)
Definition withoutLists (sc : Sample.Scenario) : Env := {|
  parseRepoUrl := @parseRepoUrl (Sample.env sc);
  normalizeRepoUrl := @normalizeRepoUrl (Sample.env sc);
  repoHead := @repoHead (Sample.env sc);
  getTree := @getTree (Sample.env sc);
  getContent := @getContent (Sample.env sc);
  getFileLanguage := @getFileLanguage (Sample.env sc);
  currentLocks := @currentLocks (Sample.env sc);
  acquire := @acquire (Sample.env sc);
  release := @release (Sample.env sc);
  kvHas _ := false;
  kvFault := @kvFault (Sample.env sc);
  clock := @clock (Sample.env sc);
  internalApi := @internalApi (Sample.env sc);
|}.

(** The repository of [GraphSpec.twoFiles] on a later commit, in which
    [src/b.ts] is gone and [src/a.ts] imports nothing. *)
Definition oneFile : Sample.Scenario :=
  {| Sample.remoteHead := Ret "c2";
     Sample.heldLocks := Ret ∅;
     Sample.acquireAnswer := Ret (Locks.Acquired []);
     Sample.storeFault _ := None;
     Sample.tree :=
       [ {| Graph.itemType := "blob"; Graph.itemPath := Some "src/a.ts";
            Graph.itemSha := "sha-a2"; Graph.itemSize := Some 12%Z |} ];
     Sample.contentOf _ := Ret (Imports []);
     Sample.apiAnswer _ _ _ := Ret (200%Z, JObject []) |}.

(** The repository of [GraphSpec.twoFiles] while the lock registry is
    down, and while the host serves no file content. *)
Definition locksDown : Sample.Scenario :=
  {| Sample.remoteHead := Ret "c1";
     Sample.heldLocks := Throw (JsError "locks unavailable");
     Sample.acquireAnswer := Ret (Locks.Acquired []);
     Sample.storeFault _ := None;
     Sample.tree := Sample.tree GraphSpec.twoFiles;
     Sample.contentOf := Sample.contentOf GraphSpec.twoFiles;
     Sample.apiAnswer _ _ _ := Ret (200%Z, JObject []) |}.

Definition contentDown : Sample.Scenario :=
  {| Sample.remoteHead := Ret "c1";
     Sample.heldLocks := Ret ∅;
     Sample.acquireAnswer := Ret (Locks.Acquired []);
     Sample.storeFault _ := None;
     Sample.tree := Sample.tree GraphSpec.twoFiles;
     Sample.contentOf _ := Throw (JsError "Not Found");
     Sample.apiAnswer _ _ _ := Ret (200%Z, JObject []) |}.

(** The world after a first build of [GraphSpec.twoFiles]. *)
Definition builtWorld : World :=
  snd (@GraphService.generate (Sample.env GraphSpec.twoFiles) Sample.collation
         "test" "repo" "https://github.com/a/b" "main" false Sample.start).

(** A serialiser for values whose strings need no escaping. *)
Fixpoint serialise (v : JsValue) : string :=
  match v with
  | JUndefined => "undefined"
  | JNull => "null"
  | JBool true => "true"
  | JBool false => "false"
  | JNumber n => pretty n
  | JString s => McpRoute.quote +:+ s +:+ McpRoute.quote
  | JArray items =>
      "[" +:+ (fix elements (l : list JsValue) : string :=
                 match l with
                 | [] => ""
                 | [x] => serialise x
                 | x :: rest => serialise x +:+ "," +:+ elements rest
                 end) items +:+ "]"
  | JObject fields =>
      "{" +:+ (fix members (l : list (string * JsValue)) : string :=
                 match l with
                 | [] => ""
                 | [(k, x)] => McpRoute.quote +:+ k +:+ McpRoute.quote +:+ ":" +:+ serialise x
                 | (k, x) :: rest =>
                     McpRoute.quote +:+ k +:+ McpRoute.quote +:+ ":" +:+ serialise x +:+ ","
                     +:+ members rest
                 end) fields +:+ "}"
  end.

(** The serialiser, with a reader that takes no text for JSON. *)
#[export] Instance json : Json := {| stringify := serialise; parse _ := None |}.

(** A JSON-RPC request that accepts both media types. *)
Definition rpc (payload : list (string * JsValue)) : Route.Request :=
  Sample.request [("accept", "application/json, text/event-stream")] payload.

Definition toolsCall (id : Z) (name : string) (args : list (string * JsValue))
  : Route.Request :=
  rpc [("jsonrpc", JString "2.0"); ("id", JNumber id); ("method", JString "tools/call");
       ("params", JObject [("name", JString name); ("arguments", JObject args)])].

(** The internal endpoints answer a conflict. *)
Definition conflicting : Sample.Scenario :=
  {| Sample.remoteHead := Ret "def456";
     Sample.heldLocks := Ret ∅;
     Sample.acquireAnswer := Ret (Locks.Acquired []);
     Sample.storeFault _ := None;
     Sample.tree := [];
     Sample.contentOf _ := Ret NoContent;
     Sample.apiAnswer _ _ _ := Ret (409%Z, JObject [("error", JString "locked")]) |}.

(** A lock registry that clears [n] locks, and a store that answers. *)
Definition admin (ok : bool) (n : Z) : AdminEnv := {|
  releaseAll _ _ _ := Ret {| LocksAdmin.success := ok; LocksAdmin.released := n |};
  llenFault _ := None;
  delFault _ := None;
|}.

Definition clearBody (branch : string) : Route.Request :=
  Sample.request [] [("repo_url", JString Scenarios.repoUrl); ("branch", JString branch)].

(** The world after [ActivitySpec.twoFiles] has been published. *)
Definition publishedWorld : World :=
  snd (@Activity.publishActivityEvents (Sample.env Sample.quiet) ActivitySpec.twoFiles
         Sample.start).

End MoreScenarios.

(* ===================================================================== *)
(** * Properties *)
(* ===================================================================== *)

(** ** Objects used as dictionaries *)


Lemma obj_get_In {V} (o : Obj V) (k : string) (v : V) :
  obj_get o k = Some v -> In (k, v) o.
Proof.
  induction o as [|[k0 v0] o IH]; simpl; [discriminate|].
  destruct (decide (k0 = k)) as [->|Hne]; intros Hg.
  - left. congruence.
  - right. auto.
Qed.

Lemma insert_index_In {V} (n : N) (e : string * V) (l : list (N * (string * V))) x :
  In x (map snd (insert_index n e l)) <-> x = e \/ In x (map snd l).
Proof.
  induction l as [|[m e'] l IH]; simpl.
  - intuition.
  - destruct (n <? m)%N; simpl; [intuition | rewrite IH; intuition].
Qed.

Lemma indexed_entries_In {V} (o : Obj V) (e : string * V) :
  In e (map snd (indexed_entries o)) <-> In e o /\ array_index (fst e) <> None.
Proof.
  induction o as [|e0 o IH].
  - simpl. tauto.
  - change (indexed_entries (e0 :: o))
      with (match array_index (fst e0) with
            | Some n => insert_index n e0 (indexed_entries o)
            | None => indexed_entries o
            end).
    simpl. destruct (array_index (fst e0)) as [n|] eqn:Hidx.
    + rewrite insert_index_In, IH. split.
      * intros [->|[Hin Hne]]; [split; [auto | congruence] | auto].
      * intros [[->|Hin] Hne]; auto.
    + rewrite IH. split.
      * intros [Hin Hne]. auto.
      * intros [[->|Hin] Hne]; [congruence | auto].
Qed.

(** [Object.entries] lists every property once, whatever the order. *)
Lemma entries_In {V} (o : Obj V) (e : string * V) : In e (entries o) <-> In e o.
Proof.
  unfold entries. rewrite in_app_iff, indexed_entries_In, filter_In.
  destruct (array_index (fst e)); intuition congruence.
Qed.

(** ** The loops of [check_status] *)

Section CheckStatusLoops.
Import Route CheckStatus GraphCacheSpec CheckStatusSpec.
Variable allLocks : gmap string Locks.LockEntry.




End CheckStatusLoops.

Lemma set_add_elem (s : list string) (x y : string) :
  y ∈ set_add s x <-> y ∈ s \/ y = x.
Proof.
  unfold set_add. destruct (bool_decide (x ∈ s)) eqn:Hd.
  - apply bool_decide_eq_true in Hd. split; [auto | intros [?| ->]; auto].
  - rewrite elem_of_app, list_elem_of_singleton. tauto.
Qed.

Lemma set_add_NoDup (s : list string) (x : string) : NoDup s -> NoDup (set_add s x).
Proof.
  intros Hs. unfold set_add. destruct (bool_decide (x ∈ s)) eqn:Hd; [assumption|].
  apply bool_decide_eq_false in Hd. apply NoDup_app. repeat split; [assumption| |].
  - intros y Hy Hy'. apply list_elem_of_singleton in Hy'. congruence.
  - apply NoDup_singleton.
Qed.




(** ** check_status *)

Section CheckStatusFacts.
Import Route CheckStatus GraphCacheSpec CheckStatusSpec.
Context `{Env} `{Validation}.

(** The response to a served request. *)
Lemma check_status_served request w repoUrl branch agentHead filePaths head allLocks w' :
  Served request w repoUrl branch agentHead filePaths head allLocks w' ->
  let isStale := negb (bool_decide (agentHead = head)) in
  let locks := returnedLocks allLocks filePaths (cachedEdges repoUrl branch w') in
  let conflictingLocks := conflictingLocksOf (requestingUser request) locks in
  fst (POST request w)
  = Ret (respond (StatusPayload (statusOf isStale conflictingLocks) head locks
                    (if isStale
                     then ["STALE_BRANCH: Your branch is behind origin/" +:+ branch]
                     else [])
                    (orchestrationOf isStale head conflictingLocks))).
Proof.
  intros [(raw & Hjson & Hmiss & Hrepo & Hbranch & Hhead & Hpaths) Hne
          (owner & repo & Hparse & Hrh & Hlocks & ->)].
  unfold POST, try_catch, mbind, M_bind, lift. rewrite Hjson. cbv beta iota zeta.
  rewrite Hmiss. change (negb (length (@nil string) =? 0)%nat) with false. cbv beta iota zeta.
  rewrite Hrepo, Hbranch, Hhead, Hpaths.
  destruct filePaths as [|f fs]; [congruence|].
  rewrite Hparse. unfold getRepoHeadCached, getLocks, call. cbv beta iota zeta.
  rewrite Hrh. cbv beta iota zeta. rewrite Hlocks. cbv beta iota zeta.
  unfold returnedLocks, cachedEdges.
  destruct (GraphService.getCached repoUrl branch _) as [[[g|]|e] w2]; reflexivity.
Qed.

End CheckStatusFacts.

Lemma obj_set_keys {V} (o : Obj V) (k : string) (v : V) :
  map fst (obj_set o k v)
  = if decide (k ∈ map fst o) then map fst o else (map fst o ++ [k])%list.
Proof.
  induction o as [|[k0 v0] o IH]; simpl.
  - destruct (decide (k ∈ [])) as [Hin|]; [inversion Hin | reflexivity].
  - destruct (decide (k0 = k)) as [->|Hne]; simpl.
    + destruct (decide (k ∈ k :: map fst o)) as [|Hn]; [reflexivity|].
      exfalso. apply Hn. apply list_elem_of_here.
    + rewrite IH. destruct (decide (k ∈ map fst o)) as [Hin|Hnin].
      * destruct (decide (k ∈ k0 :: map fst o)) as [|Hn]; [reflexivity|].
        exfalso. apply Hn. now apply list_elem_of_further.
      * destruct (decide (k ∈ k0 :: map fst o)) as [Hin|]; [|reflexivity].
        apply elem_of_cons in Hin as [->|Hin]; [congruence | contradiction].
Qed.

Lemma obj_set_NoDup {V} (o : Obj V) (k : string) (v : V) :
  NoDup (map fst o) -> NoDup (map fst (obj_set o k v)).
Proof.
  intros Hnd. rewrite obj_set_keys. destruct (decide (k ∈ map fst o)); [assumption|].
  apply NoDup_app. repeat split; [assumption| |apply NoDup_singleton].
  intros y Hy Hy'. apply list_elem_of_singleton in Hy'. congruence.
Qed.

Lemma NoDup_obj_get {V} (o : Obj V) (k : string) (v : V) :
  NoDup (map fst o) -> In (k, v) o -> obj_get o k = Some v.
Proof.
  induction o as [|[k0 v0] o IH]; simpl; [tauto|].
  intros Hnd [Heq|Hin].
  - inversion Heq; subst. destruct (decide (k = k)); [reflexivity | congruence].
  - apply NoDup_cons in Hnd as [Hk0 Hnd].
    destruct (decide (k0 = k)) as [->|Hne]; [|auto].
    exfalso. apply Hk0. apply list_elem_of_In. apply in_map_iff. exists (k, v). auto.
Qed.

Lemma fold_obj_NoDup {V A} (step : Obj V -> A -> Obj V) (l : list A) (acc : Obj V) :
  (forall o a, NoDup (map fst o) -> NoDup (map fst (step o a))) ->
  NoDup (map fst acc) -> NoDup (map fst (fold_left step l acc)).
Proof.
  intros Hstep. revert acc. induction l as [|a l IH]; intros acc Hacc; simpl; auto.
Qed.

Lemma returnedLocks_NoDup allLocks filePaths cached :
  NoDup (map fst (CheckStatusSpec.returnedLocks allLocks filePaths cached)).
Proof.
  assert (Hd : NoDup (map fst (CheckStatus.directLocks allLocks filePaths))).
  { unfold CheckStatus.directLocks. apply fold_obj_NoDup; [|apply NoDup_nil_2].
    intros o a Ho. destruct (allLocks !! a); [now apply obj_set_NoDup | assumption]. }
  unfold CheckStatusSpec.returnedLocks. destruct cached as [es|]; [|assumption].
  unfold CheckStatus.neighborLocks. apply fold_obj_NoDup; [|assumption].
  intros o a Ho. destruct (allLocks !! a); [|assumption].
  destruct (bool_decide _); [assumption | now apply obj_set_NoDup].
Qed.

(** There is a conflicting lock exactly when a returned lock is held by
    someone other than the caller. *)
Lemma conflictingLocks_empty allLocks filePaths cached (caller : string) :
  CheckStatus.conflictingLocksOf caller (CheckStatusSpec.returnedLocks allLocks filePaths cached) = []
  <-> forall p l,
        obj_get (CheckStatusSpec.returnedLocks allLocks filePaths cached) p = Some l ->
        Locks.user_id (CheckStatus.lock l) = caller.
Proof.
  unfold CheckStatus.conflictingLocksOf. split.
  - intros Hnil p l Hget.
    destruct (decide (Locks.user_id (CheckStatus.lock l) = caller)) as [|Hne]; [assumption|].
    assert (Hin : In (p, l) (List.filter
      (fun e => negb (bool_decide (Locks.user_id (CheckStatus.lock (snd e)) = caller)))
      (entries (CheckStatusSpec.returnedLocks allLocks filePaths cached)))).
    { apply filter_In. split; [apply entries_In; now apply obj_get_In|].
      simpl. now rewrite bool_decide_eq_false_2. }
    rewrite Hnil in Hin. inversion Hin.
  - intros Hall.
    destruct (List.filter _ _) as [|[p l] rest] eqn:Hf; [reflexivity|].
    assert (Hin : In (p, l) (List.filter
      (fun e => negb (bool_decide (Locks.user_id (CheckStatus.lock (snd e)) = caller)))
      (entries (CheckStatusSpec.returnedLocks allLocks filePaths cached)))).
    { rewrite Hf. now left. }
    apply filter_In in Hin as [Hin Hc]. apply (proj1 (entries_In _ _)) in Hin.
    apply NoDup_obj_get in Hin; [|apply returnedLocks_NoDup].
    apply Hall in Hin. simpl in Hc. rewrite bool_decide_eq_true_2 in Hc; [discriminate | assumption].
Qed.

(** Discharges [Served] on a concrete request by running the checks. *)
Ltac serve :=
  econstructor;
  [ eexists; repeat split; reflexivity
  | discriminate
  | do 2 eexists; repeat split; reflexivity ].

Section CheckStatusClaims.
Import Route CheckStatus GraphCacheSpec CheckStatusSpec.
Context `{Env} `{Validation}.

(** C1 (as amended): when a served [check_status] request has an
    [agent_head] different from the remote head, the response is a 200
    whose orchestration action is [PULL] whatever the locks are; its
    top-level status is [STALE] when every returned lock belongs to the
    caller, and [CONFLICT] when some returned lock belongs to someone
    else: the precedence of the status field is CONFLICT over STALE. *)
Theorem check_status_stale_verdict
    request w repoUrl branch agentHead filePaths head allLocks w' :
  Served request w repoUrl branch agentHead filePaths head allLocks w' ->
  agentHead <> head ->
  exists status locks warnings orchestration,
    fst (POST request w)
    = Ret {| http_status := 200;
             payload := StatusPayload status head locks warnings orchestration |}
    /\ action orchestration = PULL
    /\ ((forall p l, obj_get locks p = Some l ->
                     Locks.user_id (lock l) = requestingUser request) ->
        status = STALE)
    /\ ((exists p l, obj_get locks p = Some l
                     /\ Locks.user_id (lock l) <> requestingUser request) ->
        status = CONFLICT).
Proof.
  intros Hs Hstale. apply check_status_served in Hs. cbv zeta in Hs.
  rewrite bool_decide_eq_false_2 in Hs by assumption. simpl negb in Hs.
  do 4 eexists. split; [exact Hs|]. split; [reflexivity|]. split.
  - intros Hown. apply conflictingLocks_empty in Hown. rewrite Hown. reflexivity.
  - intros (p & l & Hget & Hother). unfold statusOf.
    destruct (conflictingLocksOf _ _) eqn:Hc; [|reflexivity].
    exfalso. apply Hother. exact (proj1 (conflictingLocks_empty _ _ _ _) Hc p l Hget).
Qed.


End CheckStatusClaims.

(** C1, the claim as stated fails: a stale caller that asks for a file
    held by someone else gets the status [CONFLICT], not [STALE] (with
    the action [PULL]). *)
Lemma check_status_stale_conflict :
  exists locks warnings orchestration,
    fst (@CheckStatus.POST (Sample.env (Scenarios.locked [("src/a.ts", "user-1")]))
           Sample.validation Scenarios.staleAndLocked Sample.start)
    = Ret {| CheckStatus.http_status := 200;
             CheckStatus.payload :=
               CheckStatus.StatusPayload CheckStatus.CONFLICT "remote-head"
                 locks warnings orchestration |}
    /\ "local-head" <> "remote-head"
    /\ CheckStatus.CONFLICT <> CheckStatus.STALE
    /\ Route.action orchestration = Route.PULL.
Proof.
  do 3 eexists. split; [vm_compute; reflexivity|].
  repeat split; discriminate.
Qed.

Lemma check_status_stale_verdict_witness :
  exists status locks warnings orchestration,
    fst (@CheckStatus.POST (Sample.env (Scenarios.locked [("src/a.ts", "user-1")]))
           Sample.validation Scenarios.staleAndLocked Sample.start)
    = Ret {| CheckStatus.http_status := 200;
             CheckStatus.payload :=
               CheckStatus.StatusPayload status "remote-head" locks warnings orchestration |}
    /\ Route.action orchestration = Route.PULL
    /\ ((forall p l, obj_get locks p = Some l ->
                     Locks.user_id (CheckStatus.lock l)
                     = CheckStatus.requestingUser Scenarios.staleAndLocked) ->
        status = CheckStatus.STALE)
    /\ ((exists p l, obj_get locks p = Some l
                     /\ Locks.user_id (CheckStatus.lock l)
                        <> CheckStatus.requestingUser Scenarios.staleAndLocked) ->
        status = CheckStatus.CONFLICT).
Proof.
  eapply (check_status_stale_verdict (H := Sample.env (Scenarios.locked [("src/a.ts", "user-1")])))
    with (agentHead := "local-head"); [serve | discriminate].
Defined.

(** ** post_status *)

Section PostStatusFacts.
Import Route PostStatus GraphCacheSpec PostStatusSpec.
Context `{Env} `{Validation}.

Ltac enter_post Hs filePaths :=
  destruct Hs as [(raw & Hjson & Hmiss & Hrepo & Hbranch & Hmsg & Hstatus & Hpaths & Hagent & Hnew)
                  Hne (owner & repo & Hparse & Hrh & ->)];
  unfold POST, try_catch, mbind, M_bind, lift; rewrite Hjson; cbv beta iota zeta;
  rewrite Hmiss; change (negb (length (@nil string) =? 0)%nat) with false; cbv beta iota zeta;
  rewrite Hrepo, Hbranch, Hmsg, Hstatus, Hpaths; rewrite ?Hagent, ?Hnew;
  destruct filePaths as [|f fs]; [congruence|];
  rewrite Hparse; unfold getRepoHeadCached, call; cbv beta iota zeta;
  rewrite Hrh; cbv beta iota zeta.

(** An [OPEN] request on an unchanged head is answered at once. *)
Lemma post_status_open_push
    request w repoUrl branch message filePaths agentHead newRepoHead head w' :
  Served request w repoUrl branch message OPEN filePaths agentHead newRepoHead head w' ->
  pushNeeded newRepoHead agentHead = true ->
  POST request w = (Ret (respond_with 400 (ReplyPayload pushFirst)), w').
Proof.
  intros Hs Hpush. enter_post Hs filePaths. rewrite Hpush. reflexivity.
Qed.

(** Any other [OPEN] request releases and then looks for orphans. *)
Lemma post_status_open_release
    request w repoUrl branch message filePaths agentHead newRepoHead head w' r :
  Served request w repoUrl branch message OPEN filePaths agentHead newRepoHead head w' ->
  pushNeeded newRepoHead agentHead = false ->
  release w' repoUrl branch filePaths (userId request) = Ret r ->
  fst (POST request w)
  = Ret (respond (ReplyPayload (released
      match cachedEdges repoUrl branch
              (logged (CReleaseLocks repoUrl branch filePaths (userId request)) w') with
      | Some es => dependencyPathsOf (list_to_set filePaths) es
      | None => []
      end))).
Proof.
  intros Hs Hpush Hrel. enter_post Hs filePaths. rewrite Hpush.
  unfold releaseLocks, call. cbv beta iota zeta. rewrite Hrel. cbv beta iota zeta.
  unfold cachedEdges.
  destruct (GraphService.getCached repoUrl branch _) as [[[g|]|e] w2]; reflexivity.
Qed.

(** A [READING] request is answered after the head has been fetched. *)
Lemma post_status_reading
    request w repoUrl branch message filePaths agentHead newRepoHead head w' :
  Served request w repoUrl branch message READING filePaths agentHead newRepoHead head w' ->
  POST request w
  = (Ret (respond (ReplyPayload
       {| success := true; locks := None; orphaned_dependencies := None;
          orchestration := {| action := PROCEED; command := None;
                              reason := "Reading status recorded"; metadata := None |} |})),
     w').
Proof.
  intros Hs. enter_post Hs filePaths. reflexivity.
Qed.

(** A [WRITING] request on the current head goes to the lock registry. *)
Lemma post_status_writing
    request w repoUrl branch message filePaths agentHead newRepoHead head w' :
  Served request w repoUrl branch message WRITING filePaths agentHead newRepoHead head w' ->
  isNonEmptyString agentHead = Some head ->
  let input :=
    {| Locks.repoUrl := repoUrl; Locks.branch := branch; Locks.filePaths := filePaths;
       Locks.userId := userId request; Locks.userName := userName request;
       Locks.lockStatus := Locks.WRITING; Locks.lockMessage := message;
       Locks.agentHead := head |} in
  snd (POST request w) = logged (CAcquireLocks input) w'
  /\ forall acquired, acquire w' input = Ret (Locks.Acquired acquired) ->
       fst (POST request w)
       = Ret (respond (ReplyPayload
           {| success := true; locks := Some acquired; orphaned_dependencies := None;
              orchestration := {| action := PROCEED; command := None;
                                  reason := "Locks acquired successfully";
                                  metadata := None |} |})).
Proof.
  intros Hs Hhead. cbv zeta. enter_post Hs filePaths. rewrite Hhead.
  rewrite bool_decide_eq_true_2 by reflexivity. change (negb true) with false.
  unfold acquireLocks, call. cbv beta iota zeta.
  destruct (acquire _ _) as [[acquired|why cf cu]|e]; simpl; (split; [reflexivity|]);
    intros acquired' [=]; subst; reflexivity.
Qed.

End PostStatusFacts.

Lemma dependencyPathsOf_elem (released : gset string) (edges : list Graph.GraphEdge) (x : string) :
  x ∈ PostStatus.dependencyPathsOf released edges
  <-> exists e, e ∈ edges /\ Graph.target e ∈ released
                /\ (Graph.source e ∉ released) /\ Graph.source e = x.
Proof.
  unfold PostStatus.dependencyPathsOf.
  enough (Hgen : forall acc,
    x ∈ fold_left
          (fun dependencyPaths edge =>
             if bool_decide (Graph.target edge ∈ released)
                && negb (bool_decide (Graph.source edge ∈ released))
             then set_add dependencyPaths (Graph.source edge) else dependencyPaths)
          edges acc
    <-> x ∈ acc \/ exists e, e ∈ edges /\ Graph.target e ∈ released
                             /\ (Graph.source e ∉ released) /\ Graph.source e = x).
  { rewrite Hgen. split; [intros [Hin|He]; [inversion Hin | exact He] | auto]. }
  induction edges as [|e es IH]; intros acc; simpl.
  - split; [auto | intros [?|[e [He _]]]; [assumption | inversion He]].
  - rewrite IH. clear IH.
    destruct (bool_decide (Graph.target e ∈ released)) eqn:Ht;
      destruct (bool_decide (Graph.source e ∈ released)) eqn:Hs; simpl;
      try apply bool_decide_eq_true in Hs; try apply bool_decide_eq_false in Hs;
      try apply bool_decide_eq_true in Ht; try apply bool_decide_eq_false in Ht;
      rewrite ?set_add_elem; setoid_rewrite elem_of_cons.
    + split.
      * intros [?|[e' [He' Hn]]]; [auto | right; exists e'; auto].
      * intros [?|[e' [[->|He'] Hn]]]; [auto | | right; exists e'; auto].
        destruct Hn as (_ & Hn & _). contradiction.
    + split.
      * intros [[?| ->]|[e' [He' Hn]]]; [auto | | right; exists e'; auto].
        right. exists e. auto.
      * intros [?|[e' [[->|He'] Hn]]]; [auto | | right; exists e'; auto].
        destruct Hn as (_ & _ & <-). auto.
    + split.
      * intros [?|[e' [He' Hn]]]; [auto | right; exists e'; auto].
      * intros [?|[e' [[->|He'] Hn]]]; [auto | | right; exists e'; auto].
        destruct Hn as (Hn & _). contradiction.
    + split.
      * intros [?|[e' [He' Hn]]]; [auto | right; exists e'; auto].
      * intros [?|[e' [[->|He'] Hn]]]; [auto | | right; exists e'; auto].
        destruct Hn as (Hn & _). contradiction.
Qed.

Lemma dependencyPathsOf_NoDup (released : gset string) (edges : list Graph.GraphEdge) :
  NoDup (PostStatus.dependencyPathsOf released edges).
Proof.
  unfold PostStatus.dependencyPathsOf.
  enough (Hgen : forall acc, NoDup acc ->
    NoDup (fold_left
          (fun dependencyPaths edge =>
             if bool_decide (Graph.target edge ∈ released)
                && negb (bool_decide (Graph.source edge ∈ released))
             then set_add dependencyPaths (Graph.source edge) else dependencyPaths)
          edges acc)).
  { apply Hgen. apply NoDup_nil_2. }
  induction edges as [|e es IH]; intros acc Hacc; simpl; [assumption|].
  apply IH. destruct (_ && _); [now apply set_add_NoDup | assumption].
Qed.


Lemma or_else_present (h : option string) (s d : string) :
  Header.present h s -> or_else h d = s.
Proof.
  intros [-> Hs]. unfold or_else. destruct (decide (s = "")); [contradiction | reflexivity].
Qed.

Lemma or_else_absent (h : option string) (d : string) :
  Header.absent h -> or_else h d = d.
Proof. intros [-> | ->]; reflexivity. Qed.

Section PostStatusClaims.
Import Route PostStatus GraphCacheSpec PostStatusSpec.
Context `{Env} `{Validation}.

(** C2 (as amended): a served [post_status] request with status [OPEN]
    whose [new_repo_head] and [agent_head] are both non-empty strings and
    equal is answered with HTTP status 400, [success = false] and the
    orchestration [PUSH] with the command [git push]; the only call made
    is the fetch of the remote head, so no lock is released. *)
Theorem post_status_open_unpushed
    request w repoUrl branch message filePaths agentHead newRepoHead head w' pushed :
  Served request w repoUrl branch message OPEN filePaths agentHead newRepoHead head w' ->
  isNonEmptyString newRepoHead = Some pushed ->
  isNonEmptyString agentHead = Some pushed ->
  exists reply,
    fst (POST request w) = Ret {| http_status := 400; payload := ReplyPayload reply |}
    /\ success reply = false
    /\ action (orchestration reply) = PUSH
    /\ command (orchestration reply) = Some "git push"
    /\ store (snd (POST request w)) = store w
    /\ forall c, c ∈ log (snd (POST request w)) -> isRelease c -> c ∈ log w.
Proof.
  intros Hs Hnew Hagent.
  assert (Hpush : pushNeeded newRepoHead agentHead = true).
  { unfold pushNeeded. rewrite Hnew, Hagent. now apply bool_decide_eq_true_2. }
  destruct (served_host _ _ _ _ _ _ _ _ _ _ _ Hs) as (owner & repo & _ & _ & Hw').
  rewrite (post_status_open_push _ _ _ _ _ _ _ _ _ _ Hs Hpush).
  exists pushFirst. repeat split; subst w'; simpl; try reflexivity.
  intros c Hc Hrel. apply elem_of_app in Hc as [Hc|Hc]; [assumption|].
  apply list_elem_of_singleton in Hc. subst c. contradiction.
Qed.

(** C5: a served [post_status] request with status [OPEN] that is not
    held back for a push and whose release call returns is answered with
    a 200, [success = true], the action [PROCEED] and the list
    [orphaned_dependencies]; that list has no duplicates and holds
    exactly the files [g] such that the cached graph has an edge from [g]
    to a released path and [g] is not itself a released path (so no
    released path is in it); it is empty when no graph is cached. *)
Theorem post_status_orphaned_dependencies
    request w repoUrl branch message filePaths agentHead newRepoHead head w' r :
  Served request w repoUrl branch message OPEN filePaths agentHead newRepoHead head w' ->
  pushNeeded newRepoHead agentHead = false ->
  release w' repoUrl branch filePaths (userId request) = Ret r ->
  exists orphaned,
    fst (POST request w)
    = Ret {| http_status := 200;
             payload := ReplyPayload
               {| success := true; locks := None; orphaned_dependencies := Some orphaned;
                  orchestration := {| action := PROCEED; command := None;
                                      reason := "Locks released successfully";
                                      metadata := None |} |} |}
    /\ NoDup orphaned
    /\ (forall g, g ∈ orphaned ->  g ∉ filePaths)
    /\ (forall g, g ∈ orphaned <->
          exists es e f,
            cachedEdges repoUrl branch
              (logged (CReleaseLocks repoUrl branch filePaths (userId request)) w') = Some es
            /\ e ∈ es /\ f ∈ filePaths
            /\ Graph.source e = g /\ Graph.target e = f /\ (g ∉ filePaths)).
Proof.
  intros Hs Hpush Hrel.
  rewrite (post_status_open_release _ _ _ _ _ _ _ _ _ _ _ Hs Hpush Hrel).
  eexists. split; [reflexivity|].
  destruct (cachedEdges repoUrl branch _) as [es|].
  - split; [apply dependencyPathsOf_NoDup|]. split.
    + intros g Hg. apply dependencyPathsOf_elem in Hg as (e & _ & _ & Hn & <-).
      now apply not_elem_of_list_to_set in Hn.
    + intros g. rewrite dependencyPathsOf_elem. split.
      * intros (e & He & Ht & Hn & <-). exists es, e, (Graph.target e).
        apply elem_of_list_to_set in Ht. apply not_elem_of_list_to_set in Hn. auto 8.
      * intros (es' & e & f & [= <-] & He & Hf & <- & <- & Hn). exists e.
        rewrite elem_of_list_to_set, not_elem_of_list_to_set. auto.
  - split; [apply NoDup_nil_2|]. split.
    + intros g Hg. inversion Hg.
    + intros g. split; [intros Hg; inversion Hg|].
      intros (es' & e & f & Hes & _). discriminate.
Qed.

End PostStatusClaims.

(** C2, the claim as stated fails: the push-needed answer has HTTP
    status 400, not 200. *)
Lemma post_status_open_unpushed_is_400 :
  exists response,
    fst (@PostStatus.POST (Sample.env Sample.quiet) Sample.validation
           Scenarios.openUnpushed Sample.start) = Ret response
    /\ PostStatus.http_status response = 400%Z
    /\ PostStatus.http_status response <> 200%Z
    /\ PostStatus.payload response = PostStatus.ReplyPayload PostStatusSpec.pushFirst.
Proof.
  eexists. split; [vm_compute; reflexivity|]. repeat split. discriminate.
Qed.

Lemma post_status_open_unpushed_witness :
  exists reply,
    fst (@PostStatus.POST (Sample.env Sample.quiet) Sample.validation
           Scenarios.openUnpushed Sample.start)
    = Ret {| PostStatus.http_status := 400; PostStatus.payload := PostStatus.ReplyPayload reply |}
    /\ PostStatus.success reply = false
    /\ Route.action (PostStatus.orchestration reply) = Route.PUSH
    /\ Route.command (PostStatus.orchestration reply) = Some "git push"
    /\ store (snd (@PostStatus.POST (Sample.env Sample.quiet) Sample.validation
                     Scenarios.openUnpushed Sample.start)) = store Sample.start
    /\ forall c,
         c ∈ log (snd (@PostStatus.POST (Sample.env Sample.quiet) Sample.validation
                         Scenarios.openUnpushed Sample.start)) ->
         PostStatusSpec.isRelease c -> c ∈ log Sample.start.
Proof.
  eapply (post_status_open_unpushed (H := Sample.env Sample.quiet))
    with (pushed := "abc123"); [serve | reflexivity | reflexivity].
Defined.

(** C3, the code at a [READING] request: with a lock registry that would
    refuse the paths, the request is answered [success = true] with the
    action [PROCEED], and the only call made is the fetch of the remote
    head: no acquire is attempted. The same request with status [WRITING]
    does go to the registry and is answered [SWITCH_TASK]. *)
Lemma post_status_reading_skips_acquire :
  @PostStatus.POST (Sample.env Scenarios.contended) Sample.validation
     Scenarios.reading Sample.start
  = (Ret {| PostStatus.http_status := 200;
            PostStatus.payload := PostStatus.ReplyPayload
              {| PostStatus.success := true; PostStatus.locks := None;
                 PostStatus.orphaned_dependencies := None;
                 PostStatus.orchestration :=
                   {| Route.action := Route.PROCEED; Route.command := None;
                      Route.reason := "Reading status recorded";
                      Route.metadata := None |} |} |},
     {| store := Kv.empty; log := [CGetRepoHeadCached "test" "repo" "main"] |})
  /\ exists reply input,
       @PostStatus.POST (Sample.env Scenarios.contended) Sample.validation
          Scenarios.writing Sample.start
       = (Ret {| PostStatus.http_status := 200;
                 PostStatus.payload := PostStatus.ReplyPayload reply |},
          {| store := Kv.empty;
             log := [CGetRepoHeadCached "test" "repo" "main"; CAcquireLocks input] |})
       /\ PostStatus.success reply = false
       /\ Route.action (PostStatus.orchestration reply) = Route.SWITCH_TASK.
Proof.
  split; [vm_compute; reflexivity|].
  do 2 eexists. split; [vm_compute; reflexivity|]. split; reflexivity.
Qed.


Lemma post_status_orphaned_dependencies_witness :
  exists orphaned,
    fst (@PostStatus.POST (Sample.env Sample.quiet) Sample.validation
           Scenarios.openAuth Scenarios.authWorld)
    = Ret {| PostStatus.http_status := 200;
             PostStatus.payload := PostStatus.ReplyPayload (PostStatusSpec.released orphaned) |}
    /\ "src/app.ts" ∈ orphaned
    /\ ("src/auth.ts" ∉ orphaned).
Proof.
  destruct (post_status_orphaned_dependencies
              (H := Sample.env Sample.quiet) (H0 := Sample.validation)
              Scenarios.openAuth Scenarios.authWorld
              Scenarios.repoUrl "main" "work" ["src/auth.ts"] JUndefined JUndefined "remote-head"
              (logged (CGetRepoHeadCached "test" "repo" "main") Scenarios.authWorld)
              {| Locks.success := true |})
    as (orphaned & Hrun & _ & Hnot & Hiff).
  - serve.
  - reflexivity.
  - reflexivity.
  - exists orphaned. split; [exact Hrun|]. split.
    + apply Hiff.
      exists [{| Graph.source := "src/app.ts"; Graph.target := "src/auth.ts" |};
              {| Graph.source := "src/auth.ts"; Graph.target := "src/util.ts" |}],
             {| Graph.source := "src/app.ts"; Graph.target := "src/auth.ts" |}, "src/auth.ts".
      repeat split; try apply list_elem_of_here.
      intros Hin. apply list_elem_of_singleton in Hin. discriminate.
    + intros Hin. apply Hnot in Hin. apply Hin. apply list_elem_of_here.
Defined.

Section IdentityClaims.
Import Route Header.
Context `{Env} `{Validation}.

(** C6 (as amended): on the [post_status] path the caller identity is the
    header [x-github-user] when it has a non-empty value, else the header
    [x-github-username], else the string [anonymous]; the display name
    takes the two headers in the reverse order and falls back to
    [Anonymous]; these are the identity and the name under which a
    [WRITING] request is passed to the lock registry. On the
    [check_status] path the identity takes the same two headers in the
    same order but falls back to the empty string, and no display name is
    computed. *)
Theorem caller_identity (request : Request) :
  let user := headers request !! "x-github-user" in
  let name := headers request !! "x-github-username" in
  (forall s, present user s ->
     PostStatus.userId request = s /\ CheckStatus.requestingUser request = s)
  /\ (absent user -> forall s, present name s ->
        PostStatus.userId request = s /\ CheckStatus.requestingUser request = s)
  /\ (absent user -> absent name ->
        PostStatus.userId request = "anonymous" /\ CheckStatus.requestingUser request = "")
  /\ (forall s, present name s -> PostStatus.userName request = s)
  /\ (absent name -> forall s, present user s -> PostStatus.userName request = s)
  /\ (absent name -> absent user -> PostStatus.userName request = "Anonymous")
  /\ (forall w repoUrl branch message filePaths agentHead newRepoHead head w',
        PostStatusSpec.Served request w repoUrl branch message WRITING filePaths
          agentHead newRepoHead head w' ->
        isNonEmptyString agentHead = Some head ->
        exists input,
          log (snd (PostStatus.POST request w)) = (log w' ++ [CAcquireLocks input])%list
          /\ Locks.userId input = PostStatus.userId request
          /\ Locks.userName input = PostStatus.userName request).
Proof.
  cbv zeta. unfold PostStatus.userId, PostStatus.userName, CheckStatus.requestingUser.
  repeat split.
  - now apply or_else_present.
  - now apply or_else_present.
  - rewrite or_else_absent by assumption. now apply or_else_present.
  - rewrite or_else_absent by assumption. now apply or_else_present.
  - now rewrite !or_else_absent by assumption.
  - now rewrite !or_else_absent by assumption.
  - intros s Hs. now apply or_else_present.
  - intros Habs s Hs. rewrite or_else_absent by assumption. now apply or_else_present.
  - intros Hn Hu. now rewrite !or_else_absent by assumption.
  - intros w repoUrl branch message filePaths agentHead newRepoHead head w' Hs Hhead.
    destruct (post_status_writing _ _ _ _ _ _ _ _ _ _ Hs Hhead) as [Hlog _].
    eexists. rewrite Hlog. repeat split.
Qed.

End IdentityClaims.

Section GraphCacheClaims.
Import Route.
Context `{Env} `{Validation}.


End GraphCacheClaims.

(** C6, the claim as stated fails on the [check_status] path: a caller
    without identity headers is not resolved to [anonymous] but to the
    empty string, so that a lock held by [anonymous] is a conflict for it. *)
Lemma check_status_unnamed_caller :
  CheckStatus.requestingUser Scenarios.unnamed = ""
  /\ CheckStatus.requestingUser Scenarios.unnamed <> "anonymous"
  /\ exists locks warnings orchestration,
       fst (@CheckStatus.POST (Sample.env (Scenarios.locked [("src/a.ts", "anonymous")]))
              Sample.validation Scenarios.unnamed Sample.start)
       = Ret {| CheckStatus.http_status := 200;
                CheckStatus.payload :=
                  CheckStatus.StatusPayload CheckStatus.CONFLICT "remote-head"
                    locks warnings orchestration |}.
Proof.
  split; [reflexivity|]. split; [discriminate|].
  do 3 eexists. vm_compute. reflexivity.
Qed.

Lemma caller_identity_witness :
  PostStatus.userId Scenarios.writing = "fallback-user"
  /\ PostStatus.userName Scenarios.writing = "fallback-user"
  /\ CheckStatus.requestingUser Scenarios.writing = "fallback-user".
Proof.
  destruct (caller_identity (H := Sample.env Sample.quiet) (H0 := Sample.validation)
              Scenarios.writing)
    as (_ & Hid & _ & Hname & _).
  assert (Hpresent : Header.present
            (Route.headers Scenarios.writing !! "x-github-username") "fallback-user")
    by (split; [reflexivity | discriminate]).
  assert (Habsent : Header.absent (Route.headers Scenarios.writing !! "x-github-user"))
    by (left; reflexivity).
  destruct (Hid Habsent _ Hpresent) as [Hu Hr].
  split; [exact Hu|]. split; [exact (Hname _ Hpresent) | exact Hr].
Defined.


(** ** The tool-call adapter *)

Section McpClaims.
Import Mcp McpSpec.
Context `{Env}.


(** The run of [callCheckStatusTool] when no branch was provided. *)
Lemma callCheckStatusTool_default (args : list (string * JsValue)) (w : World) :
  resolveBranch (get_field args "branch")
  = {| branch := DEFAULT_MCP_BRANCH; wasProvided := false |} ->
  callCheckStatusTool args w
  = match checkAnswer args "master" w with
    | Ret first =>
        if shouldRetryOnMissingBranchReference first
        then (outcomeOf checkStatusResult checkOffline
                (checkAnswer args "main" (logged (checkCall args "master") w)),
              logged (checkCall args "main") (logged (checkCall args "master") w))
        else (Ret (checkStatusResult first), logged (checkCall args "master") w)
    | Throw _ => (Ret checkOffline, logged (checkCall args "master") w)
    end.
Proof.
  intros Hb. unfold callCheckStatusTool, checkAnswer, checkCall, outcomeOf.
  rewrite Hb. unfold try_catch, mbind, M_bind, callInternalApi, call. simpl.
  destruct (internalApi w _ _ _) as [first|e]; [|reflexivity].
  destruct (shouldRetryOnMissingBranchReference first); [|reflexivity].
  simpl. destruct (internalApi _ _ _ _) as [second|e]; reflexivity.
Qed.

(** The run of [callPostStatusTool] when no branch was provided. *)
Lemma callPostStatusTool_default (args : list (string * JsValue)) (w : World) :
  resolveBranch (get_field args "branch")
  = {| branch := DEFAULT_MCP_BRANCH; wasProvided := false |} ->
  callPostStatusTool args w
  = match postAnswer args "master" w with
    | Ret first =>
        if shouldRetryOnMissingBranchReference first
        then (outcomeOf postStatusResult postOffline
                (postAnswer args "main" (logged (postCall args "master") w)),
              logged (postCall args "main") (logged (postCall args "master") w))
        else (Ret (postStatusResult first), logged (postCall args "master") w)
    | Throw _ => (Ret postOffline, logged (postCall args "master") w)
    end.
Proof.
  intros Hb. unfold callPostStatusTool, postAnswer, postCall, outcomeOf.
  rewrite Hb. unfold try_catch, mbind, M_bind, callInternalApi, call. simpl.
  destruct (internalApi w _ _ _) as [first|e]; [|reflexivity].
  destruct (shouldRetryOnMissingBranchReference first); [|reflexivity].
  simpl. destruct (internalApi _ _ _ _) as [second|e]; reflexivity.
Qed.

(** The run of the tools when a branch was provided. *)
Lemma callTool_provided (args : list (string * JsValue)) (w : World) (b : string) :
  resolveBranch (get_field args "branch") = {| branch := b; wasProvided := true |} ->
  callCheckStatusTool args w
  = (outcomeOf checkStatusResult checkOffline (checkAnswer args b w), logged (checkCall args b) w)
  /\ callPostStatusTool args w
     = (outcomeOf postStatusResult postOffline (postAnswer args b w), logged (postCall args b) w).
Proof.
  intros Hb. unfold callCheckStatusTool, callPostStatusTool, checkAnswer, postAnswer,
    checkCall, postCall, outcomeOf.
  rewrite Hb. unfold try_catch, mbind, M_bind, callInternalApi, call. simpl.
  split; destruct (internalApi w _ _ _) as [first|e]; reflexivity.
Qed.

End McpClaims.

Section McpFallback.
Import Mcp McpSpec.
Context `{Env}.


End McpFallback.


(** ** The list primitives of the store *)

Lemma range_prefix (l : list Kv.ListItem) (n : Z) :
  (0 < n)%Z -> Kv.range l 0 (n - 1) = take (Z.to_nat n) l.
Proof.
  intros Hn. unfold Kv.range.
  replace (0 <? 0)%Z with false by reflexivity.
  replace (n - 1 <? 0)%Z with false by (symmetry; apply Z.ltb_ge; lia).
  destruct (Z.min (n - 1) (Z.of_nat (length l) - 1) <? 0)%Z eqn:Hhi.
  - apply Z.ltb_lt in Hhi. destruct l; [now rewrite take_nil | simpl length in Hhi; lia].
  - apply Z.ltb_ge in Hhi. simpl drop.
    destruct (Z.min_spec (n - 1) (Z.of_nat (length l) - 1)) as [[Hlt ->]|[Hge ->]].
    + replace (n - 1 - 0 + 1)%Z with n by lia. reflexivity.
    + replace (Z.of_nat (length l) - 1 - 0 + 1)%Z with (Z.of_nat (length l)) by lia.
      change (drop (Z.to_nat 0) l) with l.
      rewrite !take_ge; [reflexivity | lia | lia].
Qed.

Lemma list_at_put_list (key key' : string) (l : list Kv.ListItem) (s : Kv.Store) :
  Kv.list_at key' (Kv.put_list key l s)
  = if decide (key = key') then l else Kv.list_at key' s.
Proof.
  unfold Kv.list_at, Kv.put_list. simpl.
  destruct (decide (key = key')) as [->|Hne].
  - destruct l; [now rewrite lookup_delete_eq | now rewrite lookup_insert_eq].
  - destruct l; [now rewrite lookup_delete_ne | now rewrite lookup_insert_ne].
Qed.

Lemma push_each_rev (values l : list Kv.ListItem) :
  fold_left (fun l v => v :: l) values l = (rev values ++ l)%list.
Proof.
  revert l. induction values as [|v vs IH]; intros l; simpl; [reflexivity|].
  rewrite IH, <- app_assoc. reflexivity.
Qed.

(** [LPUSH] then [LTRIM 0 (n-1)] keeps the [n] newest items. *)
Lemma lpush_ltrim (key key' : string) (values : list Kv.ListItem) (n : Z) (s : Kv.Store) :
  (0 < n)%Z ->
  Kv.list_at key' (Kv.ltrim key 0 (n - 1) (Kv.lpush key values s))
  = if decide (key = key')
    then take (Z.to_nat n) (rev values ++ Kv.list_at key s)
    else Kv.list_at key' s.
Proof.
  intros Hn. unfold Kv.ltrim, Kv.lpush.
  rewrite !list_at_put_list. destruct (decide (key = key')) as [->|Hne].
  - destruct (decide (key' = key')); [|congruence].
    rewrite range_prefix by assumption. now rewrite push_each_rev.
  - reflexivity.
Qed.

(** ** The activity log *)

Lemma payloads_paths (g : nat -> string -> Event.CoordinationActivityEvent) (l : list string) :
  (forall i p, Event.file_path (g i p) = p) ->
  map Event.file_path (omap Activity.parseActivityEvent (imap (fun i p => Kv.EventJson (g i p)) l))
  = l.
Proof.
  revert g. induction l as [|p l IH]; intros g Hg; simpl; [reflexivity|].
  rewrite Hg. f_equal. apply (IH (fun i => g (S i))). intros i q. apply Hg.
Qed.

Section ActivityFacts.
Import Event Activity ActivitySpec.
Context `{Env}.

(** A publication through a store that answers. *)
Lemma publishActivityEvents_run (input : PublishActivityInput) (w : World) :
  (forall w, kvFault w = None) ->
  kvHas "lpush" = true -> kvHas "ltrim" = true ->
  filePaths input <> [] ->
  fst (publishActivityEvents input w) = Ret tt
  /\ forall key,
       Kv.list_at key (store (snd (publishActivityEvents input w)))
       = if decide (getActivityKey (repoUrl input) (branch input) = key)
         then take 500 (rev (payloadsOf input (timestampOf input w))
                        ++ Kv.list_at (getActivityKey (repoUrl input) (branch input)) (store w))
         else Kv.list_at key (store w).
Proof.
  intros Hok Hpush Htrim Hne. unfold publishActivityEvents.
  destruct (filePaths input) as [|f fs] eqn:Hfs; [congruence|].
  change (length (f :: fs) =? 0)%nat with false. cbv iota.
  rewrite Hpush, Htrim. simpl negb. simpl orb. cbv iota.
  unfold mbind, M_bind, kv_command, now, timestampOf, payloadsOf.
  rewrite Hfs.
  destruct (inputTimestamp input) as [t|]; unfold mret, M_ret; cbv beta iota zeta;
    rewrite Hok; cbv beta iota zeta; rewrite ?Hok; cbv beta iota zeta;
    (split; [reflexivity|]); intros key; unfold with_store, logged; cbn [store snd default];
    change (MAX_ACTIVITY_RETENTION - 1)%Z with (500 - 1)%Z;
    rewrite lpush_ltrim by reflexivity; reflexivity.
Qed.

(** A read through a store that answers. *)
Lemma getRecentActivityEvents_run (repoUrl branch : string) (limit : option JsNumber) (w : World) :
  (forall w, kvFault w = None) ->
  kvHas "lrange" = true ->
  fst (getRecentActivityEvents repoUrl branch limit w)
  = Ret (rev (omap parseActivityEvent
                (take (askedFor limit) (Kv.list_at (getActivityKey repoUrl branch) (store w))))).
Proof.
  intros Hok Hrange. unfold getRecentActivityEvents, askedFor.
  rewrite Hrange. change (negb true) with false. cbv iota.
  unfold mbind, M_bind, kv_command. cbv beta iota zeta. rewrite Hok.
  unfold mret, M_ret. cbv beta iota zeta. unfold Kv.lrange. cbn [fst].
  rewrite range_prefix; [reflexivity|].
  destruct (default _ limit); simpl; [lia | reflexivity].
Qed.

End ActivityFacts.

Lemma omap_length_le {A B} (f : A -> option B) (l : list A) : length (omap f l) <= length l.
Proof.
  induction l as [|x l IH]; simpl; [lia|].
  destruct (f x); simpl; [apply le_n_S; exact IH | apply le_S; exact IH].
Qed.

Section ActivityClaims.
Import Event Activity ActivitySpec.
Context `{Env}.

(** C8 (as amended): through a store client that has the list commands
    and answers, a call of [publishActivityEvents] with a non-empty list
    of files pushes exactly one event per file, in the order of the
    files, to the head of the list of the namespace and trims the list to
    its 500 newest items, leaving the other lists alone; so at most 500
    items are retained, and a push of [k] events on a list of 500 drops
    the [k] oldest. A read returns the events among the
    [max 1 (floor N)] newest items ([N] = 120 when the limit is left out
    or is not finite), reversed, so that the oldest comes first. *)
Theorem activity_log_bounded :
  (forall w, kvFault w = None) ->
  kvHas "lpush" = true -> kvHas "ltrim" = true -> kvHas "lrange" = true ->
  (forall input w,
     filePaths input <> [] ->
     let key := getActivityKey (repoUrl input) (branch input) in
     let pushed := payloadsOf input (timestampOf input w) in
     let old := Kv.list_at key (store w) in
     let new := Kv.list_at key (store (snd (publishActivityEvents input w))) in
     map file_path (omap parseActivityEvent pushed) = filePaths input
     /\ length pushed = length (filePaths input)
     /\ new = take 500 (rev pushed ++ old)
     /\ length new <= 500
     /\ (length old = 500 -> length pushed <= 500 ->
         new = (rev pushed ++ take (500 - length pushed) old)%list /\ length new = 500)
     /\ (forall key', key' <> key ->
           Kv.list_at key' (store (snd (publishActivityEvents input w)))
           = Kv.list_at key' (store w)))
  /\ (forall repoUrl branch limit w,
        exists events,
          fst (getRecentActivityEvents repoUrl branch limit w) = Ret events
          /\ events = rev (omap parseActivityEvent
                             (take (askedFor limit)
                                   (Kv.list_at (getActivityKey repoUrl branch) (store w))))
          /\ length events <= askedFor limit
          /\ (limit = None \/ limit = Some NotFinite -> askedFor limit = 120)
          /\ (forall q, limit = Some (Finite q) ->
                Z.of_nat (askedFor limit) = Z.max 1 (Qfloor q))).
Proof.
  intros Hok Hpush Htrim Hrange. split.
  - intros input w Hne. cbv zeta.
    destruct (publishActivityEvents_run input w Hok Hpush Htrim Hne) as [_ Hlist].
    assert (Hlen : length (payloadsOf input (timestampOf input w)) = length (filePaths input))
      by apply length_imap.
    split; [apply payloads_paths; reflexivity|]. split; [exact Hlen|].
    rewrite Hlist. destruct (decide _) as [_|Hn]; [|congruence].
    split; [reflexivity|]. split; [rewrite length_take; lia|]. split.
    + intros Hold Hk. rewrite take_app_ge by (rewrite length_rev; lia).
      rewrite length_rev. split; [reflexivity|].
      rewrite length_app, length_rev, length_take. lia.
    + intros key' Hkey. rewrite Hlist. destruct (decide _); [congruence | reflexivity].
  - intros repoUrl branch limit w. eexists. split; [now apply getRecentActivityEvents_run|].
    split; [reflexivity|]. split.
    + rewrite length_rev. etransitivity; [apply omap_length_le|]. rewrite length_take. lia.
    + split.
      * intros [-> | ->]; reflexivity.
      * intros q ->. unfold askedFor. simpl. lia.
Qed.

End ActivityClaims.

(** C8, the claim as stated fails: a read with the limit [N = 0] of a list
    that holds two events returns one event, which is more than [N]. *)
Lemma activity_read_limit_zero :
  exists event,
    fst (@Activity.getRecentActivityEvents (Sample.env Sample.quiet)
           "https://github.com/a/b" "main" (Some (Activity.Finite (inject_Z 0)))
           (snd (@Activity.publishActivityEvents (Sample.env Sample.quiet)
                   ActivitySpec.twoFiles Sample.start)))
    = Ret [event]
    /\ Event.file_path event = "src/b.ts"
    /\ (0 < Z.of_nat (length [event]))%Z.
Proof.
  eexists. split; [vm_compute; reflexivity|]. split; [reflexivity | reflexivity].
Qed.

Lemma activity_log_bounded_witness :
  Kv.list_at (@Activity.getActivityKey (Sample.env Sample.quiet) "https://github.com/a/b" "main")
    (store (snd (@Activity.publishActivityEvents (Sample.env Sample.quiet)
                   ActivitySpec.twoFiles Sample.start)))
  = take 500 (rev (ActivitySpec.payloadsOf ActivitySpec.twoFiles 12345) ++ []).
Proof.
  destruct (activity_log_bounded (H := Sample.env Sample.quiet)
              (fun _ => eq_refl) eq_refl eq_refl eq_refl) as [Hpublish _].
  destruct (Hpublish ActivitySpec.twoFiles Sample.start) as (_ & _ & Hnew & _).
  - discriminate.
  - exact Hnew.
Defined.

(** ** Sorting with a comparator *)

Section Sorting.
Import GraphService.
Context {A : Type} (cmp : A -> A -> Z).
Hypothesis cmp_total : forall a b, (cmp a b <= 0)%Z \/ (cmp b a <= 0)%Z.
Hypothesis cmp_trans : forall a b c, (cmp a b <= 0)%Z -> (cmp b c <= 0)%Z -> (cmp a c <= 0)%Z.

Let le (a b : A) : Prop := (cmp a b <= 0)%Z.

Lemma insert_sorted_HdRel (x y : A) (l : list A) :
  le y x -> HdRel le y l -> HdRel le y (insert_sorted cmp x l).
Proof.
  intros Hyx Hl. destruct l as [|z l]; simpl; [now constructor|].
  destruct (cmp x z <=? 0)%Z; constructor; [assumption|].
  now inversion Hl.
Qed.

Lemma insert_sorted_Sorted (x : A) (l : list A) :
  Sorted le l -> Sorted le (insert_sorted cmp x l).
Proof.
  induction l as [|y l IH]; intros Hl; simpl.
  - repeat constructor.
  - destruct (cmp x y <=? 0)%Z eqn:Hxy.
    + constructor; [assumption|]. constructor. now apply Z.leb_le.
    + apply Z.leb_gt in Hxy. inversion Hl; subst. constructor; [auto|].
      apply insert_sorted_HdRel; [|assumption].
      destruct (cmp_total y x); [assumption | unfold le; lia].
Qed.

Lemma sort_Sorted (l : list A) : StronglySorted le (sort cmp l).
Proof.
  apply Sorted_StronglySorted.
  - intros a b c. apply cmp_trans.
  - induction l as [|x l IH]; simpl; [constructor | now apply insert_sorted_Sorted].
Qed.

(** Sorting a sorted list changes nothing. *)
Lemma sort_sorted_id (l : list A) : StronglySorted le l -> sort cmp l = l.
Proof.
  intros Hl. apply StronglySorted_Sorted in Hl.
  induction l as [|x l IH]; simpl; [reflexivity|].
  inversion Hl as [|? ? Hs Hh]; subst. rewrite IH by assumption.
  destruct l as [|y l]; simpl; [reflexivity|].
  inversion Hh; subst. unfold le in *.
  destruct (cmp x y <=? 0)%Z eqn:Hxy; [reflexivity|]. apply Z.leb_gt in Hxy. lia.
Qed.

Lemma insert_sorted_length (x : A) (l : list A) :
  length (insert_sorted cmp x l) = S (length l).
Proof.
  induction l as [|y l IH]; simpl; [reflexivity|].
  destruct (cmp x y <=? 0)%Z; simpl; [reflexivity | now rewrite IH].
Qed.

Lemma sort_length (l : list A) : length (sort cmp l) = length l.
Proof.
  induction l as [|x l IH]; simpl; [reflexivity|].
  now rewrite insert_sorted_length, IH.
Qed.

End Sorting.

Section Comparators.
Import Graph GraphService.
Context `{Collation}.

Lemma localeCompare_total a b : (localeCompare a b <= 0)%Z \/ (localeCompare b a <= 0)%Z.
Proof.
  pose proof (localeCompare_swap a b) as Hs.
  destruct (localeCompare a b) eqn:Hab, (localeCompare b a) eqn:Hba;
    simpl in Hs; try discriminate; lia.
Qed.

Lemma localeCompare_zero a b : localeCompare a b = 0%Z -> localeCompare b a = 0%Z.
Proof.
  intros Hab. pose proof (localeCompare_swap a b) as Hs. rewrite Hab in Hs.
  destruct (localeCompare b a); simpl in Hs; [reflexivity | discriminate | discriminate].
Qed.

Lemma localeCompare_neg a b : (localeCompare a b < 0)%Z -> (0 < localeCompare b a)%Z.
Proof.
  intros Hab. pose proof (localeCompare_swap a b) as Hs.
  destruct (localeCompare a b) eqn:Ha, (localeCompare b a) eqn:Hb;
    simpl in Hs; try discriminate; lia.
Qed.

Lemma localeCompare_pos a b : (0 < localeCompare a b)%Z -> (localeCompare b a < 0)%Z.
Proof.
  intros Hab. pose proof (localeCompare_swap a b) as Hs.
  destruct (localeCompare a b) eqn:Ha, (localeCompare b a) eqn:Hb;
    simpl in Hs; try discriminate; lia.
Qed.

Lemma compareNodes_total a b : (compareNodes a b <= 0)%Z \/ (compareNodes b a <= 0)%Z.
Proof. apply localeCompare_total. Qed.

Lemma compareNodes_trans a b c :
  (compareNodes a b <= 0)%Z -> (compareNodes b c <= 0)%Z -> (compareNodes a c <= 0)%Z.
Proof. apply localeCompare_trans. Qed.

(** [compareEdges] in terms of the two comparisons it makes. *)
Lemma compareEdges_le a b :
  (compareEdges a b <= 0)%Z
  <-> (localeCompare (source a) (source b) < 0)%Z
      \/ (localeCompare (source a) (source b) = 0%Z
          /\ (localeCompare (target a) (target b) <= 0)%Z).
Proof.
  unfold compareEdges. destruct (localeCompare (source a) (source b) =? 0)%Z eqn:Hs; simpl.
  - apply Z.eqb_eq in Hs. rewrite Hs. split; [auto | intros [?|[_ ?]]; [lia | assumption]].
  - apply Z.eqb_neq in Hs. split; [lia | intros [?|[? _]]; [lia | contradiction]].
Qed.

Lemma compareEdges_total a b : (compareEdges a b <= 0)%Z \/ (compareEdges b a <= 0)%Z.
Proof.
  rewrite !compareEdges_le.
  destruct (Z.lt_trichotomy (localeCompare (source a) (source b)) 0) as [Hlt|[Heq|Hgt]].
  - left. now left.
  - pose proof (localeCompare_zero _ _ Heq) as Heq'.
    destruct (localeCompare_total (target a) (target b)); [left | right]; right; auto.
  - right. left. now apply localeCompare_pos.
Qed.

Lemma compareEdges_trans a b c :
  (compareEdges a b <= 0)%Z -> (compareEdges b c <= 0)%Z -> (compareEdges a c <= 0)%Z.
Proof.
  rewrite !compareEdges_le. intros Hab Hbc.
  assert (Hac : (localeCompare (source a) (source c) <= 0)%Z).
  { apply (localeCompare_trans _ (source b)); [destruct Hab as [?|[? _]] | destruct Hbc as [?|[? _]]]; lia. }
  destruct (Z.eq_dec (localeCompare (source a) (source c)) 0%Z) as [Hz|Hz]; [|left; lia].
  pose proof (localeCompare_zero _ _ Hz) as Hca.
  destruct Hab as [Hab|[Hab Htab]].
  - exfalso. apply localeCompare_neg in Hab.
    assert ((localeCompare (source b) (source a) <= 0)%Z); [|lia].
    apply (localeCompare_trans _ (source c)); [destruct Hbc as [?|[? _]]; lia | lia].
  - destruct Hbc as [Hbc|[Hbc Htbc]].
    + exfalso. apply localeCompare_neg in Hbc.
      assert ((localeCompare (source c) (source b) <= 0)%Z); [|lia].
      apply (localeCompare_trans _ (source a)); lia.
    + right. split; [assumption|]. now apply (localeCompare_trans _ (target b)).
Qed.

End Comparators.

(** ** The graph builder *)

Lemma string_length_app (a b : string) :
  String.length (a +:+ b) = String.length a + String.length b.
Proof. induction a as [|c a IH]; simpl; [reflexivity | now rewrite IH]. Qed.

Lemma graph_key_not_meta (repoUrl branch : string) :
  GraphService.graph (GraphService.getKeys repoUrl branch)
  <> GraphService.meta (GraphService.getKeys repoUrl branch).
Proof.
  unfold GraphService.getKeys. simpl. intros Heq.
  apply (f_equal String.length) in Heq.
  rewrite !string_length_app in Heq. simpl in Heq. lia.
Qed.

Section BuilderLoop.
Import Graph GraphService.
Context `{Env}.

Lemma addNode_nonempty (file : RepoFile) (ns : list GraphNode) : addNode file ns <> [].
Proof.
  unfold addNode. destruct (existsb _ ns) eqn:He.
  - destruct ns; [discriminate | congruence].
  - destruct ns; discriminate.
Qed.

(** Processing a file never throws and never writes to the store; it
    leaves the file with a node. *)
Lemma processFile_run (owner repo c : string) (st : Progress) (file : RepoFile) (w : World) :
  exists st' w',
    processFile owner repo c st file w = (Ret st', w')
    /\ store w' = store w
    /\ pNodes st' = addNode file (pNodes st).
Proof.
  unfold processFile, try_catch, mbind, M_bind, octokit_getContent, call.
  destruct (getContent w owner repo (path file) c) as [[|resolved]|e]; simpl.
  - eauto.
  - destruct (getFileLanguage (path file)); simpl; [|eauto].
    do 2 eexists. split; [reflexivity|]. split; [reflexivity|]. simpl.
    generalize (addNode file (pNodes st)). generalize (pEdges st), (edgeSet st), (processedCount st).
    induction resolved as [|r rs IH]; intros es set n ns; simpl; [reflexivity|].
    unfold addImport at 2. destruct r as [r|]; [|apply IH].
    destruct (decide (r = "")); [apply IH|].
    destruct (bool_decide _); apply IH.
  - eauto.
Qed.

Lemma processFiles_run (owner repo c : string) (files : list RepoFile) (st : Progress) (w : World) :
  exists st' w',
    foldM (processFile owner repo c) files st w = (Ret st', w')
    /\ store w' = store w
    /\ (files = [] -> st' = st)
    /\ (pNodes st <> [] \/ files <> [] -> pNodes st' <> []).
Proof.
  revert st w. induction files as [|f fs IH]; intros st w; simpl.
  - exists st, w. split; [reflexivity|]. split; [reflexivity|]. split; [reflexivity|].
    intros [?|?]; congruence.
  - destruct (processFile_run owner repo c st f w) as (st1 & w1 & Hrun & Hstore & Hnodes).
    unfold mbind, M_bind. rewrite Hrun.
    destruct (IH st1 w1) as (st2 & w2 & Hrun2 & Hstore2 & _ & Hne).
    exists st2, w2. rewrite Hrun2. split; [reflexivity|]. split; [congruence|].
    split; [discriminate|].
    intros _. apply Hne. left. rewrite Hnodes. apply addNode_nonempty.
Qed.

End BuilderLoop.

Lemma filter_none {A} (f : A -> bool) (l : list A) :
  (forall x, In x l -> f x = false) -> List.filter f l = [].
Proof.
  induction l as [|x l IH]; intros Hall; simpl; [reflexivity|].
  rewrite (Hall x) by now left. apply IH. intros y Hy. apply Hall. now right.
Qed.

Lemma delete_each_lookup (m : gmap string string) (fields : list string) (k : string) :
  fold_right (fun f h => delete f h) m fields !! k
  = if decide (k ∈ fields) then None else m !! k.
Proof.
  induction fields as [|f fs IH]; simpl.
  - destruct (decide (k ∈ [])) as [Hin|]; [inversion Hin | reflexivity].
  - destruct (decide (f = k)) as [->|Hne].
    + rewrite lookup_delete_eq.
      destruct (decide (k ∈ k :: fs)) as [|Hn]; [reflexivity|].
      exfalso. apply Hn. apply list_elem_of_here.
    + rewrite lookup_delete_ne by assumption. rewrite IH.
      destruct (decide (k ∈ fs)) as [Hin|Hnin], (decide (k ∈ f :: fs)) as [Hin'|Hnin'];
        try reflexivity.
      * exfalso. apply Hnin'. now apply list_elem_of_further.
      * apply elem_of_cons in Hin' as [->|?]; [congruence | contradiction].
Qed.

Section BuilderPlan.
Import Graph GraphService.

Lemma shas_keys (files : list RepoFile) :
  (rev (map (fun f => (path f, sha f)) files)).*1 = rev (map path files).
Proof.
  induction files as [|f fs IH]; simpl; [reflexivity|].
  rewrite fmap_app, IH. reflexivity.
Qed.

Lemma shasOf_lookup_None (files : list RepoFile) (k : string) :
  shasOf files !! k = None <-> k ∉ map path files.
Proof.
  unfold shasOf. rewrite <- not_elem_of_list_to_map, shas_keys.
  rewrite !list_elem_of_In, <- in_rev. reflexivity.
Qed.

Lemma shasOf_lookup (files : list RepoFile) (f : RepoFile) :
  NoDup (map path files) -> f ∈ files -> shasOf files !! path f = Some (sha f).
Proof.
  intros Hnd Hin. unfold shasOf. apply elem_of_list_to_map_1.
  - rewrite shas_keys. apply NoDup_ListNoDup, NoDup_rev, NoDup_ListNoDup. exact Hnd.
  - apply list_elem_of_In, in_rev. rewrite rev_involutive.
    apply in_map_iff. exists f. split; [reflexivity | now apply list_elem_of_In].
Qed.

Lemma deletedFilesOf_elem (files : list RepoFile) (storedShas : gmap string string) (k : string) :
  k ∈ deletedFilesOf files storedShas <-> is_Some (storedShas !! k) /\ (k ∉ map path files).
Proof.
  unfold deletedFilesOf. rewrite list_elem_of_In, filter_In, <- list_elem_of_In.
  rewrite negb_true_iff, bool_decide_eq_false, not_elem_of_list_to_set.
  assert (Hkeys : k ∈ map fst (map_to_list storedShas) <-> is_Some (storedShas !! k)).
  { rewrite list_elem_of_In, in_map_iff. split.
    - intros [[k' v] [<- Hin]]. apply list_elem_of_In, elem_of_map_to_list in Hin. eauto.
    - intros [v Hv]. exists (k, v). split; [reflexivity|].
      now apply list_elem_of_In, elem_of_map_to_list. }
  now rewrite Hkeys.
Qed.

(** After the pipeline the stored SHA map is that of the tree. *)
Lemma commit_shas (keys : Keys) (g : DependencyGraph) (c : string) (files : list RepoFile)
    (s : Kv.Store) :
  Kv.hash_at (fileShas keys)
    (commit keys g c (deletedFilesOf files (Kv.hash_at (fileShas keys) s)) (shasOf files) s)
  = shasOf files.
Proof.
  assert (Hput : forall key h s', Kv.hash_at key (Kv.put_hash key h s') = h).
  { intros key h s'. unfold Kv.hash_at, Kv.put_hash. simpl.
    destruct (decide (h = ∅)) as [->|]; [now rewrite lookup_delete_eq | now rewrite lookup_insert_eq]. }
  set (stored := Kv.hash_at (fileShas keys) s).
  set (s2 := Kv.set (meta keys) (Kv.Text c) (Kv.set (graph keys) (Kv.GraphJson g) s)).
  assert (Hs2 : Kv.hash_at (fileShas keys) s2 = stored) by reflexivity.
  set (s3 := match deletedFilesOf files stored with
             | [] => s2
             | _ => Kv.hdel (fileShas keys) (deletedFilesOf files stored) s2
             end).
  assert (Hs3 : forall k, shasOf files !! k = None -> Kv.hash_at (fileShas keys) s3 !! k = None).
  { intros k Hk. apply shasOf_lookup_None in Hk.
    destruct (stored !! k) as [v|] eqn:Hv.
    - assert (Hdel : k ∈ deletedFilesOf files stored) by (apply deletedFilesOf_elem; eauto).
      subst s3. destruct (deletedFilesOf files stored) as [|d ds] eqn:Hd; [inversion Hdel|].
      unfold Kv.hdel. rewrite Hput, delete_each_lookup.
      destruct (decide (k ∈ d :: ds)); [reflexivity | contradiction].
    - subst s3. destruct (deletedFilesOf files stored) as [|d ds]; [now rewrite Hs2|].
      unfold Kv.hdel. rewrite Hput, delete_each_lookup, Hs2.
      destruct (decide (k ∈ d :: ds)); [reflexivity | assumption]. }
  unfold commit. fold stored. fold s2. fold s3.
  apply map_eq. intros k. destruct (decide (shasOf files = ∅)) as [Hempty|Hne].
  - rewrite Hempty in *. rewrite lookup_empty. apply Hs3. apply lookup_empty.
  - unfold Kv.hset. rewrite Hput.
    destruct (shasOf files !! k) as [v|] eqn:Hk.
    + now apply lookup_union_Some_l.
    + apply lookup_union_None. split; [assumption | now apply Hs3].
Qed.

Lemma commit_strings (keys : Keys) (g : DependencyGraph) (c : string)
    (deleted : list string) (newShas : gmap string string) (s : Kv.Store) :
  Kv.strings (commit keys g c deleted newShas s)
  = <[meta keys := Kv.Text c]> (<[graph keys := Kv.GraphJson g]> (Kv.strings s)).
Proof.
  unfold commit. destruct deleted; destruct (decide (newShas = ∅)); reflexivity.
Qed.

End BuilderPlan.

Section BuilderRuns.
Import Graph GraphService GraphSpec.
Context `{Env} `{Collation}.

(** On a store that holds the build of the same tree, nothing is left to
    do. *)
Lemma plan_built (files : list RepoFile) (g : DependencyGraph) :
  NoDup (map path files) ->
  (forall f, f ∈ files -> sha f <> "") ->
  (files <> [] -> nodes g <> []) ->
  plan files (shasOf files) (Some (Kv.GraphJson g))
  = {| deletedFiles := []; keptNodes := nodes g; keptEdges := edges g; filesToProcess := [] |}.
Proof.
  intros Hnd Hsha Hne.
  assert (Hknown : forall f, In f files -> knownSha (shasOf files) (path f) = Some (sha f)).
  { intros f Hf. apply list_elem_of_In in Hf. unfold knownSha.
    rewrite (shasOf_lookup _ _ Hnd Hf).
    destruct (decide (sha f = "")) as [He|]; [now apply Hsha in He | reflexivity]. }
  assert (Hnew : newFilesOf files (shasOf files) = []).
  { apply filter_none. intros f Hf. cbv beta. rewrite (Hknown f Hf).
    apply negb_false_iff, bool_decide_eq_true. eauto. }
  assert (Hchanged : changedFilesOf files (shasOf files) = []).
  { apply filter_none. intros f Hf. cbv beta. rewrite (Hknown f Hf).
    apply negb_false_iff, bool_decide_eq_true. reflexivity. }
  assert (Hdeleted : deletedFilesOf files (shasOf files) = []).
  { destruct (deletedFilesOf files (shasOf files)) as [|k ks] eqn:Hd; [reflexivity|].
    assert (Hk : k ∈ deletedFilesOf files (shasOf files)) by (rewrite Hd; apply list_elem_of_here).
    apply deletedFilesOf_elem in Hk as [[v Hv] Hnot].
    apply shasOf_lookup_None in Hnot. congruence. }
  unfold plan. rewrite Hnew, Hchanged, Hdeleted. simpl.
  destruct files as [|f fs]; simpl; [reflexivity|].
  destruct (nodes g) as [|n ns] eqn:Hn; [exfalso; now apply Hne | reflexivity].
Qed.

(** A build on a non-empty tree starts with a node or has a file to
    process. *)
Lemma plan_progress (files : list RepoFile) (storedShas : gmap string string)
    (existing : option Kv.KvString) :
  files <> [] ->
  keptNodes (plan files storedShas existing) <> []
  \/ filesToProcess (plan files storedShas existing) <> [].
Proof.
  intros Hne. unfold plan.
  destruct (existingGraph existing _ _) as [[ns es] has].
  set (incremental := (newFilesOf files storedShas ++ changedFilesOf files storedShas)%list).
  destruct has; cbn [negb orb]; [|now right].
  destruct files as [|f fs]; [congruence|]. cbn [length Nat.eqb negb andb].
  destruct ns as [|n ns]; cbn [length Nat.eqb andb]; [|left; discriminate].
  destruct incremental as [|x xs]; cbn [length Nat.eqb]; right; discriminate.
Qed.

Lemma graphOf_sorted (st : Progress) (c : string) (t : Z) :
  version (graphOf st c t) = c
  /\ nodesSorted (nodes (graphOf st c t))
  /\ edgesSorted (edges (graphOf st c t)).
Proof.
  split; [reflexivity|]. split.
  - apply sort_Sorted; [apply compareNodes_total | apply compareNodes_trans].
  - apply sort_Sorted; [apply compareEdges_total | apply compareEdges_trans].
Qed.

Variables (owner repo repoUrl branch c : string) (tree : list TreeItem)
          (l : gmap string Locks.LockEntry).
Hypothesis steady : Steady owner repo repoUrl branch c tree l.

(** A build from the listing of the tree on, with a host and a store that
    answer. *)
Lemma rebuild_run (w : World) :
  let p := plan (treeFiles tree)
                (Kv.hash_at (fileShas (getKeys repoUrl branch)) (store w))
                (Kv.strings (store w) !! graph (getKeys repoUrl branch)) in
  exists st t w',
    rebuild owner repo repoUrl branch c w = (Ret (with_locks (graphOf st c t) l), w')
    /\ store w' = commit (getKeys repoUrl branch) (graphOf st c t) c (deletedFiles p)
                         (shasOf (treeFiles tree)) (store w)
    /\ (filesToProcess p = [] ->
        pNodes st = keptNodes p /\ pEdges st = keptEdges p /\ processedCount st = 0)
    /\ (keptNodes p <> [] \/ filesToProcess p <> [] -> pNodes st <> []).
Proof.
  destruct steady as [Hfault Hhead Htree Hlocks]. cbv zeta.
  unfold rebuild, mbind, M_bind, octokit_getTree, kv_hgetall, kv_get, kv_command, call, now,
    getLocks.
  rewrite Htree. cbv beta iota zeta. rewrite Hfault. cbv beta iota zeta.
  rewrite Hfault. cbv beta iota zeta.
  cbn [store logged with_store].
  change (default ∅ (Kv.hashes (store w) !! fileShas (getKeys repoUrl branch)))
    with (Kv.hash_at (fileShas (getKeys repoUrl branch)) (store w)).
  match goal with
  | |- context [foldM ?f ?fs ?st0 ?w0] =>
      destruct (processFiles_run owner repo c fs st0 w0) as (st & w1 & Hrun & Hstore & Hnil & Hne)
  end.
  rewrite Hrun. cbv beta iota zeta. rewrite Hfault. cbv beta iota zeta.
  unfold call. rewrite Hlocks. unfold mret, M_ret.
  exists st, (clock w1). eexists. split; [reflexivity|].
  cbn [store logged with_store snd]. split; [now rewrite Hstore|]. split.
  - intros Hnone. rewrite (Hnil Hnone). simpl. auto.
  - exact Hne.
Qed.

End BuilderRuns.

Section BuilderInvariant.
Import Graph GraphService GraphSpec.
Context `{Env} `{Collation}.
Variables (owner repo repoUrl branch c : string) (tree : list TreeItem)
          (l : gmap string Locks.LockEntry).
Hypothesis steady : Steady owner repo repoUrl branch c tree l.

Lemma plan_deleted (files : list RepoFile) (storedShas : gmap string string)
    (existing : option Kv.KvString) :
  deletedFiles (plan files storedShas existing) = deletedFilesOf files storedShas.
Proof.
  unfold plan. destruct (existingGraph existing _ _) as [[ns es] has].
  destruct (negb has || _); reflexivity.
Qed.

(** What a store holds after the pipeline of a build. *)
Lemma commit_built (s : Kv.Store) (st : Progress) (t : Z) :
  let p := plan (treeFiles tree) (Kv.hash_at (fileShas (getKeys repoUrl branch)) s)
                (Kv.strings s !! graph (getKeys repoUrl branch)) in
  let s' := commit (getKeys repoUrl branch) (graphOf st c t) c (deletedFiles p)
                   (shasOf (treeFiles tree)) s in
  (keptNodes p <> [] \/ filesToProcess p <> [] -> pNodes st <> []) ->
  Kv.text_of (Kv.strings s' !! meta (getKeys repoUrl branch)) = Some c
  /\ Kv.strings s' !! graph (getKeys repoUrl branch) = Some (Kv.GraphJson (graphOf st c t))
  /\ Built repoUrl branch c tree s' (graphOf st c t).
Proof.
  cbv zeta. intros Hne. rewrite commit_strings. split; [|split].
  - now rewrite lookup_insert_eq.
  - rewrite lookup_insert_ne by (apply not_eq_sym, graph_key_not_meta).
    now rewrite lookup_insert_eq.
  - destruct (graphOf_sorted st c t) as (Hv & Hn & He).
    constructor; [exact Hv | exact Hn | exact He | reflexivity | |].
    + rewrite plan_deleted. apply commit_shas.
    + intros Hfiles. apply (plan_progress _ (Kv.hash_at (fileShas (getKeys repoUrl branch)) s)
                              (Kv.strings s !! graph (getKeys repoUrl branch))) in Hfiles.
      apply Hne in Hfiles. simpl. intros Hnil.
      apply (f_equal (@length _)) in Hnil. rewrite sort_length in Hnil.
      destruct (pNodes st); [congruence | discriminate].
Qed.

(** The two ways in which [generate] runs. *)
Lemma generate_run (force : bool) (w : World) :
  exists w0,
    store w0 = store w
    /\ (generate owner repo repoUrl branch force w = rebuild owner repo repoUrl branch c w0
        \/ (force = false
            /\ exists g,
                 Kv.text_of (Kv.strings (store w) !! meta (getKeys repoUrl branch)) = Some c
                 /\ Kv.strings (store w) !! graph (getKeys repoUrl branch) = Some (Kv.GraphJson g)
                 /\ generate owner repo repoUrl branch force w = (Ret (with_locks g l), w0))).
Proof.
  destruct steady as [Hfault Hhead Htree Hlocks].
  unfold generate, mbind, M_bind, getRepoHead, call. rewrite Hhead. cbv beta iota zeta.
  destruct force.
  - unfold mret, M_ret. eexists. split; [|left; reflexivity]. reflexivity.
  - unfold kv_get, kv_command. rewrite Hfault. cbv beta iota zeta.
    cbn [store logged with_store].
    destruct (bool_decide _) eqn:Hmeta.
    + apply bool_decide_eq_true in Hmeta.
      unfold getCached, mbind, M_bind, kv_get, kv_command. rewrite Hfault.
      cbv beta iota zeta. cbn [store logged with_store].
      destruct (Kv.strings (store w) !! graph (getKeys repoUrl branch)) as [[s|g]|] eqn:Hgraph.
      * unfold mret, M_ret. eexists. split; [|left; reflexivity]. reflexivity.
      * unfold try_catch, mbind, M_bind, getLocks, call. rewrite Hlocks.
        unfold mret, M_ret. eexists.
        split; [|right; split; [reflexivity|]; exists g; split; [assumption|]; split; reflexivity].
        reflexivity.
      * unfold mret, M_ret. eexists. split; [|left; reflexivity]. reflexivity.
    + unfold mret, M_ret. eexists. split; [|left; reflexivity]. reflexivity.
Qed.

Hypothesis well_formed : WellFormed tree.

(** From a store that holds a build of the tree, [generate] returns the
    graph of that build and leaves such a build in the store. *)
Lemma generate_built (force : bool) (w : World) (g : DependencyGraph) :
  Kv.text_of (Kv.strings (store w) !! meta (getKeys repoUrl branch)) = Some c ->
  Kv.strings (store w) !! graph (getKeys repoUrl branch) = Some (Kv.GraphJson g) ->
  Built repoUrl branch c tree (store w) g ->
  exists g2 w2,
    generate owner repo repoUrl branch force w = (Ret g2, w2)
    /\ sameGraph (with_locks g l) g2.
Proof.
  intros Hmeta Hgraph Hbuilt.
  destruct (generate_run force w) as (w0 & Hstore & [Hrun|(_ & g' & _ & Hgraph' & Hrun)]).
  - destruct (rebuild_run owner repo repoUrl branch c tree l steady w0)
      as (st & t & w' & Hre & _ & Hnone & _). cbv zeta in Hnone.
    rewrite Hstore, Hgraph, (built_shas _ _ _ _ _ _ Hbuilt) in Hnone.
    destruct well_formed as [Hnd Hsha].
    rewrite (plan_built _ _ Hnd Hsha (built_nonempty _ _ _ _ _ _ Hbuilt)) in Hnone.
    destruct (Hnone eq_refl) as (Hn & He & _). simpl in Hn, He.
    exists (with_locks (graphOf st c t) l), w'. split; [congruence|].
    unfold sameGraph, with_locks, graphOf. simpl. rewrite Hn, He.
    rewrite (sort_sorted_id _ (nodes g)) by (exact (built_nodes _ _ _ _ _ _ Hbuilt)).
    rewrite (sort_sorted_id _ (edges g)) by (exact (built_edges _ _ _ _ _ _ Hbuilt)).
    repeat split.
    + exact (built_version _ _ _ _ _ _ Hbuilt).
    + exact (built_count _ _ _ _ _ _ Hbuilt).
  - rewrite Hgraph in Hgraph'. injection Hgraph' as <-.
    exists (with_locks g l), w0. split; [assumption|]. repeat split.
Qed.

End BuilderInvariant.

Section BuilderClaims.
Import Graph GraphService GraphSpec.
Context `{Env} `{Collation}.

(** C9 (as amended): with a repository host and a store that answer, a
    well-formed tree and a store that is coherent (as the empty store is,
    and as [generate] leaves it), [generate] on the remote head [c]
    returns a graph whose version is [c], whose nodes are sorted by [id]
    and whose edges are sorted by [source], then [target]. Generating
    again on the same commit and tree, forced or not, returns the same
    nodes, edges, locks, version and edge count: the graph is the same up
    to [metadata.generated_at] and [metadata.files_processed]. *)
Theorem generate_version_sorted_idempotent
    (owner repo repoUrl branch c : string) (tree : list TreeItem)
    (l : gmap string Locks.LockEntry) (force1 : bool) (w : World) :
  Steady owner repo repoUrl branch c tree l ->
  WellFormed tree ->
  Coherent repoUrl branch c tree (store w) ->
  exists g1 w1,
    generate owner repo repoUrl branch force1 w = (Ret g1, w1)
    /\ version g1 = c
    /\ nodesSorted (nodes g1)
    /\ edgesSorted (edges g1)
    /\ Coherent repoUrl branch c tree (store w1)
    /\ forall force2,
         exists g2 w2,
           generate owner repo repoUrl branch force2 w1 = (Ret g2, w2)
           /\ sameGraph g1 g2.
Proof.
  intros Hsteady Hwf Hcoh.
  destruct (generate_run owner repo repoUrl branch c tree l Hsteady force1 w)
    as (w0 & Hstore & [Hrun|(_ & g & Hmeta & Hgraph & Hrun)]).
  - destruct (rebuild_run owner repo repoUrl branch c tree l Hsteady w0)
      as (st & t & w1 & Hre & Hstore1 & _ & Hne). cbv zeta in Hstore1, Hne.
    destruct (commit_built repoUrl branch c tree (store w0) st t Hne)
      as (Hmeta1 & Hgraph1 & Hbuilt1).
    rewrite <- Hstore1 in Hmeta1, Hgraph1, Hbuilt1.
    exists (with_locks (graphOf st c t) l), w1.
    split; [congruence|]. split; [reflexivity|].
    split; [exact (built_nodes _ _ _ _ _ _ Hbuilt1)|].
    split; [exact (built_edges _ _ _ _ _ _ Hbuilt1)|]. split.
    + intros g' _ Hg'. rewrite Hgraph1 in Hg'. injection Hg' as <-. exact Hbuilt1.
    + intros force2.
      exact (generate_built owner repo repoUrl branch c tree l Hsteady Hwf force2 w1 _
               Hmeta1 Hgraph1 Hbuilt1).
  - pose proof (Hcoh g Hmeta Hgraph) as Hbuilt.
    exists (with_locks g l), w0. split; [assumption|].
    split; [exact (built_version _ _ _ _ _ _ Hbuilt)|].
    split; [exact (built_nodes _ _ _ _ _ _ Hbuilt)|].
    split; [exact (built_edges _ _ _ _ _ _ Hbuilt)|]. split.
    + now rewrite Hstore.
    + intros force2. rewrite <- Hstore in Hmeta, Hgraph, Hbuilt.
      exact (generate_built owner repo repoUrl branch c tree l Hsteady Hwf force2 w0 _
               Hmeta Hgraph Hbuilt).
Qed.

End BuilderClaims.

(** C9, the claim as stated fails: a forced re-build on the same commit
    and tree returns the same nodes and edges but another
    [metadata.files_processed] (0, no file being visited again, where the
    first build had 2), so the two graphs differ in more than
    [metadata.generated_at]. *)
Lemma generate_forced_rebuild_metadata :
  exists g1 w1 g2 w2,
    @GraphService.generate (Sample.env GraphSpec.twoFiles) Sample.collation
       "test" "repo" "https://github.com/a/b" "main" false Sample.start = (Ret g1, w1)
    /\ @GraphService.generate (Sample.env GraphSpec.twoFiles) Sample.collation
         "test" "repo" "https://github.com/a/b" "main" true w1 = (Ret g2, w2)
    /\ Graph.nodes g1 = Graph.nodes g2
    /\ Graph.edges g1 = Graph.edges g2
    /\ Graph.version g1 = Graph.version g2
    /\ Graph.files_processed (Graph.metadata g1) = 2
    /\ Graph.files_processed (Graph.metadata g2) = 0.
Proof.
  do 4 eexists. split; [vm_compute; reflexivity|]. split; [vm_compute; reflexivity|].
  repeat split.
Qed.

Lemma generate_version_sorted_idempotent_witness :
  exists g1 w1,
    @GraphService.generate (Sample.env GraphSpec.twoFiles) Sample.collation
       "test" "repo" "https://github.com/a/b" "main" false Sample.start = (Ret g1, w1)
    /\ Graph.version g1 = "c1"
    /\ forall force2,
         exists g2 w2,
           @GraphService.generate (Sample.env GraphSpec.twoFiles) Sample.collation
              "test" "repo" "https://github.com/a/b" "main" force2 w1 = (Ret g2, w2)
           /\ GraphSpec.sameGraph g1 g2.
Proof.
  destruct (generate_version_sorted_idempotent
              (H := Sample.env GraphSpec.twoFiles) (H0 := Sample.collation)
              "test" "repo" "https://github.com/a/b" "main" "c1"
              (Sample.tree GraphSpec.twoFiles) ∅ false Sample.start)
    as (g1 & w1 & Hrun & Hversion & _ & _ & _ & Hagain).
  - constructor; intros; reflexivity.
  - split.
    + apply (bool_decide_unpack _). vm_compute. exact I.
    + apply Forall_forall. vm_compute. repeat constructor; discriminate.
  - intros g Hmeta. discriminate.
  - exists g1, w1. auto.
Defined.

(** ** Strings *)

Lemma string_app_cons (c : ascii) (s t : string) : String c s +:+ t = String c (s +:+ t).
Proof. reflexivity. Qed.

Lemma string_app_nil_r (s : string) : s +:+ "" = s.
Proof.
  induction s as [|c s IH]; [reflexivity|]. now rewrite string_app_cons, IH.
Qed.

Lemma string_app_assoc (a b c : string) : (a +:+ b) +:+ c = a +:+ (b +:+ c).
Proof.
  induction a as [|x a IH]; [reflexivity|]. now rewrite !string_app_cons, IH.
Qed.

Lemma rev_app_spec (s acc : string) : String.rev_app s acc = String.rev s +:+ acc.
Proof.
  unfold String.rev. revert acc. induction s as [|c s IH]; intros acc; simpl; [reflexivity|].
  rewrite (IH (String c "")), (IH (String c acc)), string_app_assoc. reflexivity.
Qed.

Lemma string_rev_cons (c : ascii) (s : string) :
  String.rev (String c s) = String.rev s +:+ String c "".
Proof. unfold String.rev at 1. simpl. apply rev_app_spec. Qed.

Lemma string_rev_app (a b : string) : String.rev (a +:+ b) = String.rev b +:+ String.rev a.
Proof.
  induction a as [|c a IH].
  - change ("" +:+ b) with b. change (String.rev "") with "". now rewrite string_app_nil_r.
  - rewrite string_app_cons, !string_rev_cons, IH, string_app_assoc. reflexivity.
Qed.

Lemma string_rev_involutive (s : string) : String.rev (String.rev s) = s.
Proof.
  induction s as [|c s IH]; [reflexivity|].
  rewrite string_rev_cons, string_rev_app, IH. reflexivity.
Qed.

(** ** [String.prototype.trim] *)

Lemma trimStart_split (s : string) : exists spaces, s = spaces +:+ trimStart s.
Proof.
  induction s as [|c s [sp IH]]; simpl.
  - exists "". reflexivity.
  - destruct (is_space c).
    + exists (String c sp). rewrite string_app_cons. now rewrite <- IH.
    + exists "". reflexivity.
Qed.

Lemma trimStart_length (s : string) : String.length (trimStart s) <= String.length s.
Proof.
  induction s as [|c s IH]; simpl; [lia|]. destruct (is_space c); simpl; lia.
Qed.

Lemma trimStart_idempotent (s : string) : trimStart (trimStart s) = trimStart s.
Proof.
  induction s as [|c s IH]; simpl; [reflexivity|].
  destruct (is_space c) eqn:Hc; [exact IH|]. simpl. now rewrite Hc.
Qed.

(** A string that [trimStart] leaves alone keeps that property when
    characters are removed from its end. *)
Lemma trimStart_prefix (a b : string) :
  trimStart (a +:+ b) = a +:+ b -> trimStart a = a.
Proof.
  destruct a as [|c a]; [reflexivity|]. rewrite string_app_cons. simpl.
  destruct (is_space c); [|reflexivity].
  intros Heq. pose proof (trimStart_length (a +:+ b)) as Hlen.
  rewrite Heq in Hlen. simpl in Hlen. lia.
Qed.

Lemma trim_idempotent (s : string) : trim (trim s) = trim s.
Proof.
  unfold trim.
  set (t := trimStart s).
  set (u := trimStart (String.rev t)).
  assert (Ht : trimStart t = t) by apply trimStart_idempotent.
  assert (Hu : trimStart (String.rev u) = String.rev u).
  { destruct (trimStart_split (String.rev t)) as [sp Hsp]. fold u in Hsp.
    apply (f_equal String.rev) in Hsp.
    rewrite string_rev_involutive, string_rev_app in Hsp.
    rewrite Hsp in Ht. exact (trimStart_prefix _ _ Ht). }
  rewrite Hu, string_rev_involutive.
  unfold u. now rewrite trimStart_idempotent.
Qed.

(** ** Decimal numerals *)

Section Numerals.
Import Numeral.

Lemma pretty_N_char_colon (x : N) : pretty_N_char x <> colon.
Proof. unfold pretty_N_char. repeat case_match; discriminate. Qed.

Lemma pretty_N_go_colonFree (x : N) (s : string) : colonFree s -> colonFree (pretty_N_go x s).
Proof.
  revert s. induction (N.lt_wf_0 x) as [x _ IH]; intros s Hs.
  destruct (decide (x = 0%N)) as [->|Hx]; [now rewrite pretty_N_go_0|].
  rewrite pretty_N_go_step by lia. apply IH.
  - apply N.div_lt; lia.
  - split; [apply pretty_N_char_colon | exact Hs].
Qed.

Lemma pretty_nat_colonFree (n : nat) : colonFree (pretty n).
Proof.
  unfold pretty, pretty_nat, pretty, pretty_N.
  destruct (decide _); [simpl; split; [discriminate | exact I]|].
  apply pretty_N_go_colonFree. exact I.
Qed.

Lemma colonFree_app (a b : string) : colonFree (a +:+ b) <-> colonFree a /\ colonFree b.
Proof.
  induction a as [|c a IH]; [simpl; tauto|]. rewrite string_app_cons. simpl. rewrite IH. tauto.
Qed.

Lemma colonFree_rev (s : string) : colonFree s -> colonFree (String.rev s).
Proof.
  induction s as [|c s IH]; simpl; [auto|]. intros [Hc Hs].
  rewrite string_rev_cons. apply colonFree_app. simpl. auto.
Qed.

(** Two texts that agree up to and after their first colon. *)
Lemma colon_split (a b x y : string) :
  colonFree a -> colonFree b ->
  a +:+ String colon x = b +:+ String colon y -> a = b.
Proof.
  revert b. induction a as [|c a IH]; intros [|d b]; rewrite ?string_app_cons;
    change ("" +:+ String colon x) with (String colon x);
    change ("" +:+ String colon y) with (String colon y); simpl; intros Ha Hb Heq.
  - reflexivity.
  - injection Heq as Hc _. destruct Hb as [Hd _]. congruence.
  - injection Heq as Hc _. destruct Ha as [Hd _]. congruence.
  - injection Heq as -> Heq. f_equal. apply IH; tauto.
Qed.

(** A decimal numeral at the end of a text, after a colon, is determined
    by the text. *)
Lemma numeral_suffix_inj (f g : string) (i j : nat) :
  f +:+ ":" +:+ pretty i = g +:+ ":" +:+ pretty j -> i = j.
Proof.
  intros Heq. apply (f_equal String.rev) in Heq.
  rewrite !string_rev_app in Heq. change (String.rev ":") with (String colon "") in Heq.
  rewrite !string_app_assoc in Heq. rewrite !string_app_cons in Heq.
  change ("" +:+ String.rev f) with (String.rev f) in Heq.
  change ("" +:+ String.rev g) with (String.rev g) in Heq.
  apply colon_split in Heq; [|apply colonFree_rev, pretty_nat_colonFree ..].
  apply (f_equal String.rev) in Heq. rewrite !string_rev_involutive in Heq.
  now apply pretty_nat_inj in Heq.
Qed.

End Numerals.

(** ** check_status: every request *)

Section CheckStatusEdges.
Import Route CheckStatus CheckStatusAnswers.
Context `{Env} `{Validation}.

(** X1: [check_status] answers a request that fails validation (a
    required field is missing, or [repo_url], [branch] or [agent_head]
    is not a non-empty string, or [file_paths] has no path) with 400
    "Missing required fields" before it calls any collaborator: the world
    is left as it was. A body that is not JSON is answered with 500, the
    message of the parse error being the details. *)
Theorem check_status_rejects_before_any_call (request : Request) (w : World) :
  (forall raw, json request = Ret raw -> Rejected raw ->
     POST request w = (Ret (respond_with 400 (ErrorPayload "Missing required fields")), w))
  /\ (forall m, json request = Throw (JsError m) ->
        POST request w = (Ret (respond_with 500 (InternalError "Internal server error" m)), w)).
Proof.
  split.
  - intros raw Hjson Hrej. unfold POST, try_catch, mbind, M_bind, lift. rewrite Hjson.
    cbv beta iota zeta. unfold Rejected in Hrej. cbv zeta in Hrej.
    destruct (getMissingFields _ _) as [|x xs]; [|reflexivity].
    change (negb (length (@nil string) =? 0)%nat) with false. cbv iota.
    destruct (isNonEmptyString (get_field _ "repo_url")) eqn:Hr; [|reflexivity].
    destruct (isNonEmptyString (get_field _ "branch")) eqn:Hb; [|reflexivity].
    destruct (isNonEmptyString (get_field _ "agent_head")) eqn:Ha; [|reflexivity].
    destruct (normalizeFilePaths _) as [[|f fs]|] eqn:Hf; try reflexivity.
    exfalso. destruct Hrej as [Hm|[?|[?|[?|[?|?]]]]]; congruence.
  - intros m Hjson. unfold POST, try_catch, mbind, M_bind, lift. rewrite Hjson. reflexivity.
Qed.

End CheckStatusEdges.

Section ReadOnly.
Import Route CheckStatus CheckStatusAnswers.
Context `{Env} `{Validation}.

Lemma getCached_reads (repoUrl branch : string) (w : World) :
  exists o w' calls,
    GraphService.getCached repoUrl branch w = (o, w')
    /\ store w' = store w
    /\ log w' = (log w ++ calls)%list /\ Forall isRead calls.
Proof.
  unfold GraphService.getCached, mbind, M_bind, kv_get, kv_command.
  destruct (kvFault w) as [e|].
  - do 3 eexists. split; [reflexivity|]. split; [reflexivity|].
    split; [reflexivity|]. repeat constructor.
  - cbv beta iota zeta.
    destruct (Kv.strings (store w) !! _) as [[s|g]|].
    + do 3 eexists. split; [reflexivity|]. split; [destruct w; reflexivity|].
      split; [reflexivity|]. repeat constructor.
    + unfold try_catch, mbind, M_bind, getLocks, call.
      destruct (currentLocks _ repoUrl branch) as [l|e].
      * do 3 eexists. split; [reflexivity|]. split; [destruct w; reflexivity|].
        split; [simpl; rewrite <- app_assoc; reflexivity|]. repeat constructor.
      * do 3 eexists. split; [reflexivity|]. split; [destruct w; reflexivity|].
        split; [simpl; rewrite <- app_assoc; reflexivity|]. repeat constructor.
    + do 3 eexists. split; [reflexivity|]. split; [destruct w; reflexivity|].
      split; [reflexivity|]. repeat constructor.
Qed.

Lemma onError_wellFormed (e : Exn) : wellFormed (onError e).
Proof. destruct e; unfold wellFormed; simpl; auto. Qed.

(** X2: [check_status] never rejects: whatever the request and whatever
    its collaborators do, it returns a response, whose status is 200 for
    a status payload, 400 for "Missing required fields", 429 for "GitHub
    API rate limit exceeded" and 500 for "Internal server error". It
    leaves the store as it was, and every call it makes is a read: of the
    head of the branch, of the locks, or of a stored value. *)
Theorem check_status_always_answers (request : Request) (w : World) :
  exists resp w' calls,
    POST request w = (Ret resp, w')
    /\ wellFormed resp
    /\ store w' = store w
    /\ log w' = (log w ++ calls)%list /\ Forall isRead calls.
Proof.
  assert (Hnil : forall r, wellFormed r ->
            exists resp w' calls, (Ret r, w) = (Ret resp, w') /\ wellFormed resp
              /\ store w' = store w /\ log w' = (log w ++ calls)%list /\ Forall isRead calls).
  { intros r Hr. exists r, w, []. rewrite app_nil_r. repeat split; auto. }
  unfold POST, try_catch, mbind, M_bind, lift.
  destruct (json request) as [raw|e]; [|apply Hnil, onError_wellFormed].
  cbv beta iota zeta.
  destruct (negb _); [apply Hnil; unfold wellFormed; simpl; auto|].
  destruct (isNonEmptyString (get_field _ "repo_url")) as [repoUrl|]; [|apply Hnil; unfold wellFormed; simpl; auto].
  destruct (isNonEmptyString (get_field _ "branch")) as [branch|]; [|apply Hnil; unfold wellFormed; simpl; auto].
  destruct (isNonEmptyString (get_field _ "agent_head")) as [agentHead|]; [|apply Hnil; unfold wellFormed; simpl; auto].
  destruct (normalizeFilePaths _) as [[|f fs]|]; try (apply Hnil; unfold wellFormed; simpl; auto).
  destruct (parseRepoUrl repoUrl) as [[owner repo]|e]; [|apply Hnil, onError_wellFormed].
  unfold getRepoHeadCached, getLocks, call. cbv beta iota zeta.
  destruct (repoHead w owner repo branch) as [head|e].
  2:{ do 3 eexists. split; [reflexivity|]. split; [apply onError_wellFormed|].
      split; [reflexivity|]. split; [reflexivity|]. repeat constructor. }
  cbv beta iota zeta.
  destruct (currentLocks _ repoUrl branch) as [allLocks|e].
  2:{ do 3 eexists. split; [reflexivity|]. split; [apply onError_wellFormed|].
      split; [reflexivity|]. split; [simpl; rewrite <- app_assoc; reflexivity|]. repeat constructor. }
  cbv beta iota zeta.
  match goal with
  | |- context [GraphService.getCached repoUrl branch ?w0] =>
      destruct (getCached_reads repoUrl branch w0) as (o & w1 & calls & Hrun & Hstore & Hlog & Hreads);
      rewrite Hrun
  end.
  destruct o as [[g|]|e]; cbv beta iota zeta; unfold mret, M_ret;
    (do 3 eexists; split; [reflexivity|]; split; [unfold wellFormed; reflexivity|];
     split; [exact Hstore|]; split; [rewrite Hlog; simpl; rewrite <- !app_assoc; reflexivity|];
     repeat constructor; exact Hreads).
Qed.

End ReadOnly.

Section CheckStatusVerdict.
Import Route CheckStatus GraphCacheSpec CheckStatusSpec.
Context `{Env} `{Validation}.

(** X3: when the [agent_head] of a served [check_status] request is the
    remote head, the response carries no warning. If every returned lock
    belongs to the caller the status is [OK] and the action [PROCEED],
    with an empty reason; if some returned lock belongs to someone else
    the status is [CONFLICT] and the action [SWITCH_TASK], the reason
    naming the path, the holder and the type of such a lock. *)
Theorem check_status_current_verdict
    request w repoUrl branch filePaths head allLocks w' :
  Served request w repoUrl branch head filePaths head allLocks w' ->
  exists status locks orchestration,
    fst (POST request w)
    = Ret {| http_status := 200;
             payload := StatusPayload status head locks [] orchestration |}
    /\ ((forall p l, obj_get locks p = Some l ->
                     Locks.user_id (lock l) = requestingUser request) ->
        status = OK
        /\ orchestration
           = {| action := PROCEED; command := None; reason := ""; metadata := None |})
    /\ ((exists p l, obj_get locks p = Some l
                     /\ Locks.user_id (lock l) <> requestingUser request) ->
        status = CONFLICT
        /\ action orchestration = SWITCH_TASK
        /\ command orchestration = None
        /\ exists p l,
             obj_get locks p = Some l
             /\ Locks.user_id (lock l) <> requestingUser request
             /\ reason orchestration
                = "File '" +:+ p +:+ "' is locked by " +:+ Locks.user_name (lock l)
                  +:+ " (" +:+ lockTypeName (lock_type l) +:+ ")").
Proof.
  intros Hs. apply check_status_served in Hs. cbv zeta in Hs.
  rewrite bool_decide_eq_true_2 in Hs by reflexivity. simpl negb in Hs. cbv iota in Hs.
  do 3 eexists. split; [exact Hs|]. split.
  - intros Hown. apply conflictingLocks_empty in Hown. rewrite Hown. split; reflexivity.
  - intros (p & l & Hget & Hother).
    destruct (conflictingLocksOf _ _) as [|[q k] rest] eqn:Hc.
    + exfalso. apply Hother. exact (proj1 (conflictingLocks_empty _ _ _ _) Hc p l Hget).
    + split; [reflexivity|]. split; [reflexivity|]. split; [reflexivity|].
      assert (Hin : In (q, k) (conflictingLocksOf (requestingUser request)
                (returnedLocks allLocks filePaths (cachedEdges repoUrl branch w'))))
        by (rewrite Hc; now left).
      unfold conflictingLocksOf in Hin. apply filter_In in Hin as [Hin Hk].
      apply (proj1 (entries_In _ _)) in Hin.
      apply NoDup_obj_get in Hin; [|apply returnedLocks_NoDup].
      simpl in Hk. apply negb_true_iff, bool_decide_eq_false in Hk.
      exists q, k. split; [exact Hin|]. split; [exact Hk | reflexivity].
Qed.

End CheckStatusVerdict.

Lemma check_status_current_verdict_witness :
  exists locks orchestration,
    fst (@CheckStatus.POST (Sample.env (Scenarios.locked [("src/dep.ts", "user-1")]))
           Sample.validation Scenarios.withNeighbour Scenarios.cachedWorld)
    = Ret {| CheckStatus.http_status := 200;
             CheckStatus.payload :=
               CheckStatus.StatusPayload CheckStatus.CONFLICT "remote-head" locks []
                 orchestration |}
    /\ Route.reason orchestration = "File 'src/dep.ts' is locked by user-1 (NEIGHBOR)".
Proof.
  destruct (check_status_current_verdict
              (H := Sample.env (Scenarios.locked [("src/dep.ts", "user-1")]))
              (H0 := Sample.validation)
              Scenarios.withNeighbour Scenarios.cachedWorld
              Scenarios.repoUrl "main" ["src/a.ts"] "remote-head"
              (list_to_map [("src/dep.ts", Sample.lockOf "src/dep.ts" "user-1")])
              _ ltac:(serve))
    as (status & locks & orchestration & Hrun & _ & Hconflict).
  assert (Hother : exists p l, obj_get locks p = Some l
            /\ Locks.user_id (CheckStatus.lock l)
               <> CheckStatus.requestingUser Scenarios.withNeighbour).
  { vm_compute in Hrun. injection Hrun as <- <- <-.
    exists "src/dep.ts". eexists. split; [vm_compute; reflexivity | vm_compute; discriminate]. }
  destruct (Hconflict Hother) as (-> & _ & _ & p & l & Hget & _ & Hreason).
  exists locks, orchestration. split; [exact Hrun|].
  vm_compute in Hrun. injection Hrun as <- <-. vm_compute. reflexivity.
Defined.

Lemma check_status_rejects_before_any_call_witness :
  @CheckStatus.POST (Sample.env Sample.quiet) Sample.validation
     MoreScenarios.emptyBody Sample.start
  = (Ret (CheckStatus.respond_with 400 (CheckStatus.ErrorPayload "Missing required fields")),
     Sample.start).
Proof.
  apply (proj1 (check_status_rejects_before_any_call
                  (H := Sample.env Sample.quiet) (H0 := Sample.validation)
                  MoreScenarios.emptyBody Sample.start) (JObject [])).
  - reflexivity.
  - left. vm_compute. discriminate.
Defined.

(** ** post_status: every request *)

Ltac enter_post_status Hs filePaths :=
  let raw := fresh "raw" in
  let owner := fresh "owner" in
  let repo := fresh "repo" in
  destruct Hs as [(raw & Hjson & Hmiss & Hrepo & Hbranch & Hmsg & Hstatus & Hpaths & Hagent & Hnew)
                  Hne (owner & repo & Hparse & Hrh & ->)];
  unfold PostStatus.POST, try_catch, mbind, M_bind, lift; rewrite Hjson; cbv beta iota zeta;
  rewrite Hmiss; change (negb (length (@nil string) =? 0)%nat) with false; cbv beta iota zeta;
  rewrite Hrepo, Hbranch, Hmsg, Hstatus, Hpaths; rewrite ?Hagent, ?Hnew;
  destruct filePaths as [|?f ?fs]; [congruence|];
  rewrite Hparse; unfold getRepoHeadCached, call; cbv beta iota zeta;
  rewrite Hrh; cbv beta iota zeta.

Section PostStatusEdges.
Import Route PostStatus GraphCacheSpec PostStatusSpec PostStatusAnswers.
Context `{Env} `{Validation}.

(** X4: [post_status] answers a request that fails validation (a
    required field is missing, or [repo_url], [branch] or [message] is
    not a non-empty string, or [status] is not one of the three, or
    [file_paths] has no path) with 400 "Missing required fields" before it
    calls any collaborator. A body that is not JSON is answered with 500. *)
Theorem post_status_rejects_before_any_call (request : Request) (w : World) :
  (forall raw, json request = Ret raw -> Rejected raw ->
     POST request w = (Ret (respond_with 400 (ErrorPayload "Missing required fields")), w))
  /\ (forall m, json request = Throw (JsError m) ->
        POST request w = (Ret (respond_with 500 (InternalError "Internal server error" m)), w)).
Proof.
  split.
  - intros raw Hjson Hrej. unfold POST, try_catch, mbind, M_bind, lift. rewrite Hjson.
    cbv beta iota zeta. unfold Rejected in Hrej. cbv zeta in Hrej.
    destruct (getMissingFields _ _) as [|x xs]; [|reflexivity].
    change (negb (length (@nil string) =? 0)%nat) with false. cbv iota.
    destruct (isNonEmptyString (get_field _ "repo_url")) eqn:Hr; [|reflexivity].
    destruct (isNonEmptyString (get_field _ "branch")) eqn:Hb; [|reflexivity].
    destruct (isNonEmptyString (get_field _ "message")) eqn:Hm; [|reflexivity].
    destruct (parseCoordinationStatus _) eqn:Hs; [|reflexivity].
    destruct (normalizeFilePaths _) as [[|f fs]|] eqn:Hf; try reflexivity.
    exfalso. destruct Hrej as [?|[?|[?|[?|[?|[?|?]]]]]]; congruence.
  - intros m Hjson. unfold POST, try_catch, mbind, M_bind, lift. rewrite Hjson. reflexivity.
Qed.

(** X5: a served [WRITING] request is not taken to the lock registry
    unless it states the remote head: without a non-empty [agent_head]
    it is answered 400 "Missing required fields", and with another head
    than the remote one it is answered, with status 200, [success: false]
    and the action [PULL], the metadata giving the remote head and the
    head of the caller. In both cases the head of the branch has been
    fetched and nothing else been called. *)
Theorem post_status_writing_guard
    request w repoUrl branch message filePaths agentHead newRepoHead head w' :
  Served request w repoUrl branch message WRITING filePaths agentHead newRepoHead head w' ->
  (isNonEmptyString agentHead = None ->
   POST request w = (Ret (respond_with 400 (ErrorPayload "Missing required fields")), w'))
  /\ (forall local, isNonEmptyString agentHead = Some local -> local <> head ->
      POST request w
      = (Ret (respond (ReplyPayload (verdict false
           {| action := PULL; command := Some "git pull --rebase";
              reason := "Your local repo is behind remote";
              metadata := Some (head, local) |}))), w')).
Proof.
  intros Hs. split.
  - intros Hnone. enter_post_status Hs filePaths. rewrite Hnone. reflexivity.
  - intros local Hlocal Hstale. enter_post_status Hs filePaths. rewrite Hlocal.
    rewrite bool_decide_eq_false_2 by assumption. reflexivity.
Qed.

(** X6: a served [WRITING] request on the remote head makes one call to
    [acquireLocks], for the requested files, in the name of the caller
    and with its message, and the reply mirrors the answer: the locks and
    [PROCEED] when they are acquired; [success: false] and [SWITCH_TASK]
    with the reason "<reason>: <file> locked by <user>", still with
    status 200, when they are not; 429 or 500 when the registry throws. *)
Theorem post_status_writing_acquires
    request w repoUrl branch message filePaths agentHead newRepoHead head w' :
  Served request w repoUrl branch message WRITING filePaths agentHead newRepoHead head w' ->
  isNonEmptyString agentHead = Some head ->
  let input := acquisition request repoUrl branch message filePaths head in
  snd (POST request w) = logged (CAcquireLocks input) w'
  /\ (forall acquired, acquire w' input = Ret (Locks.Acquired acquired) ->
        fst (POST request w)
        = Ret (respond (ReplyPayload
            {| success := true; locks := Some acquired; orphaned_dependencies := None;
               orchestration := {| action := PROCEED; command := None;
                                   reason := "Locks acquired successfully";
                                   metadata := None |} |})))
  /\ (forall why file holder,
        acquire w' input = Ret (Locks.NotAcquired why file holder) ->
        fst (POST request w)
        = Ret (respond (ReplyPayload (verdict false
            {| action := SWITCH_TASK; command := None;
               reason := why +:+ ": " +:+ shown file +:+ " locked by " +:+ shown holder;
               metadata := None |}))))
  /\ (forall e, acquire w' input = Throw e -> fst (POST request w) = Ret (onError e)).
Proof.
  intros Hs Hhead. cbv zeta. enter_post_status Hs filePaths. rewrite Hhead.
  rewrite bool_decide_eq_true_2 by reflexivity. change (negb true) with false.
  unfold acquireLocks, call, acquisition. cbv beta iota zeta.
  destruct (acquire _ _) as [[acquired|why cf cu]|e]; simpl;
    (split; [reflexivity|]); (split; [|split]); intros; try discriminate;
    match goal with Heq : _ = _ |- _ => inversion Heq; subst; reflexivity end.
Qed.

(** X7: a served [OPEN] request that needs no push calls [releaseLocks]
    once, for the requested files and the caller, before anything else,
    and does not look at what the call returns: whatever the result, also
    one that reports a failure, the reply is [success: true] with
    [PROCEED] and the orphaned dependencies. Only an exception of the
    release is reported (429 or 500), the graph cache not being read then. *)
Theorem post_status_open_ignores_release_result
    request w repoUrl branch message filePaths agentHead newRepoHead head w' :
  Served request w repoUrl branch message OPEN filePaths agentHead newRepoHead head w' ->
  pushNeeded newRepoHead agentHead = false ->
  let released_call := CReleaseLocks repoUrl branch filePaths (userId request) in
  (forall r, release w' repoUrl branch filePaths (userId request) = Ret r ->
     exists orphaned w'' calls,
       POST request w = (Ret (respond (ReplyPayload (released orphaned))), w'')
       /\ log w'' = (log w' ++ released_call :: calls)%list
       /\ Forall (fun c => ~ isRelease c) calls)
  /\ (forall e, release w' repoUrl branch filePaths (userId request) = Throw e ->
        POST request w = (Ret (onError e), logged released_call w')).
Proof.
  intros Hs Hpush. cbv zeta. split.
  - intros r Hrel. enter_post_status Hs filePaths. rewrite Hpush.
    unfold releaseLocks, call. cbv beta iota zeta. rewrite Hrel. cbv beta iota zeta.
    unfold GraphService.getCached, mbind, M_bind, kv_get, kv_command, try_catch.
    cbn [store logged with_store log].
    destruct (kvFault _) as [e|].
    + do 3 eexists. split; [reflexivity|]. split; [simpl; rewrite <- app_assoc; reflexivity|].
      repeat constructor; auto.
    + cbv beta iota zeta. cbn [store logged with_store log].
      destruct (Kv.strings (store w) !! _) as [[s|g]|].
      * do 3 eexists. split; [reflexivity|]. split; [simpl; rewrite <- app_assoc; reflexivity|].
        repeat constructor; auto.
      * unfold getLocks, call. destruct (currentLocks _ repoUrl branch) as [l|e];
          (do 3 eexists; split; [reflexivity|];
           split; [simpl; rewrite <- !app_assoc; reflexivity|]; repeat constructor; auto).
      * do 3 eexists. split; [reflexivity|]. split; [simpl; rewrite <- app_assoc; reflexivity|].
        repeat constructor; auto.
  - intros e Hrel. enter_post_status Hs filePaths. rewrite Hpush.
    unfold releaseLocks, call. cbv beta iota zeta. rewrite Hrel. reflexivity.
Qed.

End PostStatusEdges.

Section PostStatusAnswers.
Import Route PostStatus GraphCacheSpec PostStatusSpec PostStatusAnswers.
Context `{Env} `{Validation}.

Lemma post_onError_wellFormed (e : Exn) : wellFormed (onError e).
Proof. destruct e; unfold wellFormed; simpl; auto. Qed.

Lemma getCached_store (repoUrl branch : string) (w : World) :
  store (snd (GraphService.getCached repoUrl branch w)) = store w.
Proof.
  unfold GraphService.getCached, mbind, M_bind, kv_get, kv_command.
  destruct (kvFault w) as [e|]; [reflexivity|]. cbv beta iota zeta.
  destruct (Kv.strings (store w) !! _) as [[s|g]|]; try reflexivity.
  unfold try_catch, mbind, M_bind, getLocks, call.
  destruct (currentLocks _ repoUrl branch); reflexivity.
Qed.

(** X8: [post_status] never rejects: whatever the request and whatever
    its collaborators do, it returns a response. A reply is sent with
    status 200, also when it refuses ([PULL], [SWITCH_TASK]), but for the
    request to push, which is sent with 400 and [success: false]; the
    other statuses are 400 "Missing required fields", 429 and 500. The
    route issues no command that writes to the store. *)
Theorem post_status_always_answers (request : Request) (w : World) :
  exists resp w',
    POST request w = (Ret resp, w') /\ wellFormed resp /\ store w' = store w.
Proof.
  assert (Hnil : forall r w0, wellFormed r -> store w0 = store w ->
            exists resp w', (Ret r, w0) = (Ret resp, w') /\ wellFormed resp
              /\ store w' = store w).
  { intros r w0 Hr Hw. exists r, w0. auto. }
  unfold POST, try_catch, mbind, M_bind, lift.
  destruct (json request) as [raw|e]; [|now apply Hnil; [apply post_onError_wellFormed|]].
  cbv beta iota zeta.
  destruct (negb _); [apply Hnil; unfold wellFormed; simpl; auto|].
  destruct (isNonEmptyString (get_field _ "repo_url")) as [repoUrl|];
    [|apply Hnil; unfold wellFormed; simpl; auto].
  destruct (isNonEmptyString (get_field _ "branch")) as [branch|];
    [|apply Hnil; unfold wellFormed; simpl; auto].
  destruct (isNonEmptyString (get_field _ "message")) as [message|];
    [|apply Hnil; unfold wellFormed; simpl; auto].
  destruct (parseCoordinationStatus _) as [status|];
    [|apply Hnil; unfold wellFormed; simpl; auto].
  destruct (normalizeFilePaths _) as [[|f fs]|]; try (apply Hnil; unfold wellFormed; simpl; auto).
  destruct (parseRepoUrl repoUrl) as [[owner repo]|e];
    [|now apply Hnil; [apply post_onError_wellFormed|]].
  unfold getRepoHeadCached, call. cbv beta iota zeta.
  destruct (repoHead w owner repo branch) as [head|e];
    [|now apply Hnil; [apply post_onError_wellFormed|]].
  cbv beta iota zeta.
  destruct status.
  - destruct (pushNeeded _ _); [apply Hnil; unfold wellFormed; simpl; auto|].
    unfold releaseLocks, call. cbv beta iota zeta.
    destruct (release _ repoUrl branch (f :: fs) _) as [r|e];
      [|now apply Hnil; [apply post_onError_wellFormed|]].
    cbv beta iota zeta.
    match goal with
    | |- context [GraphService.getCached repoUrl branch ?w0] =>
        pose proof (getCached_store repoUrl branch w0) as Hstore;
        destruct (GraphService.getCached repoUrl branch w0) as [[[g|]|e] w1]
    end; cbv beta iota zeta; unfold mret, M_ret;
      (apply Hnil; [unfold wellFormed; simpl; auto | exact Hstore]).
  - apply Hnil; unfold wellFormed; simpl; auto.
  - destruct (isNonEmptyString (get_field _ "agent_head")) as [agentHead|];
      [|apply Hnil; unfold wellFormed; simpl; auto].
    destruct (negb _); [apply Hnil; unfold wellFormed; simpl; auto|].
    unfold acquireLocks, call. cbv beta iota zeta.
    destruct (acquire _ _) as [[acquired|why cf cu]|e];
      [apply Hnil; unfold wellFormed; simpl; auto .. |].
    now apply Hnil; [apply post_onError_wellFormed|].
Qed.

End PostStatusAnswers.

Lemma post_status_rejects_before_any_call_witness :
  @PostStatus.POST (Sample.env Sample.quiet) Sample.validation
     MoreScenarios.emptyBody Sample.start
  = (Ret (PostStatus.respond_with 400 (PostStatus.ErrorPayload "Missing required fields")),
     Sample.start).
Proof.
  apply (proj1 (post_status_rejects_before_any_call
                  (H := Sample.env Sample.quiet) (H0 := Sample.validation)
                  MoreScenarios.emptyBody Sample.start) (JObject [])).
  - reflexivity.
  - left. vm_compute. discriminate.
Defined.

Lemma post_status_writing_guard_witness :
  @PostStatus.POST (Sample.env Sample.quiet) Sample.validation
     MoreScenarios.staleWriting Sample.start
  = (Ret (PostStatus.respond (PostStatus.ReplyPayload (PostStatusAnswers.verdict false
       {| Route.action := Route.PULL; Route.command := Some "git pull --rebase";
          Route.reason := "Your local repo is behind remote";
          Route.metadata := Some ("remote-head", "local-head") |}))),
     logged (CGetRepoHeadCached "test" "repo" "main") Sample.start).
Proof.
  eapply (proj2 (post_status_writing_guard
                   (H := Sample.env Sample.quiet) (H0 := Sample.validation)
                   MoreScenarios.staleWriting Sample.start _ _ _ _ _ _ _ _ ltac:(serve))).
  - reflexivity.
  - discriminate.
Defined.

Lemma post_status_writing_acquires_witness :
  fst (@PostStatus.POST (Sample.env Scenarios.contended) Sample.validation
         Scenarios.writing Sample.start)
  = Ret (PostStatus.respond (PostStatus.ReplyPayload (PostStatusAnswers.verdict false
      {| Route.action := Route.SWITCH_TASK; Route.command := None;
         Route.reason := "FILE_CONFLICT: src/a.ts locked by user2";
         Route.metadata := None |}))).
Proof.
  destruct (post_status_writing_acquires
              (H := Sample.env Scenarios.contended) (H0 := Sample.validation)
              Scenarios.writing Sample.start _ _ _ _ _ _ _ _ ltac:(serve) eq_refl)
    as (_ & _ & Hrefused & _).
  exact (Hrefused "FILE_CONFLICT" (Some "src/a.ts") (Some "user2") eq_refl).
Defined.

Lemma post_status_open_ignores_release_result_witness :
  exists orphaned w' calls,
    @PostStatus.POST (MoreScenarios.refusingRelease (Scenarios.locked [])) Sample.validation
       Scenarios.openAuth Scenarios.authWorld
    = (Ret (PostStatus.respond (PostStatus.ReplyPayload (PostStatusSpec.released orphaned))), w')
    /\ log w'
       = (log (logged (CGetRepoHeadCached "test" "repo" "main") Scenarios.authWorld)
          ++ CReleaseLocks Scenarios.repoUrl "main" ["src/auth.ts"] "agent-user" :: calls)%list
    /\ Forall (fun c => ~ PostStatusSpec.isRelease c) calls.
Proof.
  exact (proj1 (post_status_open_ignores_release_result
                  (H := MoreScenarios.refusingRelease (Scenarios.locked []))
                  (H0 := Sample.validation)
                  Scenarios.openAuth Scenarios.authWorld _ _ _ _ _ _ _ _ ltac:(serve) eq_refl)
               {| Locks.success := false |} eq_refl).
Defined.

(** ** The graph cache and the builder, continued *)

Section CacheReads.
Import Graph GraphService.
Context `{Env} `{Collation}.


(** [get] without regeneration first reads the cache and then, when there
    is a graph in it, the head of the branch and the recorded head. *)
Lemma get_reads (owner repo repoUrl branch c : string) (stored : DependencyGraph)
    (l : gmap string Locks.LockEntry) (w : World) :
  (forall w, kvFault w = None) ->
  (forall w, repoHead w owner repo branch = Ret c) ->
  (forall w, currentLocks w repoUrl branch = Ret l) ->
  Kv.strings (store w) !! graph (getKeys repoUrl branch) = Some (Kv.GraphJson stored) ->
  get owner repo repoUrl branch false w
  = (if bool_decide (Kv.text_of (Kv.strings (store w) !! meta (getKeys repoUrl branch))
                     = Some c)
     then mret (with_locks stored l)
     else generate owner repo repoUrl branch false)
      {| store := store w;
         log := log w ++ [CKvGet (graph (getKeys repoUrl branch)); CGetLocks repoUrl branch;
                          CGetRepoHead owner repo branch;
                          CKvGet (meta (getKeys repoUrl branch))] |}.
Proof.
  intros Hok Hhead Hlocks Hgraph.
  unfold get, getCached, needsUpdate, mbind, M_bind, kv_get, kv_command, try_catch,
    getLocks, getRepoHead, call.
  rewrite Hok. cbv beta iota zeta. cbn [store logged with_store log].
  rewrite Hgraph. rewrite Hlocks. unfold mret, M_ret. cbv beta iota zeta.
  rewrite Hhead. cbv beta iota zeta. rewrite Hok. cbv beta iota zeta.
  cbn [store logged with_store log fst].
  unfold logged, with_store. cbn [store log]. rewrite <- !app_assoc. simpl app.
  destruct (bool_decide _); reflexivity.
Qed.

(** X10: with a store, a host and a lock registry that answer and a
    graph in the cache, [get] without regeneration makes four reads (the
    cached graph, the locks, the head of the branch, the recorded head).
    When the recorded head is the head of the branch it returns the
    cached graph with the current locks and does nothing else: no listing
    of the tree, no fetch of a file, no write. Otherwise it goes on as
    [generate] does. *)
Theorem get_serves_fresh_cache
    (owner repo repoUrl branch c : string) (stored : DependencyGraph)
    (l : gmap string Locks.LockEntry) (w : World) :
  (forall w, kvFault w = None) ->
  (forall w, repoHead w owner repo branch = Ret c) ->
  (forall w, currentLocks w repoUrl branch = Ret l) ->
  Kv.strings (store w) !! graph (getKeys repoUrl branch) = Some (Kv.GraphJson stored) ->
  let reads := [CKvGet (graph (getKeys repoUrl branch)); CGetLocks repoUrl branch;
                CGetRepoHead owner repo branch; CKvGet (meta (getKeys repoUrl branch))] in
  let w' := {| store := store w; log := log w ++ reads |} in
  (Kv.text_of (Kv.strings (store w) !! meta (getKeys repoUrl branch)) = Some c ->
   get owner repo repoUrl branch false w = (Ret (with_locks stored l), w'))
  /\ (Kv.text_of (Kv.strings (store w) !! meta (getKeys repoUrl branch)) <> Some c ->
      get owner repo repoUrl branch false w = generate owner repo repoUrl branch false w').
Proof.
  intros Hok Hhead Hlocks Hgraph. cbv zeta.
  rewrite (get_reads owner repo repoUrl branch c stored l w Hok Hhead Hlocks Hgraph).
  split; intros Hmeta.
  - rewrite bool_decide_eq_true_2 by assumption. reflexivity.
  - rewrite bool_decide_eq_false_2 by assumption. reflexivity.
Qed.

End CacheReads.

Section SortPermutation.
Import GraphService.
Context {A : Type} (cmp : A -> A -> Z).

Lemma insert_sorted_Permutation (x : A) (l : list A) : insert_sorted cmp x l ≡ₚ x :: l.
Proof.
  induction l as [|y l IH]; simpl; [reflexivity|].
  destruct (cmp x y <=? 0)%Z; [reflexivity|].
  rewrite IH. apply perm_swap.
Qed.

Lemma sort_Permutation (l : list A) : sort cmp l ≡ₚ l.
Proof.
  induction l as [|x l IH]; simpl; [reflexivity|].
  rewrite insert_sorted_Permutation. now rewrite IH.
Qed.

Lemma sort_elem (l : list A) (x : A) : x ∈ sort cmp l <-> x ∈ l.
Proof. now rewrite sort_Permutation. Qed.

End SortPermutation.

Section BuilderNodes.
Import Graph GraphService BuilderSpec.
Context `{Env}.

Lemma addNode_spec (file : RepoFile) (ns : list GraphNode) :
  addNode file ns = if decide (path file ∈ map id ns) then ns else (ns ++ [nodeOf file])%list.
Proof.
  unfold addNode. destruct (existsb _ ns) eqn:He.
  - apply existsb_exists in He as (n & Hin & Hn). apply bool_decide_eq_true in Hn.
    destruct (decide _) as [|Hnot]; [reflexivity|]. exfalso. apply Hnot.
    rewrite <- Hn. apply list_elem_of_In, in_map. exact Hin.
  - destruct (decide _) as [Hin|]; [|reflexivity]. exfalso.
    apply list_elem_of_In, in_map_iff in Hin as (n & Hn & Hin).
    assert (Ht : existsb (fun n => bool_decide (id n = path file)) ns = true).
    { apply existsb_exists. exists n. split; [assumption | now apply bool_decide_eq_true]. }
    congruence.
Qed.

Lemma addNode_ids (file : RepoFile) (ns : list GraphNode) (p : string) :
  p ∈ map id (addNode file ns) <-> p ∈ map id ns \/ p = path file.
Proof.
  rewrite addNode_spec. destruct (decide _) as [Hin|Hnot].
  - split; [auto|]. intros [?| ->]; assumption.
  - rewrite map_app, elem_of_app. simpl. rewrite list_elem_of_singleton. reflexivity.
Qed.

Lemma addNode_NoDup (file : RepoFile) (ns : list GraphNode) :
  NoDup (map id ns) -> NoDup (map id (addNode file ns)).
Proof.
  intros Hnd. rewrite addNode_spec. destruct (decide _) as [Hin|Hnot]; [assumption|].
  rewrite map_app. apply NoDup_app. split; [assumption|]. split.
  - intros x Hx Hx'. simpl in Hx'. apply list_elem_of_singleton in Hx'. subst. contradiction.
  - simpl. apply NoDup_singleton.
Qed.

Lemma addNode_elem (file : RepoFile) (ns : list GraphNode) (n : GraphNode) :
  n ∈ addNode file ns -> n ∈ ns \/ n = nodeOf file.
Proof.
  rewrite addNode_spec. destruct (decide _); [auto|].
  rewrite elem_of_app, list_elem_of_singleton. auto.
Qed.

Lemma addImport_edges (filePath : string) (st : Progress) (resolved : option string) :
  pNodes (addImport filePath st resolved) = pNodes st
  /\ processedCount (addImport filePath st resolved) = processedCount st
  /\ (exists added,
        pEdges (addImport filePath st resolved) = (pEdges st ++ added)%list
        /\ Forall (fun e => source e = filePath /\ target e <> "") added)
  /\ (EdgesIndexed st -> EdgesIndexed (addImport filePath st resolved)).
Proof.
  assert (Hsame : pNodes st = pNodes st /\ processedCount st = processedCount st
    /\ (exists added, pEdges st = (pEdges st ++ added)%list
          /\ Forall (fun e => source e = filePath /\ target e <> "") added)
    /\ (EdgesIndexed st -> EdgesIndexed st)).
  { split; [reflexivity|]. split; [reflexivity|].
    split; [exists []; rewrite app_nil_r; split; [reflexivity | constructor]|]. auto. }
  unfold addImport. destruct resolved as [r|]; [|exact Hsame].
  destruct (decide (r = "")) as [|Hr]; [exact Hsame|].
  destruct (bool_decide _) eqn:Hk; [exact Hsame|].
  apply bool_decide_eq_false in Hk. simpl.
  split; [reflexivity|]. split; [reflexivity|]. split.
  - eexists. split; [reflexivity|]. repeat constructor. exact Hr.
  - intros [Hnd Hset]. split.
    + simpl. rewrite map_app. apply NoDup_app. split; [assumption|]. split.
      * intros x Hx Hx'. simpl in Hx'. apply list_elem_of_singleton in Hx'. subst.
        apply Hk, Hset. exact Hx.
      * simpl. apply NoDup_singleton.
    + intros k. simpl. rewrite map_app, elem_of_app, elem_of_union, Hset. simpl.
      rewrite list_elem_of_singleton, elem_of_singleton. tauto.
Qed.

Lemma addImports_edges (filePath : string) (resolved : list (option string)) (st : Progress) :
  let st' := fold_left (addImport filePath) resolved st in
  pNodes st' = pNodes st
  /\ processedCount st' = processedCount st
  /\ (exists added,
        pEdges st' = (pEdges st ++ added)%list
        /\ Forall (fun e => source e = filePath /\ target e <> "") added)
  /\ (EdgesIndexed st -> EdgesIndexed st').
Proof.
  revert st. induction resolved as [|r rs IH]; intros st; simpl.
  - split; [reflexivity|]. split; [reflexivity|].
    split; [exists []; rewrite app_nil_r; split; [reflexivity | constructor]|]. auto.
  - destruct (addImport_edges filePath st r) as (Hn & Hc & (a1 & He1 & Ha1) & Hi1).
    destruct (IH (addImport filePath st r)) as (Hn2 & Hc2 & (a2 & He2 & Ha2) & Hi2).
    cbv zeta in *. split; [congruence|]. split; [congruence|]. split; [|auto].
    exists (a1 ++ a2)%list. split; [rewrite He2, He1, app_assoc; reflexivity|].
    apply Forall_app. auto.
Qed.

(** What processing one file does to the state of the loop. *)
Lemma processFile_step (owner repo c : string) (st : Progress) (file : RepoFile) (w : World) :
  exists st' w',
    processFile owner repo c st file w = (Ret st', w')
    /\ store w' = store w
    /\ pNodes st' = addNode file (pNodes st)
    /\ (exists added,
          pEdges st' = (pEdges st ++ added)%list
          /\ Forall (fun e => source e = path file /\ target e <> "") added)
    /\ (EdgesIndexed st -> EdgesIndexed st')
    /\ processedCount st <= processedCount st' <= S (processedCount st).
Proof.
  unfold processFile, try_catch, mbind, M_bind, octokit_getContent, call.
  assert (Hsame : forall w0, store w0 = store w ->
    exists st' w',
      (Ret {| pNodes := addNode file (pNodes st); pEdges := pEdges st;
              edgeSet := edgeSet st; processedCount := processedCount st |}, w0)
      = (Ret st', w')
      /\ store w' = store w
      /\ pNodes st' = addNode file (pNodes st)
      /\ (exists added,
            pEdges st' = (pEdges st ++ added)%list
            /\ Forall (fun e => source e = path file /\ target e <> "") added)
      /\ (EdgesIndexed st -> EdgesIndexed st')
      /\ processedCount st <= processedCount st' <= S (processedCount st)).
  { intros w0 Hw0. do 2 eexists. split; [reflexivity|]. split; [exact Hw0|].
    split; [reflexivity|]. split; [exists []; rewrite app_nil_r; auto|].
    split; [intros Hi; exact Hi | simpl; lia]. }
  destruct (getContent w owner repo (path file) c) as [[|resolved]|e]; simpl.
  - apply Hsame. reflexivity.
  - destruct (getFileLanguage (path file)); simpl; [|apply Hsame; reflexivity].
    match goal with
    | |- context [fold_left (addImport (path file)) resolved ?st0] =>
        destruct (addImports_edges (path file) resolved st0) as (Hn & Hc & Hadd & Hi)
    end.
    cbv zeta in *. simpl in *.
    do 2 eexists. split; [reflexivity|]. split; [reflexivity|]. simpl.
    split; [exact Hn|]. split; [exact Hadd|]. split; [exact Hi|]. rewrite Hc. lia.
  - apply Hsame. reflexivity.
Qed.

(** What the loop over the files does. *)
Lemma processFiles_steps (owner repo c : string) (files : list RepoFile) (st : Progress)
    (w : World) :
  exists st' w',
    foldM (processFile owner repo c) files st w = (Ret st', w')
    /\ store w' = store w
    /\ pNodes st' = fold_left (fun ns f => addNode f ns) files (pNodes st)
    /\ (exists added,
          pEdges st' = (pEdges st ++ added)%list
          /\ Forall (fun e => source e ∈ map path files /\ target e <> "") added)
    /\ (EdgesIndexed st -> EdgesIndexed st')
    /\ processedCount st <= processedCount st' <= processedCount st + length files.
Proof.
  revert st w. induction files as [|f fs IH]; intros st w; simpl.
  - exists st, w. split; [reflexivity|]. split; [reflexivity|]. split; [reflexivity|].
    split; [exists []; rewrite app_nil_r; auto|]. split; [auto | lia].
  - destruct (processFile_step owner repo c st f w)
      as (st1 & w1 & Hrun & Hstore & Hnodes & (a1 & He1 & Ha1) & Hi1 & Hc1).
    unfold mbind, M_bind. rewrite Hrun.
    destruct (IH st1 w1) as (st2 & w2 & Hrun2 & Hstore2 & Hnodes2 & (a2 & He2 & Ha2) & Hi2 & Hc2).
    exists st2, w2. rewrite Hrun2. split; [reflexivity|]. split; [congruence|].
    split; [rewrite Hnodes2, Hnodes; reflexivity|].
    split; [|split; [auto | lia]].
    exists (a1 ++ a2)%list. split; [rewrite He2, He1, app_assoc; reflexivity|].
    apply Forall_app. split.
    + eapply Forall_impl; [exact Ha1|]. intros e [-> Ht]. split; [apply list_elem_of_here | exact Ht].
    + eapply Forall_impl; [exact Ha2|]. intros e [Hs Ht].
      split; [now apply list_elem_of_further | exact Ht].
Qed.

Lemma addNodes_ids (files : list RepoFile) (ns : list GraphNode) (p : string) :
  p ∈ map id (fold_left (fun ns f => addNode f ns) files ns)
  <-> p ∈ map id ns \/ p ∈ map path files.
Proof.
  revert ns. induction files as [|f fs IH]; intros ns; simpl.
  - split; [auto|]. intros [?|Hin]; [assumption | inversion Hin].
  - rewrite IH, addNode_ids, elem_of_cons. tauto.
Qed.

Lemma addNodes_NoDup (files : list RepoFile) (ns : list GraphNode) :
  NoDup (map id ns) -> NoDup (map id (fold_left (fun ns f => addNode f ns) files ns)).
Proof.
  revert ns. induction files as [|f fs IH]; intros ns Hnd; simpl; [assumption|].
  apply IH, addNode_NoDup, Hnd.
Qed.

Lemma addNodes_elem (files : list RepoFile) (ns : list GraphNode) (n : GraphNode) :
  n ∈ fold_left (fun ns f => addNode f ns) files ns ->
  n ∈ ns \/ exists f, f ∈ files /\ n = nodeOf f.
Proof.
  revert ns. induction files as [|f fs IH]; intros ns; simpl; [auto|].
  intros Hin. apply IH in Hin as [Hin|(f' & Hf' & ->)].
  - apply addNode_elem in Hin as [?| ->]; [auto|]. right. exists f. split; [apply list_elem_of_here | reflexivity].
  - right. exists f'. split; [now apply list_elem_of_further | reflexivity].
Qed.

End BuilderNodes.

Section BuilderPlans.
Import Graph GraphService BuilderSpec.

Lemma plan_without_graph (files : list RepoFile) (storedShas : gmap string string)
    (existing : option Kv.KvString) :
  (forall g, existing <> Some (Kv.GraphJson g)) ->
  plan files storedShas existing
  = {| deletedFiles := deletedFilesOf files storedShas; keptNodes := []; keptEdges := [];
       filesToProcess := files |}.
Proof.
  intros Hno. unfold plan, existingGraph.
  destruct existing as [[s|g]|]; [| exfalso; now apply (Hno g) | reflexivity].
  destruct s as [|a s]; [reflexivity|].
  destruct (deletedFilesOf files storedShas), (changedFilesOf files storedShas); reflexivity.
Qed.

Lemma filter_elem {A} (f : A -> bool) (l : list A) (x : A) :
  x ∈ List.filter f l <-> x ∈ l /\ f x = true.
Proof. rewrite !list_elem_of_In. apply filter_In. Qed.

Lemma plan_kept (files : list RepoFile) (storedShas : gmap string string)
    (existing : option Kv.KvString) :
  let p := plan files storedShas existing in
  (forall n, n ∈ keptNodes p ->
     (exists g, existing = Some (Kv.GraphJson g) /\ n ∈ nodes g)
     /\ id n ∉ deletedFilesOf files storedShas)
  /\ (forall e, e ∈ keptEdges p ->
        (exists g, existing = Some (Kv.GraphJson g) /\ e ∈ edges g)
        /\ (source e ∉ deletedFilesOf files storedShas)
        /\ target e ∉ deletedFilesOf files storedShas)
  /\ (forall f, f ∈ filesToProcess p -> f ∈ files).
Proof.
  cbv zeta. unfold plan.
  assert (Hkept : forall ns es has,
    existingGraph existing (deletedFilesOf files storedShas) (changedFilesOf files storedShas)
    = (ns, es, has) ->
    (forall n, n ∈ ns ->
       (exists g, existing = Some (Kv.GraphJson g) /\ n ∈ nodes g)
       /\ id n ∉ deletedFilesOf files storedShas)
    /\ (forall e, e ∈ es ->
          (exists g, existing = Some (Kv.GraphJson g) /\ e ∈ edges g)
          /\ (source e ∉ deletedFilesOf files storedShas)
          /\ target e ∉ deletedFilesOf files storedShas)).
  { intros ns es has. unfold existingGraph.
    destruct existing as [[s|g]|].
    - destruct s as [|a s]; [intros [= <- <- <-]; split; intros ? Hin; inversion Hin|].
      destruct (deletedFilesOf files storedShas), (changedFilesOf files storedShas);
        intros [= <- <- <-]; split; intros ? Hin; inversion Hin.
    - destruct (deletedFilesOf files storedShas) as [|d ds] eqn:Hd.
      + destruct (changedFilesOf files storedShas) as [|ch chs];
          intros [= <- <- <-]; split.
        * intros n Hn. split; [eauto | apply not_elem_of_nil].
        * intros e He. split; [eauto|]. split; apply not_elem_of_nil.
        * intros n Hn. split; [eauto | apply not_elem_of_nil].
        * intros e He. apply filter_elem in He as [He _].
          split; [eauto|]. split; apply not_elem_of_nil.
      + destruct (changedFilesOf files storedShas) as [|ch chs];
          intros [= <- <- <-]; split.
        * intros n Hn. apply filter_elem in Hn as [Hn Hdel].
          apply negb_true_iff, bool_decide_eq_false in Hdel. split; [eauto | exact Hdel].
        * intros e He. apply filter_elem in He as [He Hdel].
          apply andb_true_iff in Hdel as [Hs Ht].
          apply negb_true_iff, bool_decide_eq_false in Hs, Ht. split; [eauto|]. auto.
        * intros n Hn. apply filter_elem in Hn as [Hn Hdel].
          apply negb_true_iff, bool_decide_eq_false in Hdel. split; [eauto | exact Hdel].
        * intros e He. apply filter_elem in He as [He _].
          apply filter_elem in He as [He Hdel].
          apply andb_true_iff in Hdel as [Hs Ht].
          apply negb_true_iff, bool_decide_eq_false in Hs, Ht. split; [eauto|]. auto.
    - intros [= <- <- <-]; split; intros ? Hin; inversion Hin. }
  destruct (existingGraph existing _ _) as [[ns es] has].
  specialize (Hkept ns es has eq_refl) as [Hn He].
  destruct (negb has || _); simpl.
  - split; [intros ? Hin; inversion Hin|]. split; [intros ? Hin; inversion Hin | auto].
  - split; [exact Hn|]. split; [exact He|].
    intros f Hf. apply elem_of_app in Hf as [Hf|Hf]; apply filter_elem in Hf as [Hf _]; exact Hf.
Qed.

End BuilderPlans.

Section BuilderSteps.
Import Graph GraphService BuilderSpec.
Context `{Env} `{Collation}.
Variables (owner repo repoUrl branch c : string) (tree : list TreeItem).
Hypothesis store_answers : forall w, kvFault w = None.
Hypothesis tree_listed : forall w, getTree w owner repo c = Ret tree.

(** A build from the listing of the tree on, whatever the contents of the
    files and the lock registry answer. *)
Lemma rebuild_steps (w : World) :
  let p := plan (treeFiles tree)
                (Kv.hash_at (fileShas (getKeys repoUrl branch)) (store w))
                (Kv.strings (store w) !! graph (getKeys repoUrl branch)) in
  exists st t w1,
    rebuild owner repo repoUrl branch c w
    = (match currentLocks w1 repoUrl branch with
       | Ret l => Ret (with_locks (graphOf st c t) l)
       | Throw e => Throw e
       end, logged (CGetLocks repoUrl branch) w1)
    /\ store w1 = commit (getKeys repoUrl branch) (graphOf st c t) c (deletedFiles p)
                         (shasOf (treeFiles tree)) (store w)
    /\ pNodes st = fold_left (fun ns f => addNode f ns) (filesToProcess p) (keptNodes p)
    /\ (exists added,
          pEdges st = (keptEdges p ++ added)%list
          /\ Forall (fun e => source e ∈ map path (filesToProcess p) /\ target e <> "") added)
    /\ (NoDup (map edgeKey (keptEdges p)) -> NoDup (map edgeKey (pEdges st)))
    /\ processedCount st <= length (filesToProcess p).
Proof.
  cbv zeta.
  unfold rebuild, mbind, M_bind, octokit_getTree, kv_hgetall, kv_get, kv_command, call, now,
    getLocks.
  rewrite tree_listed. cbv beta iota zeta. rewrite store_answers. cbv beta iota zeta.
  rewrite store_answers. cbv beta iota zeta.
  cbn [store logged with_store].
  change (default ∅ (Kv.hashes (store w) !! fileShas (getKeys repoUrl branch)))
    with (Kv.hash_at (fileShas (getKeys repoUrl branch)) (store w)).
  match goal with
  | |- context [foldM ?f ?fs ?st0 ?w0] =>
      destruct (processFiles_steps owner repo c fs st0 w0)
        as (st & w1 & Hrun & Hstore & Hnodes & Hadded & Hindexed & Hcount)
  end.
  rewrite Hrun. cbv beta iota zeta. rewrite store_answers. cbv beta iota zeta.
  unfold call.
  exists st, (clock w1). eexists. split.
  - match goal with
    | |- context [currentLocks ?w2 repoUrl branch] =>
        destruct (currentLocks w2 repoUrl branch) eqn:Hl
    end; unfold mret, M_ret.
    + instantiate (1 := logged _ (with_store _ w1)). rewrite Hl. reflexivity.
    + rewrite Hl. reflexivity.
  - cbn [store logged with_store snd]. split; [now rewrite Hstore|].
    split; [exact Hnodes|]. split; [exact Hadded|]. split; [|cbn [processedCount] in Hcount; lia].
    intros Hnd. apply Hindexed. split; [exact Hnd|]. intros k. simpl.
    apply elem_of_list_to_set.
Qed.

End BuilderSteps.

Section BuilderTheorems.
Import Graph GraphService GraphSpec BuilderSpec.
Context `{Env} `{Collation}.

(** X11: when no graph can be read from the store (none is stored, or
    what is stored does not parse), [generate] builds from the tree
    alone, whatever file SHAs the store records and whatever the fetches
    of the file contents do: it returns a graph on the head of the
    branch with exactly one node for every supported file of the tree,
    each with the size and language of its file, without repeated
    edges, every edge going out of a file of the tree to a non-empty
    target; it counts at most as many processed files as the tree has,
    and as many edges as the graph holds. *)
Theorem generate_rebuilds_without_graph
    (owner repo repoUrl branch c : string) (tree : list TreeItem)
    (l : gmap string Locks.LockEntry) (force : bool) (w : World) :
  Steady owner repo repoUrl branch c tree l ->
  NoGraph repoUrl branch (store w) ->
  exists g w',
    generate owner repo repoUrl branch force w = (Ret g, w')
    /\ version g = c /\ locks g = l
    /\ NoDup (map id (nodes g))
    /\ (forall p, p ∈ map id (nodes g) <-> p ∈ map path (treeFiles tree))
    /\ (forall n, n ∈ nodes g -> exists f, f ∈ treeFiles tree /\ n = nodeOf f)
    /\ NoDup (edges g)
    /\ (forall e, e ∈ edges g -> source e ∈ map path (treeFiles tree) /\ target e <> "")
    /\ files_processed (metadata g) <= length (treeFiles tree)
    /\ edges_found (metadata g) = length (edges g).
Proof.
  intros Hsteady Hno.
  destruct (generate_run owner repo repoUrl branch c tree l Hsteady force w)
    as (w0 & Hstore & [Hrun|(_ & g & _ & Hgraph & _)]); [|exfalso; exact (Hno g Hgraph)].
  destruct Hsteady as [Hfault Hhead Htree Hlocks].
  destruct (rebuild_steps owner repo repoUrl branch c tree Hfault Htree w0)
    as (st & t & w1 & Hre & _ & Hnodes & (added & Hedges & Hadded) & Hnd & Hcount).
  cbv zeta in Hnodes, Hedges, Hadded, Hnd, Hcount.
  rewrite plan_without_graph in Hnodes, Hedges, Hadded, Hnd, Hcount
    by (rewrite Hstore; exact Hno).
  simpl in Hnodes, Hedges, Hadded, Hnd, Hcount.
  rewrite Hlocks in Hre.
  exists (with_locks (graphOf st c t) l). eexists. split; [rewrite Hrun; exact Hre|].
  simpl. split; [reflexivity|]. split; [reflexivity|]. split.
  { rewrite sort_Permutation, Hnodes. apply addNodes_NoDup. simpl. apply NoDup_nil_2. }
  split.
  { intros p. rewrite sort_Permutation, Hnodes, addNodes_ids. simpl.
    split; [intros [Hin|?]; [inversion Hin | assumption] | auto]. }
  split.
  { intros n. rewrite sort_elem, Hnodes. intros Hn.
    apply addNodes_elem in Hn as [Hn|?]; [inversion Hn | assumption]. }
  split.
  { rewrite sort_Permutation. apply (NoDup_fmap_1 edgeKey). apply Hnd. apply NoDup_nil_2. }
  split.
  { intros e. rewrite sort_elem, Hedges. intros He.
    rewrite Forall_forall in Hadded. apply Hadded. exact He. }
  split; [exact Hcount | reflexivity].
Qed.

(** X12: a file whose SHA the store records and which is no longer in
    the tree is gone after a forced [generate]: the graph has no node
    for it and no edge going out of it, and its SHA is no longer
    recorded. *)
Theorem generate_prunes_deleted_files
    (owner repo repoUrl branch c : string) (tree : list TreeItem)
    (l : gmap string Locks.LockEntry) (w : World) (p : string) :
  Steady owner repo repoUrl branch c tree l ->
  is_Some (Kv.hash_at (fileShas (getKeys repoUrl branch)) (store w) !! p) ->
  p ∉ map path (treeFiles tree) ->
  exists g w',
    generate owner repo repoUrl branch true w = (Ret g, w')
    /\ (p ∉ map id (nodes g))
    /\ (forall e, e ∈ edges g -> source e <> p)
    /\ Kv.hash_at (fileShas (getKeys repoUrl branch)) (store w') !! p = None.
Proof.
  intros Hsteady Hstored Hgone.
  destruct (generate_run owner repo repoUrl branch c tree l Hsteady true w)
    as (w0 & Hstore & [Hrun|(Hf & _)]); [|discriminate].
  destruct Hsteady as [Hfault Hhead Htree Hlocks].
  destruct (rebuild_steps owner repo repoUrl branch c tree Hfault Htree w0)
    as (st & t & w1 & Hre & Hcommit & Hnodes & (added & Hedges & Hadded) & _ & _).
  cbv zeta in Hcommit, Hnodes, Hedges, Hadded.
  rewrite Hstore in Hcommit, Hnodes, Hedges, Hadded.
  set (stored := Kv.hash_at (fileShas (getKeys repoUrl branch)) (store w)) in *.
  set (existing := Kv.strings (store w) !! graph (getKeys repoUrl branch)) in *.
  destruct (plan_kept (treeFiles tree) stored existing) as (Hkn & Hke & Hfiles).
  cbv zeta in Hkn, Hke, Hfiles.
  assert (Hdel : p ∈ deletedFilesOf (treeFiles tree) stored)
    by (apply deletedFilesOf_elem; auto).
  rewrite Hlocks in Hre.
  exists (with_locks (graphOf st c t) l). eexists. split; [rewrite Hrun; exact Hre|].
  simpl. split; [|split].
  - rewrite sort_Permutation, Hnodes, addNodes_ids. intros [Hin|Hin].
    + apply list_elem_of_In, in_map_iff in Hin as (n & <- & Hn).
      apply list_elem_of_In, Hkn in Hn as [_ Hn]. contradiction.
    + apply Hgone. apply list_elem_of_In, in_map_iff in Hin as (f & <- & Hf).
      apply list_elem_of_In, in_map. apply list_elem_of_In, Hfiles, list_elem_of_In. exact Hf.
  - intros e. rewrite sort_elem, Hedges, elem_of_app. intros [He|He] Hp.
    + apply Hke in He as (_ & Hs & _). rewrite Hp in Hs. contradiction.
    + rewrite Forall_forall in Hadded. apply Hadded in He as [He _]. rewrite Hp in He.
      apply Hgone. apply list_elem_of_In, in_map_iff in He as (f & <- & Hf).
      apply list_elem_of_In, in_map. apply list_elem_of_In, Hfiles, list_elem_of_In. exact Hf.
  - cbn [snd store logged]. rewrite Hcommit, plan_deleted. subst stored.
    rewrite (commit_shas (getKeys repoUrl branch)).
    now apply shasOf_lookup_None.
Qed.

End BuilderTheorems.

Section BuilderRoundTrip.
Import Graph GraphService GraphSpec BuilderSpec.
Context `{Env} `{Collation}.

Lemma needsUpdate_run (owner repo repoUrl branch c : string) (w : World) :
  kvFault (logged (CGetRepoHead owner repo branch) w) = None ->
  repoHead w owner repo branch = Ret c ->
  fst (needsUpdate owner repo repoUrl branch w)
  = Ret (negb (bool_decide (Kv.text_of (Kv.strings (store w) !! meta (getKeys repoUrl branch))
                            = Some c)), c).
Proof.
  intros Hok Hhead. unfold needsUpdate, mbind, M_bind, getRepoHead, call, kv_get, kv_command.
  rewrite Hhead. cbv beta iota zeta. rewrite Hok. reflexivity.
Qed.

Lemma getCached_run (repoUrl branch : string) (stored : DependencyGraph)
    (l : gmap string Locks.LockEntry) (w : World) :
  kvFault w = None ->
  Kv.strings (store w) !! graph (getKeys repoUrl branch) = Some (Kv.GraphJson stored) ->
  currentLocks (logged (CKvGet (graph (getKeys repoUrl branch))) w) repoUrl branch = Ret l ->
  fst (getCached repoUrl branch w) = Ret (Some (with_locks stored l)).
Proof.
  intros Hok Hgraph Hlocks. unfold getCached, mbind, M_bind, kv_get, kv_command.
  rewrite Hok. cbv beta iota zeta. rewrite Hgraph.
  unfold try_catch, mbind, M_bind, getLocks, call.
  replace (with_store (fun _ => store w) w) with w by (destruct w; reflexivity).
  rewrite Hlocks. reflexivity.
Qed.

(** X13: with a host, a store and a lock registry that answer, what
    [generate] returns is what the cache serves from then on: a
    following [getCached] returns the same graph, [needsUpdate] says
    that no update is needed, and [get] returns that graph. *)
Theorem generate_then_cache_is_fresh
    (owner repo repoUrl branch c : string) (tree : list TreeItem)
    (l : gmap string Locks.LockEntry) (force : bool) (w : World) :
  Steady owner repo repoUrl branch c tree l ->
  exists g w',
    generate owner repo repoUrl branch force w = (Ret g, w')
    /\ fst (getCached repoUrl branch w') = Ret (Some g)
    /\ fst (needsUpdate owner repo repoUrl branch w') = Ret (false, c)
    /\ fst (get owner repo repoUrl branch false w') = Ret g.
Proof.
  intros Hsteady.
  assert (Hafter : forall g stored w',
    Kv.strings (store w') !! graph (getKeys repoUrl branch) = Some (Kv.GraphJson stored) ->
    Kv.text_of (Kv.strings (store w') !! meta (getKeys repoUrl branch)) = Some c ->
    g = with_locks stored l ->
    fst (getCached repoUrl branch w') = Ret (Some g)
    /\ fst (needsUpdate owner repo repoUrl branch w') = Ret (false, c)
    /\ fst (get owner repo repoUrl branch false w') = Ret g).
  { destruct Hsteady as [Hfault Hhead Htree Hlocks]. intros g stored w' Hgraph Hmeta ->.
    split; [now apply getCached_run|]. split.
    - rewrite (needsUpdate_run owner repo repoUrl branch c) by auto.
      rewrite bool_decide_eq_true_2 by assumption. reflexivity.
    - rewrite (get_reads owner repo repoUrl branch c stored l w' Hfault Hhead Hlocks Hgraph).
      rewrite bool_decide_eq_true_2 by assumption. reflexivity. }
  destruct (generate_run owner repo repoUrl branch c tree l Hsteady force w)
    as (w0 & Hstore & [Hrun|(_ & stored & Hmeta & Hgraph & Hrun)]).
  - destruct Hsteady as [Hfault Hhead Htree Hlocks].
    destruct (rebuild_steps owner repo repoUrl branch c tree Hfault Htree w0)
      as (st & t & w1 & Hre & Hcommit & _).
    rewrite Hlocks in Hre. cbv zeta in Hcommit.
    exists (with_locks (graphOf st c t) l). eexists. split; [rewrite Hrun; exact Hre|].
    apply (Hafter _ (graphOf st c t)); [| |reflexivity]; cbn [store logged];
      rewrite Hcommit, commit_strings.
    + rewrite lookup_insert_ne by (apply not_eq_sym, graph_key_not_meta).
      now rewrite lookup_insert_eq.
    + now rewrite lookup_insert_eq.
  - exists (with_locks stored l), w0. split; [exact Hrun|].
    apply (Hafter _ stored); [now rewrite Hstore | now rewrite Hstore | reflexivity].
Qed.

(** X14: [generate] writes the graph before it reads the locks: when
    the lock registry fails, a forced [generate] throws the error of the
    registry although the store already holds the new graph on the head
    of the branch, and records that head, so that [needsUpdate] answers
    that no update is needed. *)
Theorem generate_commits_before_lock_read
    (owner repo repoUrl branch c : string) (tree : list TreeItem) (e : Exn) (w : World) :
  (forall w, kvFault w = None) ->
  (forall w, repoHead w owner repo branch = Ret c) ->
  (forall w, getTree w owner repo c = Ret tree) ->
  (forall w, currentLocks w repoUrl branch = Throw e) ->
  exists g w',
    generate owner repo repoUrl branch true w = (Throw e, w')
    /\ Kv.strings (store w') !! graph (getKeys repoUrl branch) = Some (Kv.GraphJson g)
    /\ version g = c
    /\ fst (needsUpdate owner repo repoUrl branch w') = Ret (false, c).
Proof.
  intros Hfault Hhead Htree Hlocks.
  unfold generate, mbind, M_bind, getRepoHead, call. rewrite Hhead.
  unfold mret, M_ret. cbv beta iota zeta.
  match goal with
  | |- context [rebuild owner repo repoUrl branch c ?w0] =>
      destruct (rebuild_steps owner repo repoUrl branch c tree Hfault Htree w0)
        as (st & t & w1 & Hre & Hcommit & _)
  end.
  rewrite Hlocks in Hre. cbv zeta in Hcommit.
  exists (graphOf st c t). eexists. split; [exact Hre|].
  cbn [store logged]. split; [|split; [reflexivity|]].
  - rewrite Hcommit, commit_strings.
    rewrite lookup_insert_ne by (apply not_eq_sym, graph_key_not_meta).
    now rewrite lookup_insert_eq.
  - rewrite (needsUpdate_run owner repo repoUrl branch c) by auto.
    cbn [store logged]. rewrite Hcommit, commit_strings, lookup_insert_eq.
    rewrite bool_decide_eq_true_2 by reflexivity. reflexivity.
Qed.

End BuilderRoundTrip.


Lemma get_serves_fresh_cache_witness :
  exists stored,
    @GraphService.get (Sample.env GraphSpec.twoFiles) Sample.collation
       "test" "repo" "https://github.com/a/b" "main" false MoreScenarios.builtWorld
    = (Ret (GraphService.with_locks stored ∅),
       {| store := store MoreScenarios.builtWorld;
          log := log MoreScenarios.builtWorld
                 ++ [CKvGet "graph:https://github.com/a/b:main";
                     CGetLocks "https://github.com/a/b" "main";
                     CGetRepoHead "test" "repo" "main";
                     CKvGet "graph:meta:https://github.com/a/b:main"] |}).
Proof.
  assert (Hstored : exists stored,
    Kv.strings (store MoreScenarios.builtWorld)
      !! GraphService.graph (GraphService.getKeys "https://github.com/a/b" "main")
    = Some (Kv.GraphJson stored)) by (vm_compute; eexists; reflexivity).
  destruct Hstored as [stored Hstored]. exists stored.
  apply (proj1 (get_serves_fresh_cache
                  (H := Sample.env GraphSpec.twoFiles) (H0 := Sample.collation)
                  "test" "repo" "https://github.com/a/b" "main" "c1" stored ∅
                  MoreScenarios.builtWorld
                  (fun _ => eq_refl) (fun _ => eq_refl) (fun _ => eq_refl) Hstored)).
  vm_compute. reflexivity.
Defined.

Lemma generate_rebuilds_without_graph_witness :
  exists g w',
    @GraphService.generate (Sample.env MoreScenarios.contentDown) Sample.collation
       "test" "repo" "https://github.com/a/b" "main" false Sample.start = (Ret g, w')
    /\ Graph.version g = "c1"
    /\ (forall p, p ∈ map Graph.id (Graph.nodes g) <-> p ∈ ["src/b.ts"; "src/a.ts"])
    /\ Graph.files_processed (Graph.metadata g) <= 2.
Proof.
  destruct (generate_rebuilds_without_graph
              (H := Sample.env MoreScenarios.contentDown) (H0 := Sample.collation)
              "test" "repo" "https://github.com/a/b" "main" "c1"
              (Sample.tree MoreScenarios.contentDown) ∅ false Sample.start)
    as (g & w' & Hrun & Hversion & _ & _ & Hids & _ & _ & _ & Hcount & _).
  - constructor; intros; reflexivity.
  - intros g Hg. vm_compute in Hg. discriminate.
  - exists g, w'. split; [exact Hrun|]. split; [exact Hversion|]. split; [exact Hids|].
    exact Hcount.
Defined.

Lemma generate_prunes_deleted_files_witness :
  exists g w',
    @GraphService.generate (Sample.env MoreScenarios.oneFile) Sample.collation
       "test" "repo" "https://github.com/a/b" "main" true MoreScenarios.builtWorld = (Ret g, w')
    /\ ("src/b.ts" ∉ map Graph.id (Graph.nodes g))
    /\ Kv.hash_at "graph:file_shas:https://github.com/a/b:main" (store w') !! "src/b.ts" = None.
Proof.
  destruct (generate_prunes_deleted_files
              (H := Sample.env MoreScenarios.oneFile) (H0 := Sample.collation)
              "test" "repo" "https://github.com/a/b" "main" "c2"
              (Sample.tree MoreScenarios.oneFile) ∅ MoreScenarios.builtWorld "src/b.ts")
    as (g & w' & Hrun & Hnode & _ & Hsha).
  - constructor; intros; reflexivity.
  - eexists. vm_compute. reflexivity.
  - rewrite list_elem_of_In. simpl. intros [Heq|[]]. discriminate.
  - exists g, w'. auto.
Defined.

Lemma generate_then_cache_is_fresh_witness :
  exists g w',
    @GraphService.generate (Sample.env GraphSpec.twoFiles) Sample.collation
       "test" "repo" "https://github.com/a/b" "main" false Sample.start = (Ret g, w')
    /\ fst (@GraphService.getCached (Sample.env GraphSpec.twoFiles)
              "https://github.com/a/b" "main" w') = Ret (Some g)
    /\ fst (@GraphService.needsUpdate (Sample.env GraphSpec.twoFiles)
              "test" "repo" "https://github.com/a/b" "main" w') = Ret (false, "c1")
    /\ fst (@GraphService.get (Sample.env GraphSpec.twoFiles) Sample.collation
              "test" "repo" "https://github.com/a/b" "main" false w') = Ret g.
Proof.
  apply (generate_then_cache_is_fresh
           (H := Sample.env GraphSpec.twoFiles) (H0 := Sample.collation)
           "test" "repo" "https://github.com/a/b" "main" "c1"
           (Sample.tree GraphSpec.twoFiles) ∅ false Sample.start).
  constructor; intros; reflexivity.
Defined.

Lemma generate_commits_before_lock_read_witness :
  exists g w',
    @GraphService.generate (Sample.env MoreScenarios.locksDown) Sample.collation
       "test" "repo" "https://github.com/a/b" "main" true Sample.start
    = (Throw (JsError "locks unavailable"), w')
    /\ Kv.strings (store w') !! "graph:https://github.com/a/b:main" = Some (Kv.GraphJson g)
    /\ Graph.version g = "c1"
    /\ fst (@GraphService.needsUpdate (Sample.env MoreScenarios.locksDown)
              "test" "repo" "https://github.com/a/b" "main" w') = Ret (false, "c1").
Proof.
  apply (generate_commits_before_lock_read
           (H := Sample.env MoreScenarios.locksDown) (H0 := Sample.collation)
           "test" "repo" "https://github.com/a/b" "main" "c1"
           (Sample.tree MoreScenarios.locksDown) (JsError "locks unavailable") Sample.start);
    intros; reflexivity.
Defined.

(** ** The activity log, continued *)

Lemma parse_serialised (events : list Event.CoordinationActivityEvent) :
  omap Activity.parseActivityEvent (map Kv.EventJson events) = events.
Proof. induction events as [|e es IH]; simpl; [reflexivity | f_equal; exact IH]. Qed.

Section ActivityEdges.
Import Event Activity ActivitySpec.
Context `{Env}.

(** X15: [publishActivityEvents] does nothing at all, and reports no
    error, when it is given no file or when the store client lacks
    [lpush] or [ltrim]: no command is sent and the world is left as it
    was. *)
Theorem publishActivityEvents_noop (input : PublishActivityInput) (w : World) :
  filePaths input = [] \/ kvHas "lpush" = false \/ kvHas "ltrim" = false ->
  publishActivityEvents input w = (Ret tt, w).
Proof.
  intros Hno. unfold publishActivityEvents.
  destruct (filePaths input) as [|f fs]; [reflexivity|].
  destruct Hno as [|Hno]; [discriminate|].
  change (length (f :: fs) =? 0)%nat with false. cbv iota.
  unfold mbind, M_bind, now.
  assert (Hhas : negb (kvHas "lpush") || negb (kvHas "ltrim") = true)
    by (destruct Hno as [-> | ->]; [reflexivity | apply orb_true_r]).
  destruct (inputTimestamp input); unfold mret, M_ret; cbv beta iota zeta;
    rewrite Hhas; reflexivity.
Qed.

(** X16: through a store that answers, the events of a publication of
    at most 500 files are the last that a following read of the same
    namespace returns, in the order of the files, when the read asks for
    at least as many items: what was published last is read last. *)
Theorem publish_then_read (input : PublishActivityInput) (limit : option JsNumber) (w : World) :
  (forall w, kvFault w = None) ->
  kvHas "lpush" = true -> kvHas "ltrim" = true -> kvHas "lrange" = true ->
  filePaths input <> [] ->
  length (filePaths input) <= askedFor limit ->
  length (filePaths input) <= 500 ->
  exists older,
    fst (getRecentActivityEvents (repoUrl input) (branch input) limit
           (snd (publishActivityEvents input w)))
    = Ret (older ++ imap (eventFor input (timestampOf input w)) (filePaths input))%list.
Proof.
  intros Hok Hpush Htrim Hrange Hne Hlimit Hkeep.
  rewrite getRecentActivityEvents_run by assumption.
  destruct (publishActivityEvents_run input w Hok Hpush Htrim Hne) as [_ Hlist].
  rewrite Hlist. destruct (decide _) as [_|Hn]; [|congruence].
  set (events := imap (eventFor input (timestampOf input w)) (filePaths input)).
  assert (Hpushed : payloadsOf input (timestampOf input w) = map Kv.EventJson events).
  { unfold payloadsOf, events. symmetry. apply (fmap_imap _ Kv.EventJson). }
  assert (Hlen : length events = length (filePaths input)) by apply length_imap.
  rewrite Hpushed, take_take.
  rewrite take_app_ge by (rewrite length_rev, length_map; lia).
  rewrite omap_app, rev_app_distr, <- map_rev, parse_serialised, rev_involutive.
  eexists. reflexivity.
Qed.

(** X17: the events of one publication have distinct ids, also when the
    same file is listed more than once: the position in the list, which
    ends the id, tells them apart. *)
Theorem activity_event_ids_distinct (input : PublishActivityInput) (timestamp : Z) :
  NoDup (map id (imap (eventFor input timestamp) (filePaths input))).
Proof.
  apply NoDup_alt. intros i j x Hi Hj.
  rewrite list_lookup_fmap, list_lookup_imap in Hi, Hj.
  destruct (filePaths input !! i) as [f|]; [|discriminate].
  destruct (filePaths input !! j) as [g|]; [|discriminate].
  simpl in Hi, Hj. injection Hi as Hi. injection Hj as Hj. rewrite <- Hj in Hi.
  unfold eventFor in Hi. cbn [id] in Hi.
  rewrite <- !string_app_assoc in Hi.
  rewrite (string_app_assoc _ ":" (pretty i)), (string_app_assoc _ ":" (pretty j)) in Hi.
  exact (numeral_suffix_inj _ _ _ _ Hi).
Qed.

(** X18: the key of the activity list does not depend on white space
    around the branch name, and a blank branch name stands for [main]. *)
Theorem activity_key_normalises_branch (repoUrl branch : string) :
  getActivityKey repoUrl (trim branch) = getActivityKey repoUrl branch
  /\ (trim branch = "" -> getActivityKey repoUrl branch = getActivityKey repoUrl "main").
Proof.
  unfold getActivityKey. split.
  - now rewrite trim_idempotent.
  - intros ->. reflexivity.
Qed.

End ActivityEdges.

Lemma publishActivityEvents_noop_witness :
  @Activity.publishActivityEvents (MoreScenarios.withoutLists Sample.quiet)
     ActivitySpec.twoFiles Sample.start
  = (Ret tt, Sample.start).
Proof.
  apply (publishActivityEvents_noop (H := MoreScenarios.withoutLists Sample.quiet)).
  right. left. reflexivity.
Defined.

Lemma publish_then_read_witness :
  exists older,
    fst (@Activity.getRecentActivityEvents (Sample.env Sample.quiet)
           "https://github.com/a/b" "main" None MoreScenarios.publishedWorld)
    = Ret (older ++ imap (Activity.eventFor ActivitySpec.twoFiles 12345)
                         ["src/a.ts"; "src/b.ts"])%list.
Proof.
  apply (publish_then_read (H := Sample.env Sample.quiet)
           ActivitySpec.twoFiles None Sample.start
           (fun _ => eq_refl) eq_refl eq_refl eq_refl).
  - discriminate.
  - vm_compute. lia.
  - vm_compute. lia.
Defined.

Lemma activity_key_normalises_branch_witness :
  @Activity.getActivityKey (Sample.env Sample.quiet) "https://github.com/a/b" "  "
  = @Activity.getActivityKey (Sample.env Sample.quiet) "https://github.com/a/b" "main".
Proof.
  apply (proj2 (activity_key_normalises_branch (H := Sample.env Sample.quiet)
                  "https://github.com/a/b" "  ")).
  reflexivity.
Defined.

(** ** Events as JSON values *)

Section EventValues.
Import Event Activity ActivityEvents.
Context `{Json}.

(** X29: the object that a publication serialises for an event passes
    the validation of the reader, which gives the event back: every
    field has the type that the reader asks for and the status is one of
    the three names. An item whose text is no JSON, or whose value is no
    object, is no event. *)
Theorem activity_event_round_trip :
  (forall e, parseActivityEvent (eventJson e) = Some e)
  /\ (forall input timestamp index filePath,
        parseActivityEvent (eventJson (eventFor input timestamp index filePath))
        = Some (eventFor input timestamp index filePath)
        /\ file_path (eventFor input timestamp index filePath) = filePath)
  /\ (forall text, parse text = None -> parseActivityEvent (JString text) = None)
  /\ parseActivityEvent JNull = None
  /\ (forall items, parseActivityEvent (JArray items) = None)
  /\ (forall n, parseActivityEvent (JNumber n) = None).
Proof.
  assert (Hround : forall e, parseActivityEvent (eventJson e) = Some e).
  { intros [i f u n st m t]. unfold parseActivityEvent, eventJson. cbn.
    destruct st; reflexivity. }
  split; [exact Hround|]. split; [intros; split; [apply Hround | reflexivity]|].
  split; [intros text Hparse; unfold parseActivityEvent; now rewrite Hparse|].
  repeat split.
Qed.

End EventValues.

Lemma activity_event_round_trip_witness :
  @ActivityEvents.parseActivityEvent MoreScenarios.json (JString "not json") = None.
Proof.
  apply (proj1 (proj2 (proj2 (activity_event_round_trip (H := MoreScenarios.json))))).
  reflexivity.
Defined.

(** ** Clearing the activity log *)

Lemma list_at_del (key key' : string) (s : Kv.Store) :
  Kv.list_at key' (ActivityAdmin.del key s)
  = if decide (key = key') then [] else Kv.list_at key' s.
Proof.
  unfold Kv.list_at, ActivityAdmin.del. simpl.
  destruct (decide (key = key')) as [->|Hne].
  - now rewrite lookup_delete_eq.
  - now rewrite lookup_delete_ne.
Qed.

(** The route and the publication of events agree on the key of a
    namespace when the normalisation of repository URLs is idempotent. *)
Lemma activity_key_normalised `{Env} (repoUrl branch : string) :
  normalizeRepoUrl (normalizeRepoUrl repoUrl) = normalizeRepoUrl repoUrl ->
  Activity.getActivityKey (normalizeRepoUrl repoUrl) (or_else (Some (trim branch)) "main")
  = Activity.getActivityKey repoUrl branch.
Proof.
  intros Hidem. unfold Activity.getActivityKey. rewrite Hidem. do 3 f_equal.
  unfold or_else at 2 3. destruct (decide (trim branch = "")) as [Hb|Hb].
  - reflexivity.
  - rewrite trim_idempotent. unfold or_else. destruct (decide (trim branch = "")); congruence.
Qed.

Lemma with_same_store (w : World) : with_store (fun _ => store w) w = w.
Proof. destruct w; reflexivity. Qed.

Section Clearing.
Import Activity ActivityAdmin ActivityAdminSpec.
Context `{Env} `{AdminEnv}.

(** A clearing: it fails as a whole, or deletes the key. *)
Lemma clearActivityEvents_run (repoUrl branch : string) (w : World) :
  let key := getActivityKey repoUrl branch in
  clearActivityEvents repoUrl branch w
  = if faulty w
    then (Ret {| success := false; cleared := 0 |}, w)
    else (Ret {| success := true; cleared := counted key w |},
          with_store (fun _ => del key (store w)) w).
Proof.
  cbv zeta. unfold clearActivityEvents, faulty, counted, try_catch, mbind, M_bind, admin_command.
  destruct (kvHas "llen"); cbn [andb].
  - destruct (llenFault w) as [e|]; [reflexivity|]. cbv beta iota zeta.
    rewrite with_same_store. cbn [fails orb].
    destruct (delFault w) as [e|]; [reflexivity|]. reflexivity.
  - unfold mret at 1, M_ret at 1. cbv beta iota zeta. cbn [orb].
    destruct (delFault w) as [e|]; reflexivity.
Qed.

(** X19: [clearActivityEvents] never rejects. It fails as a whole when
    [llen] (if the client has it) or [del] fails: it then reports
    [success: false] with [cleared: 0] and the world is left as it was.
    Otherwise it reports [success: true] and the length that the list
    had ([0] when the client has no [llen]), the key of the namespace is
    deleted, the other lists are untouched, and a following read of the
    namespace returns no event. *)
Theorem clearActivityEvents_clears_or_reports (repoUrl branch : string) (w : World) :
  let key := getActivityKey repoUrl branch in
  exists result w',
    clearActivityEvents repoUrl branch w = (Ret result, w')
    /\ log w' = log w
    /\ success result = negb (faulty w)
    /\ (success result = false -> cleared result = 0%Z /\ w' = w)
    /\ (success result = true ->
        cleared result
        = (if kvHas "llen" then Z.of_nat (length (Kv.list_at key (store w))) else 0%Z)
        /\ store w' = del key (store w)
        /\ Kv.list_at key (store w') = []
        /\ (forall key', key' <> key -> Kv.list_at key' (store w') = Kv.list_at key' (store w))
        /\ forall limit,
             kvHas "lrange" = true -> kvFault w' = None ->
             fst (getRecentActivityEvents repoUrl branch limit w') = Ret []).
Proof.
  cbv zeta. rewrite clearActivityEvents_run. cbv zeta. destruct (faulty w).
  - do 2 eexists. split; [reflexivity|]. split; [reflexivity|]. split; [reflexivity|].
    split; [auto | discriminate].
  - do 2 eexists. split; [reflexivity|]. split; [reflexivity|]. split; [reflexivity|].
    split; [discriminate|]. intros _. cbn [cleared store with_store].
    split; [reflexivity|]. split; [reflexivity|]. split.
    { rewrite list_at_del. destruct (decide _); [reflexivity | congruence]. }
    split.
    { intros key' Hkey. rewrite list_at_del. destruct (decide _); [congruence | reflexivity]. }
    intros limit Hrange Hok.
    unfold getRecentActivityEvents. rewrite Hrange. change (negb true) with false. cbv iota.
    unfold mbind, M_bind, kv_command. cbv beta iota zeta. rewrite Hok.
    unfold mret, M_ret. cbv beta iota zeta. cbn [fst store with_store].
    unfold Kv.lrange. rewrite list_at_del. destruct (decide _); [|congruence].
    unfold Kv.range. simpl length.
    destruct (_ <? _)%Z; [reflexivity|]. rewrite drop_nil, take_nil. reflexivity.
Qed.

End Clearing.

Section ClearRoute.
Import Route Activity ActivityAdmin ActivityAdminSpec ClearAgentAndFeed ClearAgentAndFeedSpec.
Context `{Env} `{AdminEnv} `{Validation}.

(** The route on a request that names a repository and a branch, when
    the lock registry answers. *)
Lemma clear_agent_and_feed_run
    (request : Request) (repoUrl branch : string) (w : World)
    (locks : LocksAdmin.ReleaseAllResult) :
  Accepted request repoUrl branch ->
  let normalizedRepoUrl := normalizeRepoUrl repoUrl in
  let normalizedBranch := or_else (Some (trim branch)) "main" in
  releaseAll w normalizedRepoUrl normalizedBranch = Ret locks ->
  POST request w
  = (feed ← clearActivityEvents normalizedRepoUrl normalizedBranch;
     mret (if LocksAdmin.success locks && success feed
           then respond (Cleared (LocksAdmin.released locks) (cleared feed)
                                 normalizedRepoUrl normalizedBranch)
           else respond_with 500
                  (ClearFailed "Failed to clear agent tab and live feed"
                               (LocksAdmin.success locks) (success feed)))) w.
Proof.
  intros (raw & Hjson & Hmiss & Hrepo & Hbranch). cbv zeta. intros Hlocks.
  unfold POST, try_catch, mbind, M_bind, lift. rewrite Hjson. cbv beta iota zeta.
  rewrite Hmiss. change (negb (length (@nil string) =? 0)%nat) with false. cbv beta iota zeta.
  rewrite Hrepo, Hbranch. unfold all, releaseAllLocks. rewrite Hlocks.
  rewrite clearActivityEvents_run. cbv zeta.
  destruct (faulty w); cbv beta iota zeta; destruct (LocksAdmin.success locks); reflexivity.
Qed.

(** X20: on a request that names a repository and a branch, the
    clearing route clears the activity log whatever the lock registry
    reports, and its response tells the two apart: 200 with the number of
    locks released and of events cleared when both succeed, and else 500
    "Failed to clear agent tab and live feed" with the success of each.
    Nothing is rolled back. *)
Theorem clear_agent_and_feed_reports_both
    (request : Request) (repoUrl branch : string) (w : World)
    (locks : LocksAdmin.ReleaseAllResult) :
  Accepted request repoUrl branch ->
  let normalizedRepoUrl := normalizeRepoUrl repoUrl in
  let normalizedBranch := or_else (Some (trim branch)) "main" in
  releaseAll w normalizedRepoUrl normalizedBranch = Ret locks ->
  exists feed w',
    clearActivityEvents normalizedRepoUrl normalizedBranch w = (Ret feed, w')
    /\ snd (POST request w) = w'
    /\ (LocksAdmin.success locks = true -> success feed = true ->
        fst (POST request w)
        = Ret (respond (Cleared (LocksAdmin.released locks) (cleared feed)
                                normalizedRepoUrl normalizedBranch)))
    /\ (LocksAdmin.success locks = false \/ success feed = false ->
        fst (POST request w)
        = Ret (respond_with 500
                 (ClearFailed "Failed to clear agent tab and live feed"
                              (LocksAdmin.success locks) (success feed)))).
Proof.
  intros Hacc. cbv zeta. intros Hlocks.
  rewrite (clear_agent_and_feed_run _ _ _ _ _ Hacc Hlocks).
  unfold mbind, M_bind. rewrite clearActivityEvents_run. cbv zeta.
  destruct (faulty w); do 2 eexists; (split; [reflexivity|]); (split; [reflexivity|]);
    cbn [success cleared fst]; split.
  - intros _ [=].
  - intros _. now rewrite andb_false_r.
  - intros -> _. reflexivity.
  - intros [-> | [=]]. reflexivity.
Qed.

(** X21: when the normalisation of repository URLs is idempotent, the
    clearing route empties the very list to which [publishActivityEvents]
    writes for the same repository and branch, white space around the
    branch name or a blank one notwithstanding, and leaves the other
    lists alone; the response names the normalised repository and
    branch. *)
Theorem clear_agent_and_feed_empties_feed
    (request : Request) (repoUrl branch : string) (w : World)
    (locks : LocksAdmin.ReleaseAllResult) :
  Accepted request repoUrl branch ->
  normalizeRepoUrl (normalizeRepoUrl repoUrl) = normalizeRepoUrl repoUrl ->
  releaseAll w (normalizeRepoUrl repoUrl) (or_else (Some (trim branch)) "main") = Ret locks ->
  faulty w = false ->
  let key := getActivityKey repoUrl branch in
  Kv.list_at key (store (snd (POST request w))) = []
  /\ (forall key', key' <> key ->
        Kv.list_at key' (store (snd (POST request w))) = Kv.list_at key' (store w))
  /\ (LocksAdmin.success locks = true ->
      fst (POST request w)
      = Ret (respond (Cleared (LocksAdmin.released locks) (counted key w)
                              (normalizeRepoUrl repoUrl)
                              (or_else (Some (trim branch)) "main")))).
Proof.
  intros Hacc Hidem Hlocks Hok. cbv zeta.
  rewrite (clear_agent_and_feed_run _ _ _ _ _ Hacc Hlocks).
  unfold mbind, M_bind. rewrite clearActivityEvents_run. cbv zeta. rewrite Hok.
  cbv beta iota zeta. unfold mret, M_ret.
  rewrite (activity_key_normalised _ _ Hidem). cbn [fst snd store with_store success cleared].
  split; [|split].
  - rewrite list_at_del. destruct (decide _); [reflexivity | congruence].
  - intros key' Hkey. rewrite list_at_del. destruct (decide _); [congruence | reflexivity].
  - intros ->. reflexivity.
Qed.

End ClearRoute.

Lemma clear_agent_and_feed_reports_both_witness :
  exists w',
    @ClearAgentAndFeed.POST (Sample.env Sample.quiet) (MoreScenarios.admin false 0)
       Sample.validation (MoreScenarios.clearBody "main") MoreScenarios.publishedWorld
    = (Ret (ClearAgentAndFeed.respond_with 500
              (ClearAgentAndFeed.ClearFailed "Failed to clear agent tab and live feed"
                 false true)), w')
    /\ Kv.list_at "activity:https://github.com/a/b:main" (store w') = [].
Proof.
  destruct (clear_agent_and_feed_reports_both
              (H := Sample.env Sample.quiet) (H0 := MoreScenarios.admin false 0)
              (H1 := Sample.validation)
              (MoreScenarios.clearBody "main") Scenarios.repoUrl "main"
              MoreScenarios.publishedWorld
              {| LocksAdmin.success := false; LocksAdmin.released := 0 |})
    as (feed & w' & Hclear & Hworld & _ & Hfailed).
  - exists (JObject [("repo_url", JString Scenarios.repoUrl); ("branch", JString "main")]).
    repeat split.
  - reflexivity.
  - exists w'. vm_compute in Hclear. injection Hclear as <- <-.
    split; [|vm_compute; reflexivity].
    rewrite (surjective_pairing (ClearAgentAndFeed.POST _ _)), Hworld.
    rewrite (Hfailed (or_introl eq_refl)). reflexivity.
Defined.

Lemma clear_agent_and_feed_empties_feed_witness :
  Kv.list_at "activity:https://github.com/a/b:main"
    (store (snd (@ClearAgentAndFeed.POST (Sample.env Sample.quiet) (MoreScenarios.admin true 2)
                   Sample.validation (MoreScenarios.clearBody " main ")
                   MoreScenarios.publishedWorld))) = []
  /\ fst (@ClearAgentAndFeed.POST (Sample.env Sample.quiet) (MoreScenarios.admin true 2)
            Sample.validation (MoreScenarios.clearBody " main ") MoreScenarios.publishedWorld)
     = Ret (ClearAgentAndFeed.respond
              (ClearAgentAndFeed.Cleared 2 2 "https://github.com/a/b" "main")).
Proof.
  destruct (clear_agent_and_feed_empties_feed
              (H := Sample.env Sample.quiet) (H0 := MoreScenarios.admin true 2)
              (H1 := Sample.validation)
              (MoreScenarios.clearBody " main ") Scenarios.repoUrl " main "
              MoreScenarios.publishedWorld
              {| LocksAdmin.success := true; LocksAdmin.released := 2 |})
    as (Hempty & _ & Hresponse).
  - exists (JObject [("repo_url", JString Scenarios.repoUrl); ("branch", JString " main ")]).
    repeat split.
  - reflexivity.
  - reflexivity.
  - reflexivity.
  - split; [exact Hempty|]. rewrite (Hresponse eq_refl). vm_compute. reflexivity.
Defined.

(** ** The tools of the adapter *)

Lemma resolveBranch_cases (v : JsValue) :
  Mcp.resolveBranch v = {| Mcp.branch := Mcp.DEFAULT_MCP_BRANCH; Mcp.wasProvided := false |}
  \/ exists b, Mcp.resolveBranch v = {| Mcp.branch := b; Mcp.wasProvided := true |}
               /\ b <> "" /\ trim b = b.
Proof.
  destruct v; simpl; auto.
  destruct (decide (trim s = "")); [auto|]. right. exists (trim s).
  split; [reflexivity|]. split; [assumption | apply trim_idempotent].
Qed.


Lemma postStatusResult_cases (response : Z * JsValue) :
  (((fst response < 400)%Z
    \/ (fst response = 400%Z
        /\ exists fields o, snd response = JObject fields
                            /\ get_field fields "orchestration" = JObject o))
   /\ Mcp.postStatusResult response = Mcp.ensureRecord (snd response))
  \/ ((400 <= fst response)%Z
      /\ exists action reason,
           Mcp.postStatusResult response = Mcp.failure action reason
           /\ (action = "WAIT" /\ fst response = 409%Z
               \/ action = "STOP" /\ fst response <> 409%Z)).
Proof.
  destruct response as [status payload]. unfold Mcp.postStatusResult. simpl fst. simpl snd.
  destruct (status =? 429)%Z eqn:H429.
  { apply Z.eqb_eq in H429. right. split; [lia|]. do 2 eexists. split; [reflexivity|]. right.
    split; [reflexivity | lia]. }
  destruct (status =? 400)%Z eqn:H400.
  { apply Z.eqb_eq in H400. subst status.
    destruct payload as [| | | | | |fields];
      try (right; split; [lia|]; do 2 eexists; split; [reflexivity|]; right;
           split; [reflexivity | lia]).
    simpl. destruct (get_field fields "orchestration") as [| | | | | |o] eqn:Ho;
      try (right; split; [lia|]; do 2 eexists; split; [reflexivity|]; right;
           split; [reflexivity | lia]).
    left. split; [|reflexivity]. right. split; [reflexivity|]. eauto. }
  destruct (status =? 409)%Z eqn:H409.
  { apply Z.eqb_eq in H409. right. split; [lia|]. do 2 eexists. split; [reflexivity|]. left.
    split; [reflexivity | assumption]. }
  apply Z.eqb_neq in H409.
  destruct (400 <=? status)%Z eqn:Hge.
  - apply Z.leb_le in Hge. right. split; [lia|]. do 2 eexists. split; [reflexivity|]. right.
    split; [reflexivity | assumption].
  - apply Z.leb_gt in Hge. left. split; [left; lia | reflexivity].
Qed.

Lemma normalizeUsername_clean (v : JsValue) :
  Mcp.normalizeUsername v <> "" /\ trim (Mcp.normalizeUsername v) = Mcp.normalizeUsername v.
Proof.
  destruct v; simpl; try (split; [discriminate | reflexivity]).
  destruct (decide (trim s = "")); [split; [discriminate | reflexivity]|].
  split; [assumption | apply trim_idempotent].
Qed.

Section ToolRuns.
Import Mcp McpSpec McpRouteSpec.
Context `{Env}.

Lemma checkCall_forwarded (args : list (string * JsValue)) (b : string) :
  b <> "" -> trim b = b -> Forwarded "/api/check_status" args (checkCall args b).
Proof.
  intros Hb Ht. exists (checkStatusBody args STANDARDIZED_REPO_URL b), b.
  split; [reflexivity|]. split; [reflexivity|]. split; [reflexivity|].
  split; [exact Hb|]. split; [exact Ht|]. split; [reflexivity|]. split; [reflexivity|].
  discriminate.
Qed.

Lemma postCall_forwarded (args : list (string * JsValue)) (b : string) :
  b <> "" -> trim b = b -> Forwarded "/api/post_status" args (postCall args b).
Proof.
  intros Hb Ht. exists (postStatusBody args STANDARDIZED_REPO_URL b), b.
  split; [reflexivity|]. split; [reflexivity|]. split; [reflexivity|].
  split; [exact Hb|]. split; [exact Ht|]. split; [reflexivity|]. split; [reflexivity|].
  intros _. repeat split.
Qed.

(** A run of a tool: what it returns on the last answer it got, and the
    calls it made. *)
Lemma callCheckStatusTool_run (args : list (string * JsValue)) (w : World) :
  exists answer w' calls,
    callCheckStatusTool args w = (outcomeOf checkStatusResult checkOffline answer, w')
    /\ (forall response, answer = Ret response -> Answered "/api/check_status" response)
    /\ store w' = store w
    /\ log w' = (log w ++ calls)%list
    /\ 1 <= length calls <= 2
    /\ Forall (Forwarded "/api/check_status" args) calls.
Proof.
  assert (Hmaster : Forwarded "/api/check_status" args (checkCall args "master"))
    by (apply checkCall_forwarded; [discriminate | reflexivity]).
  assert (Hmain : Forwarded "/api/check_status" args (checkCall args "main"))
    by (apply checkCall_forwarded; [discriminate | reflexivity]).
  destruct (resolveBranch_cases (get_field args "branch")) as [Hb|(b & Hb & Hne & Htrim)].
  - rewrite (callCheckStatusTool_default _ _ Hb).
    destruct (checkAnswer args "master" w) as [first|e] eqn:Hfirst.
    + destruct (shouldRetryOnMissingBranchReference first).
      * exists (checkAnswer args "main" (logged (checkCall args "master") w)).
        do 2 eexists. split; [reflexivity|]. split.
        { intros response Hr. unfold checkAnswer in Hr. do 3 eexists. exact Hr. }
        split; [reflexivity|]. split; [simpl; rewrite <- app_assoc; reflexivity|].
        split; [simpl; lia|]. repeat constructor; assumption.
      * exists (Ret first). do 2 eexists. split; [reflexivity|]. split.
        { intros response [= <-]. unfold checkAnswer in Hfirst. do 3 eexists. exact Hfirst. }
        split; [reflexivity|]. split; [reflexivity|].
        split; [simpl; lia|]. repeat constructor; assumption.
    + exists (Throw e). do 2 eexists. split; [reflexivity|]. split; [discriminate|].
      split; [reflexivity|]. split; [reflexivity|].
      split; [simpl; lia|]. repeat constructor; assumption.
  - destruct (callTool_provided args w b Hb) as [-> _].
    exists (checkAnswer args b w). do 2 eexists. split; [reflexivity|]. split.
    { intros response Hr. unfold checkAnswer in Hr. do 3 eexists. exact Hr. }
    split; [reflexivity|]. split; [reflexivity|].
    split; [simpl; lia|]. repeat constructor. now apply checkCall_forwarded.
Qed.

Lemma callPostStatusTool_run (args : list (string * JsValue)) (w : World) :
  exists answer w' calls,
    callPostStatusTool args w = (outcomeOf postStatusResult postOffline answer, w')
    /\ (forall response, answer = Ret response -> Answered "/api/post_status" response)
    /\ store w' = store w
    /\ log w' = (log w ++ calls)%list
    /\ 1 <= length calls <= 2
    /\ Forall (Forwarded "/api/post_status" args) calls.
Proof.
  assert (Hmaster : Forwarded "/api/post_status" args (postCall args "master"))
    by (apply postCall_forwarded; [discriminate | reflexivity]).
  assert (Hmain : Forwarded "/api/post_status" args (postCall args "main"))
    by (apply postCall_forwarded; [discriminate | reflexivity]).
  destruct (resolveBranch_cases (get_field args "branch")) as [Hb|(b & Hb & Hne & Htrim)].
  - rewrite (callPostStatusTool_default _ _ Hb).
    destruct (postAnswer args "master" w) as [first|e] eqn:Hfirst.
    + destruct (shouldRetryOnMissingBranchReference first).
      * exists (postAnswer args "main" (logged (postCall args "master") w)).
        do 2 eexists. split; [reflexivity|]. split.
        { intros response Hr. unfold postAnswer in Hr. do 3 eexists. exact Hr. }
        split; [reflexivity|]. split; [simpl; rewrite <- app_assoc; reflexivity|].
        split; [simpl; lia|]. repeat constructor; assumption.
      * exists (Ret first). do 2 eexists. split; [reflexivity|]. split.
        { intros response [= <-]. unfold postAnswer in Hfirst. do 3 eexists. exact Hfirst. }
        split; [reflexivity|]. split; [reflexivity|].
        split; [simpl; lia|]. repeat constructor; assumption.
    + exists (Throw e). do 2 eexists. split; [reflexivity|]. split; [discriminate|].
      split; [reflexivity|]. split; [reflexivity|].
      split; [simpl; lia|]. repeat constructor; assumption.
  - destruct (callTool_provided args w b Hb) as [_ ->].
    exists (postAnswer args b w). do 2 eexists. split; [reflexivity|]. split.
    { intros response Hr. unfold postAnswer in Hr. do 3 eexists. exact Hr. }
    split; [reflexivity|]. split; [reflexivity|].
    split; [simpl; lia|]. repeat constructor. now apply postCall_forwarded.
Qed.


(** X27: the [post_status] tool never rejects. What it returns is the
    payload of an answer of the internal endpoint whose status is below
    400, or that of a 400 answer that carries an orchestration object
    (the request to push), or else [success: false] with an orchestration
    command [STOP] or [WAIT], the latter only after a 409 answer. *)
Theorem post_tool_degrades (args : list (string * JsValue)) (w : World) :
  exists result w',
    callPostStatusTool args w = (Ret result, w')
    /\ ((exists response,
           Answered "/api/post_status" response
           /\ ((fst response < 400)%Z
               \/ (fst response = 400%Z
                   /\ exists fields o, snd response = JObject fields
                                       /\ get_field fields "orchestration" = JObject o))
           /\ result = ensureRecord (snd response))
        \/ (get_field result "success" = JBool false
            /\ stops result ["STOP"; "WAIT"]
            /\ (stops result ["WAIT"] ->
                exists payload, Answered "/api/post_status" (409%Z, payload)))).
Proof.
  destruct (callPostStatusTool_run args w) as (answer & w' & calls & Hrun & Hans & _).
  rewrite Hrun. destruct answer as [response|e]; simpl.
  - do 2 eexists. split; [reflexivity|].
    destruct (postStatusResult_cases response)
      as [[Hpass ->]|(Hge & action & reason & -> & Haction)].
    + left. exists response. auto.
    + right. split; [reflexivity|]. split.
      * exists action, reason. split; [reflexivity|].
        destruct Haction as [[-> _]|[-> _]]; set_solver.
      * intros (action' & reason' & Ho & Hin). simpl in Ho.
        unfold orchestrationCommand in Ho. injection Ho as <- _.
        apply list_elem_of_singleton in Hin. subst action.
        destruct Haction as [[_ H409]|[Hstop _]]; [|discriminate].
        destruct response as [status payload]. simpl in H409. subst status.
        exists payload. apply Hans. reflexivity.
  - do 2 eexists. split; [reflexivity|]. right. split; [reflexivity|]. split.
    + exists "STOP", "Vercel Offline - Cannot Acquire Lock". split; [reflexivity|]. set_solver.
    + intros (action' & reason' & Ho & Hin). simpl in Ho.
      unfold orchestrationCommand in Ho. injection Ho as <- _.
      apply list_elem_of_singleton in Hin. discriminate.
Qed.

(** X28: whatever the arguments of a tool call, the user name that the
    adapter forwards is never empty and has no surrounding white space;
    each tool makes one or two calls of its internal endpoint and
    nothing else, every one in that name, on the standard repository
    (the [repo_url] argument is not forwarded) and on a non-empty branch
    without surrounding white space, the other arguments being passed
    on as they are, an absent [new_repo_head] as [null]. *)
Theorem adapter_calls_are_normalised (args : list (string * JsValue)) (w : World) :
  (let username := normalizeUsername (get_field args "username") in
   username <> "" /\ trim username = username)
  /\ (exists calls,
        log (snd (callCheckStatusTool args w)) = (log w ++ calls)%list
        /\ store (snd (callCheckStatusTool args w)) = store w
        /\ 1 <= length calls <= 2
        /\ Forall (Forwarded "/api/check_status" args) calls)
  /\ (exists calls,
        log (snd (callPostStatusTool args w)) = (log w ++ calls)%list
        /\ store (snd (callPostStatusTool args w)) = store w
        /\ 1 <= length calls <= 2
        /\ Forall (Forwarded "/api/post_status" args) calls).
Proof.
  split; [apply normalizeUsername_clean|]. split.
  - destruct (callCheckStatusTool_run args w) as (answer & w' & calls & Hrun & _ & Hs & Hl & Hn & Hf).
    rewrite Hrun. exists calls. auto.
  - destruct (callPostStatusTool_run args w) as (answer & w' & calls & Hrun & _ & Hs & Hl & Hn & Hf).
    rewrite Hrun. exists calls. auto.
Qed.

End ToolRuns.

Section ResponseTexts.
Import Mcp McpRoute.
Context `{Json}.

(** X30: the text of a response of an internal endpoint that is no JSON
    is the error message that the adapter reads from it, and a 404 or
    500 whose text mentions, in whatever case, that something was not
    found is taken for a missing branch; an empty text stands for an
    empty object, from which the adapter reads its fallback message. *)
Theorem plain_text_response_is_its_error (text fallback : string) :
  (parse text = None -> trim text <> "" ->
   extractErrorMessage (readResponsePayload text) fallback = text
   /\ (forall status,
         status = 404%Z \/ status = 500%Z ->
         includes (toLowerCase text) "not found" = true ->
         shouldRetryOnMissingBranchReference (status, readResponsePayload text) = true))
  /\ readResponsePayload "" = JObject []
  /\ extractErrorMessage (readResponsePayload "") fallback = fallback.
Proof.
  split; [|split; reflexivity].
  intros Hparse Hblank.
  assert (Hne : text <> "") by (intros ->; apply Hblank; reflexivity).
  assert (Hmessage : forall fb, extractErrorMessage (readResponsePayload text) fb = text).
  { intros fb. unfold readResponsePayload. destruct (decide (text = "")); [contradiction|].
    rewrite Hparse. unfold extractErrorMessage. cbn.
    repeat case_decide; try discriminate; try contradiction; reflexivity. }
  split; [apply Hmessage|].
  intros status Hstatus Hfound. unfold shouldRetryOnMissingBranchReference.
  cbn [fst snd]. rewrite Hmessage, Hfound.
  destruct Hstatus as [-> | ->]; cbn; now rewrite !orb_true_r.
Qed.

End ResponseTexts.

Lemma plain_text_response_is_its_error_witness :
  Mcp.shouldRetryOnMissingBranchReference
    (404%Z, @McpRoute.readResponsePayload MoreScenarios.json "Not Found") = true.
Proof.
  apply (proj1 (plain_text_response_is_its_error (H := MoreScenarios.json) "Not Found" "")
           eq_refl ltac:(discriminate)).
  - left. reflexivity.
  - reflexivity.
Defined.

(** ** The JSON-RPC endpoint *)

Lemma missingRequiredArg_first (args : list (string * JsValue)) (before after : list string)
    (missing : string) :
  Forall (fun k => k ∈ map fst args) before ->
  missing ∉ map fst args ->
  McpRoute.missingRequiredArg args (before ++ missing :: after) = Some missing.
Proof.
  intros Hbefore Hmissing. induction Hbefore as [|k before Hk _ IH]; simpl.
  - unfold McpRoute.has_key. now rewrite bool_decide_eq_false_2.
  - unfold McpRoute.has_key at 1. now rewrite bool_decide_eq_true_2.
Qed.

Lemma missingRequiredArg_none (args : list (string * JsValue)) (required : list string) :
  Forall (fun k => k ∈ map fst args) required ->
  McpRoute.missingRequiredArg args required = None.
Proof.
  intros Hall. induction Hall as [|k required Hk _ IH]; simpl; [reflexivity|].
  unfold McpRoute.has_key at 1. now rewrite bool_decide_eq_true_2.
Qed.

Lemma advertisedRequired_cases (name : string) (required : list string) :
  McpRouteSpec.advertisedRequired name = Some required ->
  (name = "check_status"
   /\ required = ["username"; "file_paths"; "agent_head"; "repo_url"])
  \/ (name = "post_status"
      /\ required = ["username"; "file_paths"; "status"; "message"; "agent_head"; "repo_url"]).
Proof.
  unfold McpRouteSpec.advertisedRequired, McpRoute.TOOL_DEFINITIONS. simpl.
  destruct (bool_decide ("check_status" = name)) eqn:Hc.
  - apply bool_decide_eq_true in Hc. intros [= <-]. left. split; [now symmetry | reflexivity].
  - destruct (bool_decide ("post_status" = name)) eqn:Hp; [|discriminate].
    apply bool_decide_eq_true in Hp. intros [= <-]. right. split; [now symmetry | reflexivity].
Qed.

Lemma advertisedRequired_none (name : string) :
  McpRouteSpec.advertisedRequired name = None ->
  name <> "check_status" /\ name <> "post_status".
Proof.
  unfold McpRouteSpec.advertisedRequired, McpRoute.TOOL_DEFINITIONS. simpl.
  destruct (bool_decide ("check_status" = name)) eqn:Hc; [discriminate|].
  destruct (bool_decide ("post_status" = name)) eqn:Hp; [discriminate|].
  apply bool_decide_eq_false in Hc, Hp. intros _. split; congruence.
Qed.

Section Endpoint.
Import Mcp McpSpec McpRoute McpRouteSpec.
Context `{Env} `{Json}.

(** The handler on a JSON-RPC call that is not a notification. *)
Lemma POST_rpc (request : Route.Request) (id : JsValue) (method : string)
    (params : list (string * JsValue)) :
  Rpc request id method params ->
  POST request
  = if decide (method = "ping")
    then mret (sseJsonRpcResponse (makeJsonRpcResult id (JObject [])))
    else if decide (method = "initialize")
    then mret (sseJsonRpcResponse (makeJsonRpcResult id (JObject
           [("protocolVersion", JString MCP_PROTOCOL_VERSION);
            ("capabilities", MCP_CAPABILITIES);
            ("serverInfo", MCP_SERVER_INFO)])))
    else if decide (method = "tools/list")
    then mret (sseJsonRpcResponse (makeJsonRpcResult id (JObject
           [("tools", JArray TOOL_DEFINITIONS)])))
    else if decide (method = "tools/call")
    then
      let name := match get_field params "name" with
                  | JString s => s
                  | _ => ""
                  end in
      let args := default [] (isRecord (get_field params "arguments")) in
      if decide (name = "")
      then mret (sseJsonRpcResponse (makeJsonRpcResult id (makeToolErrorResult
             ("Missing required parameter " +:+ quote +:+ "name" +:+ quote
              +:+ " for tools/call"))))
      else if decide (name = "check_status")
      then
        match missingRequiredArg args ["username"; "file_paths"; "agent_head"; "repo_url"] with
        | Some missing =>
            mret (sseJsonRpcResponse (makeJsonRpcResult id (makeToolErrorResult
              ("Missing required argument '" +:+ missing +:+ "' for tool 'check_status'"))))
        | None =>
            result ← callCheckStatusTool args;
            mret (sseJsonRpcResponse
                    (makeJsonRpcResult id (makeToolSuccessResult (JObject result))))
        end
      else if decide (name = "post_status")
      then
        match missingRequiredArg args
                ["username"; "file_paths"; "status"; "message"; "agent_head"; "repo_url"] with
        | Some missing =>
            mret (sseJsonRpcResponse (makeJsonRpcResult id (makeToolErrorResult
              ("Missing required argument '" +:+ missing +:+ "' for tool 'post_status'"))))
        | None =>
            result ← callPostStatusTool args;
            mret (sseJsonRpcResponse
                    (makeJsonRpcResult id (makeToolSuccessResult (JObject result))))
        end
      else mret (sseJsonRpcResponse (makeJsonRpcResult id (makeToolErrorResult
             ("Tool " +:+ quote +:+ name +:+ quote +:+ " is not available"))))
    else mret (sseJsonRpcResponse
                 (makeJsonRpcError id (-32600) "Invalid request parameters" (JString ""))).
Proof.
  intros (Hacc & payload & Hjson & Hver & Hmethod & Hnote & Hid & Hparams).
  unfold acceptable in Hacc. cbv zeta in Hacc. apply andb_true_iff in Hacc as [Ha Hb].
  unfold POST. cbv zeta. rewrite Ha, Hb. simpl negb. simpl orb. cbv iota.
  unfold safeParseJson. rewrite Hjson. cbn [isRecord]. rewrite Hver. cbn [strictEq].
  rewrite bool_decide_eq_true_2 by reflexivity. simpl negb. cbv iota.
  rewrite Hmethod, Hnote, Hid, Hparams. reflexivity.
Qed.

(** X23: a [tools/call] of [check_status] or [post_status] that lacks
    an argument which [tools/list] advertises as required is answered
    with a tool error that names the first such argument, in the order
    of the advertised list, and no internal endpoint is called. *)
Theorem mcp_tool_call_missing_argument
    (request : Route.Request) (id : JsValue) (name : string) (args : list (string * JsValue))
    (required before after : list string) (missing : string) (w : World) :
  ToolCall request id name args ->
  advertisedRequired name = Some required ->
  required = (before ++ missing :: after)%list ->
  Forall (fun k => k ∈ map fst args) before ->
  missing ∉ map fst args ->
  POST request w
  = (Ret (sseJsonRpcResponse (makeJsonRpcResult id (makeToolErrorResult
            ("Missing required argument '" +:+ missing +:+ "' for tool '" +:+ name +:+ "'")))),
     w).
Proof.
  intros (params & Hrpc & Hname & Hargs) Hadv Hreq Hbefore Hmissing.
  rewrite (POST_rpc _ _ _ _ Hrpc). cbv zeta. rewrite Hname, Hargs.
  repeat (destruct (decide ("tools/call" = _)) as [|_]; [discriminate|]).
  destruct (decide ("tools/call" = "tools/call")); [|congruence].
  apply advertisedRequired_cases in Hadv as [[-> Hr]|[-> Hr]]; rewrite Hr in Hreq.
  - destruct (decide ("check_status" = "")); [discriminate|].
    destruct (decide ("check_status" = "check_status")); [|congruence].
    rewrite Hreq, (missingRequiredArg_first _ _ _ _ Hbefore Hmissing). reflexivity.
  - destruct (decide ("post_status" = "")); [discriminate|].
    destruct (decide ("post_status" = "check_status")); [discriminate|].
    destruct (decide ("post_status" = "post_status")); [|congruence].
    rewrite Hreq, (missingRequiredArg_first _ _ _ _ Hbefore Hmissing). reflexivity.
Qed.

(** X24: a [tools/call] of an advertised tool that has every argument
    advertised as required runs that tool on the arguments and answers
    with its result, as structured content and as text, not marked as an
    error; a call of any other tool name, or without a name, is answered
    with a tool error and calls nothing. *)
Theorem mcp_tool_call_dispatch
    (request : Route.Request) (id : JsValue) (name : string) (args : list (string * JsValue))
    (w : World) :
  ToolCall request id name args ->
  (forall required,
     advertisedRequired name = Some required ->
     Forall (fun k => k ∈ map fst args) required ->
     exists tool result w',
       toolOf name = Some tool
       /\ tool args w = (Ret result, w')
       /\ POST request w
          = (Ret (sseJsonRpcResponse
                    (makeJsonRpcResult id (makeToolSuccessResult (JObject result)))), w'))
  /\ (advertisedRequired name = None ->
      POST request w
      = (Ret (sseJsonRpcResponse (makeJsonRpcResult id (makeToolErrorResult
                (if decide (name = "")
                 then "Missing required parameter " +:+ quote +:+ "name" +:+ quote
                      +:+ " for tools/call"
                 else "Tool " +:+ quote +:+ name +:+ quote +:+ " is not available")))),
         w)).
Proof.
  intros (params & Hrpc & Hname & Hargs).
  rewrite (POST_rpc _ _ _ _ Hrpc). cbv zeta. rewrite Hname, Hargs.
  repeat (destruct (decide ("tools/call" = _)) as [|_]; [discriminate|]).
  destruct (decide ("tools/call" = "tools/call")); [|congruence].
  split.
  - intros required Hadv Hall.
    apply advertisedRequired_cases in Hadv as [[-> ->]|[-> ->]].
    + destruct (decide ("check_status" = "")); [discriminate|].
      destruct (decide ("check_status" = "check_status")); [|congruence].
      rewrite (missingRequiredArg_none _ _ Hall).
      destruct (callCheckStatusTool_run args w) as (answer & w' & calls & Hrun & _).
      exists callCheckStatusTool. unfold mbind, M_bind. rewrite Hrun.
      destruct answer; simpl; do 2 eexists; split; try reflexivity; split; reflexivity.
    + destruct (decide ("post_status" = "")); [discriminate|].
      destruct (decide ("post_status" = "check_status")); [discriminate|].
      destruct (decide ("post_status" = "post_status")); [|congruence].
      rewrite (missingRequiredArg_none _ _ Hall).
      destruct (callPostStatusTool_run args w) as (answer & w' & calls & Hrun & _).
      exists callPostStatusTool. unfold mbind, M_bind. rewrite Hrun.
      destruct answer; simpl; do 2 eexists; split; try reflexivity; split; reflexivity.
  - intros Hnone. apply advertisedRequired_none in Hnone as [Hc Hp].
    destruct (decide (name = "")); [reflexivity|].
    destruct (decide (name = "check_status")); [contradiction|].
    destruct (decide (name = "post_status")); [contradiction|]. reflexivity.
Qed.

(** X25: the answer to a JSON-RPC 2.0 call that is not a notification
    is an event whose message carries the version "2.0" and the
    identifier of the request, which is a string, a number or [null]
    (any other identifier is read as [null]). A request that is no
    JSON-RPC 2.0 call (no object, another version, no method name) is
    answered with the error -32600 and the identifier [null], and calls
    nothing. *)
Theorem mcp_response_echoes_id (request : Route.Request) (w : World) :
  (forall id method params,
     Rpc request id method params ->
     (exists rest,
        fst (POST request w)
        = Ret (sseJsonRpcResponse
                 (JObject (("jsonrpc", JString "2.0") :: ("id", id) :: rest))))
     /\ (id = JNull \/ (exists s, id = JString s) \/ exists n, id = JNumber n))
  /\ (acceptable request = true ->
      (forall payload method,
         safeParseJson request = JObject payload ->
         get_field payload "jsonrpc" = JString "2.0" ->
         get_field payload "method" <> JString method) ->
      POST request w
      = (Ret (sseJsonRpcResponse
                (makeJsonRpcError JNull (-32600) "Invalid request parameters" (JString ""))),
         w)).
Proof.
  split.
  - intros id method params Hrpc. split.
    + rewrite (POST_rpc _ _ _ _ Hrpc). cbv zeta.
      destruct (decide (method = "ping")); [eexists; reflexivity|].
      destruct (decide (method = "initialize")); [eexists; reflexivity|].
      destruct (decide (method = "tools/list")); [eexists; reflexivity|].
      destruct (decide (method = "tools/call")); [|eexists; reflexivity].
      destruct (decide (_ = "")); [eexists; reflexivity|].
      destruct (decide (_ = "check_status")).
      { destruct (missingRequiredArg _ _); [eexists; reflexivity|].
        match goal with
        | |- context [callCheckStatusTool ?a] =>
            destruct (callCheckStatusTool_run a w) as (answer & w' & calls & Hrun & _)
        end.
        unfold mbind, M_bind. rewrite Hrun. destruct answer; eexists; reflexivity. }
      destruct (decide (_ = "post_status")); [|eexists; reflexivity].
      destruct (missingRequiredArg _ _); [eexists; reflexivity|].
      match goal with
      | |- context [callPostStatusTool ?a] =>
          destruct (callPostStatusTool_run a w) as (answer & w' & calls & Hrun & _)
      end.
      unfold mbind, M_bind. rewrite Hrun. destruct answer; eexists; reflexivity.
    + destruct Hrpc as (_ & payload & _ & _ & _ & _ & <- & _).
      destruct (get_field payload "id"); simpl; eauto.
  - intros Hacc Hbad.
    unfold acceptable in Hacc. cbv zeta in Hacc. apply andb_true_iff in Hacc as [Ha Hb].
    unfold POST. cbv zeta. rewrite Ha, Hb. simpl negb. simpl orb. cbv iota.
    destruct (safeParseJson request) as [| | | | | |payload] eqn:Hparse; try reflexivity.
    cbn [isRecord].
    destruct (strictEq (get_field payload "jsonrpc") "2.0") eqn:Hver; [|reflexivity].
    simpl negb. cbv iota.
    destruct (get_field payload "jsonrpc") as [| | | |version| |] eqn:Hj; try discriminate.
    simpl in Hver. apply bool_decide_eq_true in Hver. subst version.
    destruct (get_field payload "method") as [| | | |method| |] eqn:Hm; try reflexivity.
    exfalso. exact (Hbad payload method eq_refl Hj Hm).
Qed.

(** X22: the endpoint always answers. [GET] opens an event stream for a
    client that accepts one and is 406 otherwise. [POST] is 406, and
    calls nothing, unless the client accepts both JSON and an event
    stream; otherwise it answers 202 without a body (a notification) or
    200 with one event. It never writes to the store and calls the
    internal endpoints at most twice. *)
Theorem mcp_endpoint_always_answers (request : Route.Request) (w : World) :
  (if includes (or_else (Route.headers request !! "accept") "") "text/event-stream"
   then http_status (GET request) = 200%Z /\ responseHeaders (GET request) = eventStream
   else GET request = notAcceptable "Not Acceptable: Client must accept text/event-stream")
  /\ exists resp w' calls,
       POST request w = (Ret resp, w')
       /\ store w' = store w
       /\ log w' = (log w ++ calls)%list
       /\ length calls <= 2
       /\ if acceptable request
          then (resp = {| http_status := 202; responseHeaders := []; body := NoBody |}
                /\ calls = [])
               \/ exists payload, resp = sseJsonRpcResponse payload
          else resp = notAcceptable
                        "Not Acceptable: Client must accept both application/json and text/event-stream"
               /\ calls = [].
Proof.
  split.
  { unfold GET. cbv zeta. destruct (includes _ "text/event-stream"); simpl; auto. }
  assert (Hnil : forall payload,
    exists resp w' calls,
      (Ret (sseJsonRpcResponse payload), w) = (Ret resp, w')
      /\ store w' = store w /\ log w' = (log w ++ calls)%list /\ length calls <= 2
      /\ ((resp = {| http_status := 202; responseHeaders := []; body := NoBody |}
           /\ calls = [])
          \/ exists payload, resp = sseJsonRpcResponse payload)).
  { intros payload. exists (sseJsonRpcResponse payload), w, [].
    rewrite app_nil_r. simpl. repeat split; [lia | eauto]. }
  unfold POST, acceptable. cbv zeta.
  destruct (includes _ "application/json"), (includes _ "text/event-stream");
    cbn [negb orb andb];
    try (exists (notAcceptable
           "Not Acceptable: Client must accept both application/json and text/event-stream"),
           w, []; rewrite app_nil_r; simpl; repeat split; lia).
  destruct (isRecord (safeParseJson request)) as [payload|]; [|apply Hnil].
  destruct (negb _); [apply Hnil|].
  destruct (get_field payload "method") as [| | | |method| |]; try apply Hnil.
  destruct (startsWith method "notifications/").
  { do 2 eexists. exists []. split; [reflexivity|]. rewrite app_nil_r. simpl.
    repeat split; [lia | auto]. }
  destruct (decide (method = "ping")); [apply Hnil|].
  destruct (decide (method = "initialize")); [apply Hnil|].
  destruct (decide (method = "tools/list")); [apply Hnil|].
  destruct (decide (method = "tools/call")); [|apply Hnil].
  destruct (decide (_ = "")); [apply Hnil|].
  destruct (decide (_ = "check_status")).
  { destruct (missingRequiredArg _ _); [apply Hnil|].
    match goal with
    | |- context [callCheckStatusTool ?a] =>
        destruct (callCheckStatusTool_run a w)
          as (answer & w' & calls & Hrun & _ & Hstore & Hlog & Hlen & _)
    end.
    unfold mbind, M_bind. rewrite Hrun.
    destruct answer; simpl; (do 2 eexists; exists calls; split; [reflexivity|];
      repeat split; [assumption | assumption | lia | eauto]). }
  destruct (decide (_ = "post_status")); [|apply Hnil].
  destruct (missingRequiredArg _ _); [apply Hnil|].
  match goal with
  | |- context [callPostStatusTool ?a] =>
      destruct (callPostStatusTool_run a w)
        as (answer & w' & calls & Hrun & _ & Hstore & Hlog & Hlen & _)
  end.
  unfold mbind, M_bind. rewrite Hrun.
  destruct answer; simpl; (do 2 eexists; exists calls; split; [reflexivity|];
    repeat split; [assumption | assumption | lia | eauto]).
Qed.

End Endpoint.

Lemma mcp_tool_call_missing_argument_witness :
  @McpRoute.POST MoreScenarios.json (Sample.env Sample.quiet)
     (MoreScenarios.toolsCall 7 "check_status" [("username", JString "gpt5-orchid-luka")])
     Sample.start
  = (Ret (@McpRoute.sseJsonRpcResponse MoreScenarios.json (McpRoute.makeJsonRpcResult (JNumber 7)
            (McpRoute.makeToolErrorResult
               "Missing required argument 'file_paths' for tool 'check_status'"))),
     Sample.start).
Proof.
  apply (mcp_tool_call_missing_argument (H := Sample.env Sample.quiet) (H0 := MoreScenarios.json)
           _ (JNumber 7) "check_status" [("username", JString "gpt5-orchid-luka")]
           ["username"; "file_paths"; "agent_head"; "repo_url"]
           ["username"] ["agent_head"; "repo_url"] "file_paths").
  - exists [("name", JString "check_status");
            ("arguments", JObject [("username", JString "gpt5-orchid-luka")])].
    split; [|split; reflexivity]. split; [reflexivity|]. eexists. repeat split.
  - reflexivity.
  - reflexivity.
  - repeat constructor.
  - rewrite list_elem_of_In. simpl. intros [Heq|[]]. discriminate.
Defined.

Lemma mcp_tool_call_dispatch_witness :
  exists result w',
    @Mcp.callCheckStatusTool (Sample.env McpSpec.missingMaster) McpSpec.toolArgs Sample.start
    = (Ret result, w')
    /\ @McpRoute.POST MoreScenarios.json (Sample.env McpSpec.missingMaster)
         (MoreScenarios.toolsCall 7 "check_status" McpSpec.toolArgs) Sample.start
       = (Ret (@McpRoute.sseJsonRpcResponse MoreScenarios.json (McpRoute.makeJsonRpcResult (JNumber 7)
                 (@McpRoute.makeToolSuccessResult MoreScenarios.json (JObject result)))), w').
Proof.
  destruct (proj1 (mcp_tool_call_dispatch
                     (H := Sample.env McpSpec.missingMaster) (H0 := MoreScenarios.json)
                     (MoreScenarios.toolsCall 7 "check_status" McpSpec.toolArgs)
                     (JNumber 7) "check_status" McpSpec.toolArgs Sample.start
                     ltac:(exists [("name", JString "check_status");
                                   ("arguments", JObject McpSpec.toolArgs)];
                           split; [|split; reflexivity];
                           split; [reflexivity|]; eexists; repeat split))
                  ["username"; "file_paths"; "agent_head"; "repo_url"] eq_refl)
    as (tool & result & w' & Htool & Hrun & Hpost).
  - repeat constructor; apply (bool_decide_unpack _); vm_compute; exact I.
  - injection Htool as <-. exists result, w'. auto.
Defined.

Lemma mcp_response_echoes_id_witness :
  exists rest,
    fst (@McpRoute.POST MoreScenarios.json (Sample.env Sample.quiet)
           (MoreScenarios.rpc [("jsonrpc", JString "2.0"); ("id", JString "abc");
                               ("method", JString "ping")])
           Sample.start)
    = Ret (@McpRoute.sseJsonRpcResponse MoreScenarios.json
             (JObject (("jsonrpc", JString "2.0") :: ("id", JString "abc") :: rest))).
Proof.
  apply (proj1 (mcp_response_echoes_id (H := Sample.env Sample.quiet) (H0 := MoreScenarios.json)
                  _ Sample.start) (JString "abc") "ping" []).
  split; [reflexivity|]. eexists. repeat split.
Defined.
